(** * Supply-chain product ledger (smartcontract.go): model and properties

    The contract keeps one JSON document per product in the world state of a
    Hyperledger Fabric channel.  The development has four layers:

    - [utf8], [json], [time]: the parts of Go's standard library that the
      contract calls ([unicode/utf8], [encoding/json] on the [Product] struct,
      [time.Unix(..).Format(time.RFC3339)]);
    - the ledger stub ([GetState], [PutState], [GetStateByRange],
      [GetTxTimestamp]) as an interface with injectable failures;
    - the contract itself, function by function, in a state-and-error monad;
    - the properties.

    Go strings and byte slices are both sequences of bytes; they are modelled
    by [string] (a list of 8-bit [ascii] characters). *)

From Stdlib Require Import ZArith Lia Ascii String.
From stdpp Require Import base option list gmap strings sorting.

Local Open Scope Z_scope.

(** ** Bytes *)

(** The numeric value of a byte, and Go's conversion [byte(z)], which keeps the
    low eight bits. *)
Definition ord (c : ascii) : Z := Z.of_N (N_of_ascii c).
Definition chr (z : Z) : ascii := ascii_of_N (Z.to_N (z mod 256)).

(** [len(s)], [s[i]], [s[n:]] and [s[:n]]. *)
Definition len (s : string) : Z := Z.of_nat (String.length s).

Definition byteAt (s : string) (i : nat) : Z :=
  match String.get i s with
  | Some c => ord c
  | None => 0
  end.

Fixpoint slice_from (n : nat) (s : string) : string :=
  match n, s with
  | O, _ => s
  | S n', String _ t => slice_from n' t
  | S _, EmptyString => EmptyString
  end.

Fixpoint slice_to (n : nat) (s : string) : string :=
  match n, s with
  | O, _ => EmptyString
  | S n', String c t => String c (slice_to n' t)
  | S _, EmptyString => EmptyString
  end.

(** Conversions of fixed-width integers. *)
Definition int32 (z : Z) : Z := (z + 2 ^ 31) mod 2 ^ 32 - 2 ^ 31.
Definition uint32 (z : Z) : Z := z mod 2 ^ 32.
Definition int64 (z : Z) : Z := (z + 2 ^ 63) mod 2 ^ 64 - 2 ^ 63.
Definition uint64 (z : Z) : Z := z mod 2 ^ 64.

(** A Go result [(value, err)]: the value when [err] is nil, the error
    otherwise. *)
Inductive result (E A : Type) : Type :=
| Ok (a : A)
| Err (e : E).
Arguments Ok {E A} a.
Arguments Err {E A} e.

(** ** unicode/utf8 *)

Module utf8.

Definition RuneError : Z := 0xFFFD.
Definition RuneSelf : Z := 0x80.
Definition MaxRune : Z := 0x10FFFF.
Definition UTFMax : nat := 4%nat.

Definition surrogateMin : Z := 0xD800.
Definition surrogateMax : Z := 0xDFFF.

Definition t2 : Z := 0xC0.
Definition t3 : Z := 0xE0.
Definition t4 : Z := 0xF0.
Definition tx : Z := 0x80.

Definition maskx : Z := 0x3F.
Definition mask2 : Z := 0x1F.
Definition mask3 : Z := 0x0F.
Definition mask4 : Z := 0x07.

Definition rune1Max : Z := 0x7F.
Definition rune2Max : Z := 0x7FF.
Definition rune3Max : Z := 0xFFFF.

Definition locb : Z := 0x80.
Definition hicb : Z := 0xBF.

(** Entries of the [first] table: the low three bits give the length of the
    sequence, the high four bits index [acceptRanges]. *)
Definition xx : Z := 0xF1.
Definition as_ : Z := 0xF0.
Definition s1 : Z := 0x02.
Definition s2 : Z := 0x13.
Definition s3 : Z := 0x03.
Definition s4 : Z := 0x23.
Definition s5 : Z := 0x34.
Definition s6 : Z := 0x04.
Definition s7 : Z := 0x44.

(** The 256-entry table [first], written by the ranges of its index. *)
Definition first (p0 : Z) : Z :=
  if p0 <? 0x80 then as_
  else if p0 <? 0xC2 then xx
  else if p0 <? 0xE0 then s1
  else if p0 =? 0xE0 then s2
  else if p0 <? 0xED then s3
  else if p0 =? 0xED then s4
  else if p0 <? 0xF0 then s3
  else if p0 =? 0xF0 then s5
  else if p0 <? 0xF4 then s6
  else if p0 =? 0xF4 then s7
  else xx.

(** [acceptRanges]: the bounds [(lo, hi)] of the second byte. *)
Definition acceptRanges (i : Z) : Z * Z :=
  if i =? 0 then (locb, hicb)
  else if i =? 1 then (0xA0, hicb)
  else if i =? 2 then (locb, 0x9F)
  else if i =? 3 then (0x90, hicb)
  else if i =? 4 then (locb, 0x8F)
  else (0, 0).

(** [DecodeRune(p)]: the first rune of [p] and its width in bytes;
    [(RuneError, 1)] for an invalid encoding, [(RuneError, 0)] for the empty
    input. *)
Definition DecodeRune (p : string) : Z * nat :=
  let n := len p in
  if n <? 1 then (RuneError, 0%nat)
  else
    let p0 := byteAt p 0 in
    let x := first p0 in
    if as_ <=? x then
      let mask := Z.shiftr (int32 (Z.shiftl x 31)) 31 in
      (Z.lor (Z.ldiff p0 mask) (Z.land RuneError mask), 1%nat)
    else
      let sz := Z.land x 7 in
      let accept := acceptRanges (Z.shiftr x 4) in
      if n <? sz then (RuneError, 1%nat)
      else
        let b1 := byteAt p 1 in
        if (b1 <? fst accept) || (snd accept <? b1) then (RuneError, 1%nat)
        else if sz <=? 2 then
          (Z.lor (Z.shiftl (Z.land p0 mask2) 6) (Z.land b1 maskx), 2%nat)
        else
          let b2 := byteAt p 2 in
          if (b2 <? locb) || (hicb <? b2) then (RuneError, 1%nat)
          else if sz <=? 3 then
            (Z.lor (Z.lor (Z.shiftl (Z.land p0 mask3) 12)
                          (Z.shiftl (Z.land b1 maskx) 6))
                   (Z.land b2 maskx), 3%nat)
          else
            let b3 := byteAt p 3 in
            if (b3 <? locb) || (hicb <? b3) then (RuneError, 1%nat)
            else
              (Z.lor (Z.lor (Z.lor (Z.shiftl (Z.land p0 mask4) 18)
                                   (Z.shiftl (Z.land b1 maskx) 12))
                            (Z.shiftl (Z.land b2 maskx) 6))
                     (Z.land b3 maskx), 4%nat).

(** [EncodeRune(p, r)]: the bytes written for [r]; a rune out of range or a
    surrogate half is written as [RuneError]. *)
Definition encode3 (r : Z) : string :=
  String (chr (Z.lor t3 (Z.shiftr r 12)))
    (String (chr (Z.lor tx (Z.land (Z.shiftr r 6) maskx)))
       (String (chr (Z.lor tx (Z.land r maskx))) EmptyString)).

Definition EncodeRune (r : Z) : string :=
  let i := uint32 r in
  if i <=? rune1Max then String (chr r) EmptyString
  else if i <=? rune2Max then
    String (chr (Z.lor t2 (Z.shiftr r 6)))
      (String (chr (Z.lor tx (Z.land r maskx))) EmptyString)
  else if (MaxRune <? i) || ((surrogateMin <=? i) && (i <=? surrogateMax)) then
    encode3 RuneError
  else if i <=? rune3Max then encode3 r
  else
    String (chr (Z.lor t4 (Z.shiftr r 18)))
      (String (chr (Z.lor tx (Z.land (Z.shiftr r 12) maskx)))
         (String (chr (Z.lor tx (Z.land (Z.shiftr r 6) maskx)))
            (String (chr (Z.lor tx (Z.land r maskx))) EmptyString))).

(** [ValidString(s)]: no position of [s] decodes to [(RuneError, 1)].  The
    fuel bounds the number of runes; [String.length s] is always enough
    ([valid_from_fuel] below). *)
Fixpoint valid_from (fuel : nat) (s : string) : bool :=
  match fuel with
  | O => true
  | S fuel' =>
      match s with
      | EmptyString => true
      | String _ _ =>
          let '(r, size) := DecodeRune s in
          if (r =? RuneError) && (size =? 1)%nat then false
          else valid_from fuel' (slice_from size s)
      end
  end.

Definition ValidString (s : string) : bool := valid_from (String.length s) s.

End utf8.

(** ** unicode/utf16: surrogate pairs, as used by the JSON decoder *)

Module utf16.

Definition replacementChar : Z := 0xFFFD.
Definition surr1 : Z := 0xd800.
Definition surr2 : Z := 0xdc00.
Definition surr3 : Z := 0xe000.
Definition surrSelf : Z := 0x10000.

Definition IsSurrogate (r : Z) : bool := (surr1 <=? r) && (r <? surr3).

Definition DecodeRune (r1 r2 : Z) : Z :=
  if (surr1 <=? r1) && (r1 <? surr2) && (surr2 <=? r2) && (r2 <? surr3)
  then Z.lor (Z.shiftl (r1 - surr1) 10) (r2 - surr2) + surrSelf
  else replacementChar.

End utf16.

(** ** The product record *)

(** [type Product struct], with the JSON keys of its field tags in the order of
    declaration: id, name, status, owner, created_at, updated_at, description,
    category. *)
Record Product := mkProduct {
  ID : string;
  Name : string;
  Status : string;
  Owner : string;
  CreatedAt : string;
  UpdatedAt : string;
  Description : string;
  Category : string;
}.

(** The zero value of the struct ([var product Product]). *)
Definition zeroProduct : Product := mkProduct "" "" "" "" "" "" "" "".

(** Assignments to one field ([asset.Status = newStatus], ...). *)
Definition set_ID (v : string) (p : Product) : Product :=
  mkProduct v (Name p) (Status p) (Owner p) (CreatedAt p) (UpdatedAt p) (Description p) (Category p).
Definition set_Name (v : string) (p : Product) : Product :=
  mkProduct (ID p) v (Status p) (Owner p) (CreatedAt p) (UpdatedAt p) (Description p) (Category p).
Definition set_Status (v : string) (p : Product) : Product :=
  mkProduct (ID p) (Name p) v (Owner p) (CreatedAt p) (UpdatedAt p) (Description p) (Category p).
Definition set_Owner (v : string) (p : Product) : Product :=
  mkProduct (ID p) (Name p) (Status p) v (CreatedAt p) (UpdatedAt p) (Description p) (Category p).
Definition set_CreatedAt (v : string) (p : Product) : Product :=
  mkProduct (ID p) (Name p) (Status p) (Owner p) v (UpdatedAt p) (Description p) (Category p).
Definition set_UpdatedAt (v : string) (p : Product) : Product :=
  mkProduct (ID p) (Name p) (Status p) (Owner p) (CreatedAt p) v (Description p) (Category p).
Definition set_Description (v : string) (p : Product) : Product :=
  mkProduct (ID p) (Name p) (Status p) (Owner p) (CreatedAt p) (UpdatedAt p) v (Category p).
Definition set_Category (v : string) (p : Product) : Product :=
  mkProduct (ID p) (Name p) (Status p) (Owner p) (CreatedAt p) (UpdatedAt p) (Description p) v.

(** ** encoding/json, for the [Product] struct *)

Module json.

(** The double quote, the backslash and the control characters that have a
    short escape. *)
Definition dq : ascii := "034"%char.
Definition bs : ascii := "092"%char.
Definition BS : ascii := "008"%char.
Definition HT : ascii := "009"%char.
Definition LF : ascii := "010"%char.
Definition FF : ascii := "012"%char.
Definition CR : ascii := "013"%char.

(** *** Encoding *)

Definition hex : string := "0123456789abcdef".

Definition hexAt (i : Z) : ascii :=
  match String.get (Z.to_nat i) hex with
  | Some c => c
  | None => "0"%char
  end.

(** [htmlSafeSet]: every ASCII character from the space on, except the
    double quote, the backslash, the ampersand and the angle brackets. *)
Definition htmlSafeSet (b : Z) : bool :=
  (0x20 <=? b) && (b <? 0x80)
  && negb ((b =? 0x22) || (b =? 0x5C) || (b =? 0x26) || (b =? 0x3C) || (b =? 0x3E)).

(** The escape written for an ASCII byte outside [htmlSafeSet].  (Before
    Go 1.22 the backspace and the form feed were written as [\u0008] and
    [\u000c]; the decoder reads both forms as the same byte.) *)
Definition escapeByte (c : ascii) : string :=
  let b := ord c in
  if (b =? 0x5C) || (b =? 0x22) then String bs (String c "")
  else if b =? 0x08 then String bs "b"
  else if b =? 0x0C then String bs "f"
  else if b =? 0x0A then String bs "n"
  else if b =? 0x0D then String bs "r"
  else if b =? 0x09 then String bs "t"
  else String bs (String "u" (String "0" (String "0"
         (String (hexAt (Z.shiftr b 4)) (String (hexAt (Z.land b 0xF)) ""))))).

(** The body of [appendString] with [escapeHTML] set, as [Marshal] calls it:
    the escaped text of [src] between the quotes.  One step of the recursion
    is one iteration of the loop over [src]. *)
Fixpoint escape (fuel : nat) (src : string) : string :=
  match fuel with
  | O => ""
  | S fuel' =>
      match src with
      | EmptyString => ""
      | String c t =>
          if ord c <? utf8.RuneSelf then
            if htmlSafeSet (ord c) then String c (escape fuel' t)
            else escapeByte c +:+ escape fuel' t
          else
            let '(r, size) := utf8.DecodeRune src in
            if (r =? utf8.RuneError) && (size =? 1)%nat then
              String bs "ufffd" +:+ escape fuel' (slice_from size src)
            else if (r =? 0x2028) || (r =? 0x2029) then
              String bs "u202" +:+
                String (hexAt (Z.land r 0xF)) (escape fuel' (slice_from size src))
            else
              slice_to size src +:+ escape fuel' (slice_from size src)
      end
  end.

Definition appendString (dst src : string) : string :=
  dst +:+ String dq (escape (String.length src) src +:+ String dq "").

(** The key of a field as the struct encoder writes it: the quoted name
    and a colon. *)
Definition nameEsc (name : string) : string :=
  String dq (name +:+ String dq ":").

(** [Marshal(product)]: the fields in the order of declaration.  For a
    struct of strings the error result of [Marshal] is always nil. *)
Definition encodeProduct (p : Product) : string :=
  let e := "{" in
  let e := appendString (e +:+ nameEsc "id") (ID p) in
  let e := appendString (e +:+ "," +:+ nameEsc "name") (Name p) in
  let e := appendString (e +:+ "," +:+ nameEsc "status") (Status p) in
  let e := appendString (e +:+ "," +:+ nameEsc "owner") (Owner p) in
  let e := appendString (e +:+ "," +:+ nameEsc "created_at") (CreatedAt p) in
  let e := appendString (e +:+ "," +:+ nameEsc "updated_at") (UpdatedAt p) in
  let e := appendString (e +:+ "," +:+ nameEsc "description") (Description p) in
  let e := appendString (e +:+ "," +:+ nameEsc "category") (Category p) in
  e +:+ "}".

(** *** Decoding: syntax *)

#[warnings="-register-all"]
Inductive value :=
| JNull
| JBool (b : bool)
| JNumber (lit : string)
| JString (s : string)
| JArray (elems : list value)
| JObject (members : list (string * value)).

Definition isSpace (c : ascii) : bool :=
  let b := ord c in (b =? 0x20) || (b =? 0x09) || (b =? 0x0D) || (b =? 0x0A).

Fixpoint skipSpace (s : string) : string :=
  match s with
  | String c t => if isSpace c then skipSpace t else s
  | EmptyString => s
  end.

(** [getu4(s)]: the value of the four hexadecimal digits of a [\uXXXX] at the
    head of [s], or -1. *)
Definition hexDigit (c : ascii) : Z :=
  let b := ord c in
  if (0x30 <=? b) && (b <=? 0x39) then b - 0x30
  else if (0x61 <=? b) && (b <=? 0x66) then b - 0x61 + 10
  else if (0x41 <=? b) && (b <=? 0x46) then b - 0x41 + 10
  else -1.

Definition getu4 (s : string) : Z :=
  match s with
  | String c0 (String c1 (String h0 (String h1 (String h2 (String h3 _))))) =>
      if (ord c0 =? 0x5C) && (ord c1 =? 0x75) then
        fold_left
          (fun r c => if (r <? 0) || (hexDigit c <? 0) then -1 else r * 16 + hexDigit c)
          [h0; h1; h2; h3] 0
      else -1
  | _ => -1
  end.

(** A string literal after its opening quote: the scanner's states
    [stateInString], [stateInStringEsc], [stateInStringEscU..] and
    [unquoteBytes] in one pass.  The result is the unquoted text and the
    input after the closing quote; [None] is a syntax error.  One step of
    the recursion is one iteration of the loop of [unquoteBytes]. *)
Fixpoint unquote (fuel : nat) (s : string) : option (string * string) :=
  match fuel with
  | O => None
  | S fuel' =>
      match s with
      | EmptyString => None
      | String c t =>
          if ord c =? 0x22 then Some ("", t)
          else if ord c =? 0x5C then
            match t with
            | EmptyString => None
            | String e t' =>
                let k (out : string) (rest : string) :=
                  '(u, r) ← unquote fuel' rest; Some (out +:+ u, r) in
                if (ord e =? 0x22) || (ord e =? 0x5C) || (ord e =? 0x2F) then k (String e "") t'
                else if ord e =? 0x62 then k (String BS "") t'
                else if ord e =? 0x66 then k (String FF "") t'
                else if ord e =? 0x6E then k (String LF "") t'
                else if ord e =? 0x72 then k (String CR "") t'
                else if ord e =? 0x74 then k (String HT "") t'
                else if ord e =? 0x75 then
                  let rr := getu4 s in
                  if rr <? 0 then None
                  else
                    let s6 := slice_from 6 s in
                    if utf16.IsSurrogate rr then
                      let rr1 := getu4 s6 in
                      let dec := utf16.DecodeRune rr rr1 in
                      if negb (dec =? utf16.replacementChar)
                      then k (utf8.EncodeRune dec) (slice_from 6 s6)
                      else k (utf8.EncodeRune utf16.replacementChar) s6
                    else k (utf8.EncodeRune rr) s6
                else None
            end
          else if ord c <? 0x20 then None
          else if ord c <? utf8.RuneSelf then
            '(u, r) ← unquote fuel' t; Some (String c u, r)
          else
            let '(rr, size) := utf8.DecodeRune s in
            '(u, r) ← unquote fuel' (slice_from size s);
            Some (utf8.EncodeRune rr +:+ u, r)
      end
  end.

(** A string literal whose opening quote has been read.  Every step reads
    at least one byte, so the fuel is enough ([scanString_fuel] below). *)
Definition scanString (s : string) : option (string * string) :=
  unquote (S (String.length s)) s.

(** Numbers: an optional minus sign; then a zero, or a digit from 1 to 9
    and any digits; then an optional fraction (a dot and at least one
    digit); then an optional exponent (e or E, an optional sign and at
    least one digit). *)
Definition isDigit (c : ascii) : bool := (0x30 <=? ord c) && (ord c <=? 0x39).

Fixpoint spanDigits (s : string) : string * string :=
  match s with
  | String c t =>
      if isDigit c then let '(d, r) := spanDigits t in (String c d, r) else ("", s)
  | EmptyString => ("", "")
  end.

Definition digits1 (s : string) : option (string * string) :=
  match spanDigits s with
  | (EmptyString, _) => None
  | (d, r) => Some (d, r)
  end.

Definition scanInt (s : string) : option (string * string) :=
  match s with
  | String c t =>
      if ord c =? 0x30 then Some ("0", t)
      else if isDigit c then Some (spanDigits s)
      else None
  | EmptyString => None
  end.

Definition scanFrac (s : string) : option (string * string) :=
  match s with
  | String c t =>
      if ord c =? 0x2E then '(d, r) ← digits1 t; Some (String c d, r)
      else Some ("", s)
  | EmptyString => Some ("", s)
  end.

Definition scanExp (s : string) : option (string * string) :=
  match s with
  | String c t =>
      if (ord c =? 0x65) || (ord c =? 0x45) then
        match t with
        | String sg t' =>
            if (ord sg =? 0x2B) || (ord sg =? 0x2D)
            then '(d, r) ← digits1 t'; Some (String c (String sg d), r)
            else '(d, r) ← digits1 t; Some (String c d, r)
        | EmptyString => None
        end
      else Some ("", s)
  | EmptyString => Some ("", s)
  end.

Definition scanNumber (s : string) : option (string * string) :=
  let '(sign, s1) :=
    match s with
    | String c t => if ord c =? 0x2D then ("-", t) else ("", s)
    | EmptyString => ("", s)
    end in
  '(i, s2) ← scanInt s1;
  '(f, s3) ← scanFrac s2;
  '(e, s4) ← scanExp s3;
  Some (sign +:+ i +:+ f +:+ e, s4).

Fixpoint stripPrefix (lit s : string) : option string :=
  match lit, s with
  | EmptyString, _ => Some s
  | String a lit', String b s' => if Ascii.eqb a b then stripPrefix lit' s' else None
  | String _ _, EmptyString => None
  end.

(** The scanner refuses a value nested deeper than this. *)
Definition maxNestingDepth : Z := 10000.

(** One value at the head of [s] (leading space already skipped), and the
    input after it; [depth] counts the arrays and objects that are open.
    [scanElements] reads the elements of an array after its bracket and
    [scanMembers] the members of an object after its brace, up to and
    including the closing one. *)
Fixpoint scanValue (fuel : nat) (depth : Z) (s : string) {struct fuel}
  : option (value * string) :=
  match fuel with
  | O => None
  | S fuel' =>
      match s with
      | EmptyString => None
      | String c t =>
          let b := ord c in
          if b =? 0x7B then
            if maxNestingDepth <? depth + 1 then None
            else
              match skipSpace t with
              | String c' t' =>
                  if ord c' =? 0x7D then Some (JObject [], t')
                  else '(ms, r) ← scanMembers fuel' (depth + 1) (String c' t');
                       Some (JObject ms, r)
              | EmptyString => None
              end
          else if b =? 0x5B then
            if maxNestingDepth <? depth + 1 then None
            else
              match skipSpace t with
              | String c' t' =>
                  if ord c' =? 0x5D then Some (JArray [], t')
                  else '(vs, r) ← scanElements fuel' (depth + 1) (String c' t');
                       Some (JArray vs, r)
              | EmptyString => None
              end
          else if b =? 0x22 then
            '(u, r) ← scanString t; Some (JString u, r)
          else if (b =? 0x2D) || isDigit c then
            '(n, r) ← scanNumber s; Some (JNumber n, r)
          else if b =? 0x74 then r ← stripPrefix "true" s; Some (JBool true, r)
          else if b =? 0x66 then r ← stripPrefix "false" s; Some (JBool false, r)
          else if b =? 0x6E then r ← stripPrefix "null" s; Some (JNull, r)
          else None
      end
  end
with scanElements (fuel : nat) (depth : Z) (s : string) {struct fuel}
  : option (list value * string) :=
  match fuel with
  | O => None
  | S fuel' =>
      '(v, r) ← scanValue fuel' depth s;
      match skipSpace r with
      | String c t =>
          if ord c =? 0x2C then
            '(vs, r') ← scanElements fuel' depth (skipSpace t); Some (v :: vs, r')
          else if ord c =? 0x5D then Some ([v], t)
          else None
      | EmptyString => None
      end
  end
with scanMembers (fuel : nat) (depth : Z) (s : string) {struct fuel}
  : option (list (string * value) * string) :=
  match fuel with
  | O => None
  | S fuel' =>
      match s with
      | String q t =>
          if ord q =? 0x22 then
            '(key, r) ← scanString t;
            match skipSpace r with
            | String c t1 =>
                if ord c =? 0x3A then
                  '(v, r1) ← scanValue fuel' depth (skipSpace t1);
                  match skipSpace r1 with
                  | String c2 t2 =>
                      if ord c2 =? 0x2C then
                        '(ms, r2) ← scanMembers fuel' depth (skipSpace t2);
                        Some ((key, v) :: ms, r2)
                      else if ord c2 =? 0x7D then Some ([(key, v)], t2)
                      else None
                  | EmptyString => None
                  end
                else None
            | EmptyString => None
            end
          else None
      | EmptyString => None
      end
  end.

(** [checkValid] and the scan of the whole input: one value, with space
    around it and nothing else.  Every call of the three functions above
    reads at least one byte before the next call but one, so twice the
    length of the input is enough fuel ([scan_fuel] below). *)
Definition scan (data : string) : option value :=
  '(v, r) ← scanValue (2 * String.length data + 2) 0 (skipSpace data);
  match skipSpace r with
  | EmptyString => Some v
  | String _ _ => None
  end.

(** *** Decoding: into the struct *)

(** [SyntaxError] is the error of [checkValid]; [UnmarshalTypeError] records
    the kind of the JSON value and the field it could not be stored in. *)
Inductive error :=
| SyntaxError
| UnmarshalTypeError (Value Field : string).

(** [foldRune] on a rune outside ASCII.  Only the long s and the Kelvin sign
    fold to an ASCII letter; every other rune folds to a rune outside ASCII,
    which no name of a field contains, and is kept as it is here. *)
Definition foldRune (r : Z) : Z :=
  if r =? 0x17F then 0x53
  else if r =? 0x212A then 0x4B
  else r.

Fixpoint appendFoldedName (fuel : nat) (name : string) : string :=
  match fuel with
  | O => ""
  | S fuel' =>
      match name with
      | EmptyString => ""
      | String c t =>
          if ord c <? utf8.RuneSelf then
            let c' := if (0x61 <=? ord c) && (ord c <=? 0x7A) then chr (ord c - 0x20) else c in
            String c' (appendFoldedName fuel' t)
          else
            let '(r, n) := utf8.DecodeRune name in
            utf8.EncodeRune (foldRune r) +:+ appendFoldedName fuel' (slice_from n name)
      end
  end.

Definition foldName (name : string) : string :=
  appendFoldedName (String.length name) name.

(** The fields of [Product] by the name in their tag, with the assignment to
    each. *)
Definition fields : list (string * (string -> Product -> Product)) :=
  [ ("id", set_ID); ("name", set_Name); ("status", set_Status);
    ("owner", set_Owner); ("created_at", set_CreatedAt);
    ("updated_at", set_UpdatedAt); ("description", set_Description);
    ("category", set_Category) ].

(** The field a key of the object names: the exact name first, then the name
    that is equal under case folding. *)
Definition lookupField (key : string) : option (string * (string -> Product -> Product)) :=
  match find (fun f => String.eqb (fst f) key) fields with
  | Some f => Some f
  | None => find (fun f => String.eqb (foldName (fst f)) (foldName key)) fields
  end.

Definition kindOf (v : value) : string :=
  match v with
  | JNull => "null"
  | JBool _ => "bool"
  | JNumber _ => "number"
  | JString _ => "string"
  | JArray _ => "array"
  | JObject _ => "object"
  end.

(** [saveError]: the first error is the one reported. *)
Definition saveError (saved : option error) (e : error) : option error :=
  match saved with
  | Some _ => saved
  | None => Some e
  end.

(** The decoder on the members of an object: a string is stored in the field
    its key names, [null] leaves the field as it is, any other value is a type
    error (decoding goes on), and a key that names no field is skipped. *)
Fixpoint object (ms : list (string * value)) (v : Product) (saved : option error)
  : Product * option error :=
  match ms with
  | [] => (v, saved)
  | (key, val) :: ms' =>
      match lookupField key with
      | None => object ms' v saved
      | Some (name, set) =>
          match val with
          | JString s => object ms' (set s v) saved
          | JNull => object ms' v saved
          | _ => object ms' v (saveError saved (UnmarshalTypeError (kindOf val) name))
          end
      end
  end.

(** [Unmarshal(data, &product)] with [product] the zero value. *)
Definition Unmarshal (data : string) : result error Product :=
  match scan data with
  | None => Err SyntaxError
  | Some (JObject ms) =>
      match object ms zeroProduct None with
      | (v, None) => Ok v
      | (_, Some e) => Err e
      end
  | Some JNull => Ok zeroProduct
  | Some v => Err (UnmarshalTypeError (kindOf v) "")
  end.

(** [Marshal(product)]. *)
Definition Marshal (v : Product) : result error string := Ok (encodeProduct v).

End json.

(** ** time: [time.Unix(sec, nsec).Format(time.RFC3339)] *)

Module time.

Definition secondsPerDay : Z := 86400.
Definition unixToInternal : Z := 62135596800.
Definition internalToAbsolute : Z := 9223371966579724800.
Definition absoluteZeroYear : Z := -292277022399.
Definition daysPer400Years : Z := 365 * 400 + 97.
Definition daysPer100Years : Z := 365 * 100 + 24.
Definition daysPer4Years : Z := 365 * 4 + 1.

(** A [Time] is kept as its Unix seconds (an int64) and nanoseconds. *)
Record Time := mkTime { unixSec : Z; nsec : Z }.

(** [Unix(sec, nsec)]: [nsec] outside [0, 1e9) is carried into [sec]. *)
Definition Unix (sec nsec : Z) : Time :=
  if (nsec <? 0) || (1000000000 <=? nsec) then
    let n := Z.quot nsec 1000000000 in
    let sec := int64 (sec + n) in
    let nsec := nsec - n * 1000000000 in
    if nsec <? 0 then mkTime (int64 (sec - 1)) (nsec + 1000000000)
    else mkTime sec nsec
  else mkTime sec nsec.

(** [t.abs()] in a zone [offset] seconds east of UTC: seconds since the
    absolute zero year, as a uint64. *)
Definition abs (t : Time) (offset : Z) : Z :=
  uint64 (unixSec t + offset + (unixToInternal + internalToAbsolute)).

Definition isLeap (year : Z) : bool :=
  (Z.rem year 4 =? 0) && (negb (Z.rem year 100 =? 0) || (Z.rem year 400 =? 0)).

Definition daysBefore (m : Z) : Z :=
  nth (Z.to_nat m) [0; 31; 59; 90; 120; 151; 181; 212; 243; 273; 304; 334; 365] 0.

(** [absDate(abs, true)]: year, month and day of the month. *)
Definition absDate (a : Z) : Z * Z * Z :=
  let d := a / secondsPerDay in
  let n := d / daysPer400Years in
  let y := 400 * n in
  let d := d - daysPer400Years * n in
  let n := d / daysPer100Years in
  let n := n - Z.shiftr n 2 in
  let y := y + 100 * n in
  let d := d - daysPer100Years * n in
  let n := d / daysPer4Years in
  let y := y + 4 * n in
  let d := d - daysPer4Years * n in
  let n := d / 365 in
  let n := n - Z.shiftr n 2 in
  let y := y + n in
  let d := d - 365 * n in
  let year := int64 (y + absoluteZeroYear) in
  let day := d in
  if isLeap year && (day =? 31 + 29 - 1) then (year, 2, 29)
  else
    let day := if isLeap year && (31 + 29 - 1 <? day) then day - 1 else day in
    let month := day / 31 in
    let e := daysBefore (month + 1) in
    if e <=? day then (year, month + 2, day - e + 1)
    else (year, month + 1, day - daysBefore month + 1).

(** [absClock(abs)]: hour, minute and second of the day. *)
Definition absClock (a : Z) : Z * Z * Z :=
  let sec := a mod secondsPerDay in
  let hour := sec / 3600 in
  let sec := sec - hour * 3600 in
  let min := sec / 60 in
  (hour, min, sec - min * 60).

(** The decimal digits of [u], most significant first. *)
Fixpoint decimal_loop (fuel : nat) (u : Z) (acc : string) : string :=
  match fuel with
  | O => acc
  | S fuel' =>
      let acc' := String (chr (0x30 + u mod 10)) acc in
      if u / 10 =? 0 then acc' else decimal_loop fuel' (u / 10) acc'
  end.

Definition decimal (u : Z) : string := decimal_loop 20 u "".

Fixpoint zeros (n : nat) : string :=
  match n with
  | O => ""
  | S n' => String "0" (zeros n')
  end.

(** [appendInt(b, x, width)]: a minus sign for a negative [x], then its
    magnitude padded with zeros to [width] digits. *)
Definition appendInt (b : string) (x : Z) (width : Z) : string :=
  let u := uint64 (Z.abs x) in
  let b := if x <? 0 then b +:+ "-" else b in
  let ds := decimal u in
  b +:+ zeros (Z.to_nat (width - len ds)) +:+ ds.

(** [t.appendFormatRFC3339(b, false)], which [Format(RFC3339)] calls, for a
    time in the zone [offset]. *)
Definition appendFormatRFC3339 (t : Time) (offset : Z) (b : string) : string :=
  let a := abs t offset in
  let '(year, month, day) := absDate a in
  let b := appendInt b year 4 in
  let b := b +:+ "-" in
  let b := appendInt b month 2 in
  let b := b +:+ "-" in
  let b := appendInt b day 2 in
  let b := b +:+ "T" in
  let '(hour, min, sec) := absClock a in
  let b := appendInt b hour 2 in
  let b := b +:+ ":" in
  let b := appendInt b min 2 in
  let b := b +:+ ":" in
  let b := appendInt b sec 2 in
  if offset =? 0 then b +:+ "Z"
  else
    let zone := Z.quot offset 60 in
    let '(b, zone) := if zone <? 0 then (b +:+ "-", - zone) else (b +:+ "+", zone) in
    let b := appendInt b (Z.quot zone 60) 2 in
    let b := b +:+ ":" in
    appendInt b (Z.rem zone 60) 2.

(** [t.Format(time.RFC3339)], with the zone offset that [time.Local] gives
    at [t]. *)
Definition Format_RFC3339 (local : Z -> Z) (t : Time) : string :=
  appendFormatRFC3339 t (local (unixSec t)) "".

End time.

(** ** The ledger stub *)

(** Errors of the contract: an error made by [fmt.Errorf] (its text), an error
    of the stub handed on as it is, and an error of [encoding/json] handed on
    as it is. *)
Inductive error :=
| Errorf (msg : string)
| StubError (msg : string)
| JSONError (e : json.error).

(** Modelled from the spec: the transaction context and its stub
    ([contractapi.TransactionContextInterface], [shim.ChaincodeStubInterface])
    are the external state store of section 6: a point read, a write, a range
    scan in key order and the timestamp of the transaction, each of which can
    fail.  The context of one invocation fixes the timestamp, which calls
    fail (and with what error), and the zone of the process. *)
Record TransactionContext := mkContext {
  txTimestamp : result string (Z * Z);
  getStateErr : string -> option string;
  putStateErr : string -> string -> option string;
  rangeErr : option string;
  nextErr : nat -> option string;
  localOffset : Z -> Z;
}.

(** The world state: the value of each key, and the writes made so far, in
    order. *)
Record WorldState := mkWorld {
  state : gmap string string;
  writes : list (string * string);
}.

(** A computation of the contract: it reads and writes the world state and
    ends in a value or an error. *)
Definition Tx (A : Type) : Type := WorldState -> result error A * WorldState.

Definition ret {A} (a : A) : Tx A := fun w => (Ok a, w).
Definition fail {A} (e : error) : Tx A := fun w => (Err e, w).
Definition bind {A B} (m : Tx A) (k : A -> Tx B) : Tx B :=
  fun w =>
    match m w with
    | (Ok a, w') => k a w'
    | (Err e, w') => (Err e, w')
    end.

Notation "x <- m ;; k" := (bind m (fun x => k))
  (at level 100, m at next level, right associativity).

(** A call of the stub: it ends in a value or in an error of the stub, of
    which the contract only uses the text. *)
Definition Stub (A : Type) : Type := WorldState -> result string A * WorldState.

(** [if err != nil { return err }] after a call of the stub. *)
Definition orReturn {A} (m : Stub A) : Tx A :=
  fun w =>
    match m w with
    | (Ok a, w') => (Ok a, w')
    | (Err e, w') => (Err (StubError e), w')
    end.

(** [if err != nil { return fmt.Errorf(format, err) }] after a call of the
    stub, for a [format] that ends in [%v]: [prefix] is what precedes it. *)
Definition orErrorf {A} (prefix : string) (m : Stub A) : Tx A :=
  fun w =>
    match m w with
    | (Ok a, w') => (Ok a, w')
    | (Err e, w') => (Err (Errorf (prefix +:+ e)), w')
    end.

Definition liftJSON {A} (r : result json.error A) : Tx A :=
  match r with
  | Ok a => ret a
  | Err e => fail (JSONError e)
  end.

(** [GetState(key)]: the value of the key, or nil when the key has no value
    (the stub gives the same nil slice for an absent key and for an empty
    value). *)
Definition GetState (ctx : TransactionContext) (key : string) : Stub (option string) :=
  fun w =>
    match getStateErr ctx key with
    | Some e => (Err e, w)
    | None =>
        (Ok match state w !! key with
            | Some EmptyString => None
            | Some v => Some v
            | None => None
            end, w)
    end.

(** [PutState(key, value)]: the key gets the value; writing an empty value
    leaves the key without one. *)
Definition PutState (ctx : TransactionContext) (key value : string) : Stub unit :=
  fun w =>
    match putStateErr ctx key value with
    | Some e => (Err e, w)
    | None =>
        (Ok tt,
         mkWorld (match value with
                  | EmptyString => delete key (state w)
                  | _ => <[key := value]> (state w)
                  end)
                 (writes w ++ [(key, value)]))
    end.

(** [GetStateByRange(startKey, endKey)]: the keys from [startKey] up to, not
    including, [endKey], in ascending order of their bytes, with their values;
    an empty bound is no bound. *)
Definition inRange (startKey endKey : string) (kv : string * string) : bool :=
  (String.eqb startKey "" || String.leb startKey (fst kv))
  && (String.eqb endKey "" || String.ltb (fst kv) endKey)
  && negb (String.eqb (snd kv) "").

Definition keyLe (a b : string * string) : Prop := String.le (fst a) (fst b).

Definition GetStateByRange (ctx : TransactionContext) (startKey endKey : string)
  : Stub (list (string * string)) :=
  fun w =>
    match rangeErr ctx with
    | Some e => (Err e, w)
    | None =>
        (Ok (merge_sort keyLe (filter (fun kv => inRange startKey endKey kv = true)
                                      (map_to_list (state w)))), w)
    end.

(** [GetTxTimestamp()]. *)
Definition GetTxTimestamp (ctx : TransactionContext) : Stub (Z * Z) :=
  fun w => (txTimestamp ctx, w).

(** ** The contract *)

Definition getTimestamp (ctx : TransactionContext) : Tx string :=
  txTimestamp <- orErrorf "failed to get transaction timestamp: " (GetTxTimestamp ctx);;
  ret (time.Format_RFC3339 (localOffset ctx) (time.Unix (fst txTimestamp) (snd txTimestamp))).

(** The body of the loop of [InitLedger] over [assets]. *)
Fixpoint putAssets (ctx : TransactionContext) (assets : list Product) : Tx unit :=
  match assets with
  | [] => ret tt
  | asset :: rest =>
      assetJSON <- liftJSON (json.Marshal asset);;
      _ <- orErrorf "failed to put to world state. " (PutState ctx (ID asset) assetJSON);;
      putAssets ctx rest
  end.

Definition initialAssets (curTime : string) : list Product :=
  [ mkProduct "p1" "Laptop" "Manufactured" "CompanyA" curTime curTime
      "High-end gaming laptop" "Electronics";
    mkProduct "p2" "Smartphone" "Manufactured" "CompanyB" curTime curTime
      "Latest model smartphone" "Electronics" ].

Definition InitLedger (ctx : TransactionContext) : Tx unit :=
  curTime <- getTimestamp ctx;;
  putAssets ctx (initialAssets curTime).

Definition ProductExists (ctx : TransactionContext) (id : string) : Tx bool :=
  productJSON <- orErrorf "failed to read from world state: " (GetState ctx id);;
  ret (match productJSON with Some _ => true | None => false end).

Definition QueryProduct (ctx : TransactionContext) (id : string) : Tx Product :=
  productJSON <- orErrorf "failed to read from world state: " (GetState ctx id);;
  match productJSON with
  | None => fail (Errorf ("product with ID " +:+ id +:+ " does not exist"))
  | Some productJSON => liftJSON (json.Unmarshal productJSON)
  end.

Definition CreateProduct (ctx : TransactionContext)
    (id name owner description category : string) : Tx unit :=
  curTime <- getTimestamp ctx;;
  exists_ <- ProductExists ctx id;;
  if exists_ : bool then fail (Errorf ("product with ID " +:+ id +:+ " already exists"))
  else
    let product := mkProduct id name "Manufactured" owner curTime curTime description category in
    assetJSON <- liftJSON (json.Marshal product);;
    orReturn (PutState ctx id assetJSON).

Definition UpdateProduct (ctx : TransactionContext)
    (id newStatus newOwner newDescription newCategory : string) : Tx unit :=
  curTime <- getTimestamp ctx;;
  asset <- QueryProduct ctx id;;
  let asset := if String.eqb newStatus "" then asset else set_Status newStatus asset in
  let asset := if String.eqb newOwner "" then asset else set_Owner newOwner asset in
  let asset := if String.eqb newDescription "" then asset else set_Description newDescription asset in
  let asset := if String.eqb newCategory "" then asset else set_Category newCategory asset in
  let asset := set_UpdatedAt curTime asset in
  assetJSON <- liftJSON (json.Marshal asset);;
  orReturn (PutState ctx id assetJSON).

Definition TransferOwnership (ctx : TransactionContext) (id newOwner : string) : Tx unit :=
  curTime <- getTimestamp ctx;;
  asset <- QueryProduct ctx id;;
  let asset := set_Owner newOwner asset in
  let asset := set_UpdatedAt curTime asset in
  assetJSON <- liftJSON (json.Marshal asset);;
  orReturn (PutState ctx id assetJSON).

Definition putProduct (ctx : TransactionContext) (product : Product) : Tx unit :=
  productJSON <- liftJSON (json.Marshal product);;
  orReturn (PutState ctx (ID product) productJSON).

(** The loop of [GetAllProducts] over the iterator: [i] counts the calls of
    [Next], [products] is the slice built so far. *)
Fixpoint collect (ctx : TransactionContext) (i : nat) (results : list (string * string))
    (products : list Product) : result error (list Product) :=
  match results with
  | [] => Ok products
  | queryResponse :: rest =>
      match nextErr ctx i with
      | Some e => Err (StubError e)
      | None =>
          match json.Unmarshal (snd queryResponse) with
          | Err e => Err (JSONError e)
          | Ok product => collect ctx (S i) rest (products ++ [product])
          end
      end
  end.

Definition GetAllProducts (ctx : TransactionContext) : Tx (list Product) :=
  resultsIterator <- orReturn (GetStateByRange ctx "" "");;
  match collect ctx 0 resultsIterator [] with
  | Ok products => ret products
  | Err e => fail e
  end.

(** The spec's names for the errors of the contract. *)
Definition ClockError (cause : string) : error :=
  Errorf ("failed to get transaction timestamp: " +:+ cause).
Definition StoreReadError (cause : string) : error :=
  Errorf ("failed to read from world state: " +:+ cause).
Definition NotFoundError (id : string) : error :=
  Errorf ("product with ID " +:+ id +:+ " does not exist").
Definition AlreadyExistsError (id : string) : error :=
  Errorf ("product with ID " +:+ id +:+ " already exists").

(** * Properties *)

(** ** Proof automation *)

(** [lia] with division and remainder by constants. *)
Ltac dlia := Z.div_mod_to_equations; lia.

(** Boolean tests to propositions. *)
Ltac b2p :=
  repeat match goal with
  | H : (_ || _) = true |- _ => apply orb_true_iff in H
  | H : (_ || _) = false |- _ => apply orb_false_iff in H; destruct H
  | H : (_ && _) = true |- _ => apply andb_true_iff in H; destruct H
  | H : (_ && _) = false |- _ => apply andb_false_iff in H
  | H : negb _ = true |- _ => apply negb_true_iff in H
  | H : negb _ = false |- _ => apply negb_false_iff in H
  | H : (_ <? _) = true |- _ => apply Z.ltb_lt in H
  | H : (_ <? _) = false |- _ => apply Z.ltb_ge in H
  | H : (_ <=? _) = true |- _ => apply Z.leb_le in H
  | H : (_ <=? _) = false |- _ => apply Z.leb_gt in H
  | H : (_ =? _) = true |- _ => apply Z.eqb_eq in H
  | H : (_ =? _) = false |- _ => apply Z.eqb_neq in H
  end.

(** Case analysis on the tests of a hypothesis, closing the branches that
    contradict it. *)
Ltac split_ifs H :=
  repeat match type of H with
  | context [if ?b then _ else _] =>
      let E := fresh "E" in destruct b eqn:E; b2p; try (inversion H; lia)
  end.

(** ** Bytes and bit arithmetic *)

Lemma ord_range c : 0 <= ord c < 256.
Proof.
  unfold ord. pose proof (N_ascii_bounded c). lia.
Qed.

Lemma chr_ord c : chr (ord c) = c.
Proof.
  unfold chr. rewrite Z.mod_small by apply ord_range.
  unfold ord. rewrite N2Z.id. apply ascii_N_embedding.
Qed.

Lemma ord_chr z : 0 <= z < 256 -> ord (chr z) = z.
Proof.
  intros Hz. unfold ord, chr. rewrite Z.mod_small by lia.
  rewrite N_ascii_embedding by lia. lia.
Qed.

Lemma ord_chr_mod z : ord (chr z) = z mod 256.
Proof.
  unfold ord, chr.
  rewrite N_ascii_embedding. 2:{ pose proof (Z.mod_pos_bound z 256). lia. }
  pose proof (Z.mod_pos_bound z 256). lia.
Qed.

Lemma ord_inj c d : ord c = ord d -> c = d.
Proof. intros H. rewrite <- (chr_ord c), <- (chr_ord d). by rewrite H. Qed.

Lemma lor_disjoint c l k :
  0 <= k -> c mod 2 ^ k = 0 -> 0 <= l < 2 ^ k -> Z.lor c l = c + l.
Proof.
  intros Hk Hc Hl.
  rewrite <- Z.lxor_lor, Z.add_nocarry_lxor; try reflexivity.
  all: apply Z.bits_inj'; intros n Hn; rewrite Z.land_spec, Z.bits_0.
  all: destruct (Z.lt_ge_cases n k) as [Hlt|Hge].
  all: try (rewrite <- (Z.mod_pow2_bits_low c k n) by lia; rewrite Hc, Z.bits_0; reflexivity).
  all: rewrite <- (Z.mod_small l (2 ^ k)) by lia; rewrite (Z.mod_pow2_bits_high l k n) by lia; apply andb_false_r.
Qed.

Lemma land_mask x k : 0 <= k -> Z.land x (2 ^ k - 1) = x mod 2 ^ k.
Proof.
  intros. replace (2 ^ k - 1) with (Z.ones k) by (rewrite Z.ones_equiv; lia).
  by apply Z.land_ones.
Qed.

(** Masks and shifts as remainders, products and quotients; a disjunction of
    disjoint bit fields as a sum. *)
Ltac bits :=
  unfold utf8.maskx, utf8.mask2, utf8.mask3, utf8.mask4, utf8.t2, utf8.t3, utf8.t4, utf8.tx in *;
  change 0x3F with (2 ^ 6 - 1) in *; change 0x1F with (2 ^ 5 - 1) in *;
  change 0x0F with (2 ^ 4 - 1) in *; change 0x07 with (2 ^ 3 - 1) in *;
  rewrite ?land_mask, ?Z.shiftl_mul_pow2, ?Z.shiftr_div_pow2 in * by (cbv; congruence);
  change (2 ^ 3) with 8 in *; change (2 ^ 4) with 16 in *; change (2 ^ 5) with 32 in *;
  change (2 ^ 6) with 64 in *; change (2 ^ 12) with 4096 in *; change (2 ^ 18) with 262144 in *.

Ltac lor_to_add :=
  repeat match goal with
  | |- context [Z.lor 192 ?l] => rewrite (lor_disjoint 192 l 5) by (cbn; dlia)
  | |- context [Z.lor 224 ?l] => rewrite (lor_disjoint 224 l 4) by (cbn; dlia)
  | |- context [Z.lor 240 ?l] => rewrite (lor_disjoint 240 l 3) by (cbn; dlia)
  | |- context [Z.lor 128 ?l] => rewrite (lor_disjoint 128 l 6) by (cbn; dlia)
  | |- context [Z.lor (?a * 64) ?l] => rewrite (lor_disjoint (a * 64) l 6) by (cbn; dlia)
  | |- context [Z.lor (?a * 4096 + ?b) ?l] => rewrite (lor_disjoint (a * 4096 + b) l 6) by (cbn; dlia)
  | |- context [Z.lor (?a * 4096) ?l] => rewrite (lor_disjoint (a * 4096) l 12) by (cbn; dlia)
  | |- context [Z.lor (?a * 262144 + ?b + ?c) ?l] => rewrite (lor_disjoint (a * 262144 + b + c) l 6) by (cbn; dlia)
  | |- context [Z.lor (?a * 262144 + ?b) ?l] => rewrite (lor_disjoint (a * 262144 + b) l 12) by (cbn; dlia)
  | |- context [Z.lor (?a * 262144) ?l] => rewrite (lor_disjoint (a * 262144) l 18) by (cbn; dlia)
  end.

(** ** UTF-8: decoding and encoding are inverse on valid sequences *)

Section utf8_facts.
Import utf8.

Definition decodeBytes (n p0 b1 b2 b3 : Z) : Z * nat :=
  if n <? 1 then (RuneError, 0%nat)
  else
    let x := first p0 in
    if as_ <=? x then
      let mask := Z.shiftr (int32 (Z.shiftl x 31)) 31 in
      (Z.lor (Z.ldiff p0 mask) (Z.land RuneError mask), 1%nat)
    else
      let sz := Z.land x 7 in
      let accept := acceptRanges (Z.shiftr x 4) in
      if n <? sz then (RuneError, 1%nat)
      else
        if (b1 <? fst accept) || (snd accept <? b1) then (RuneError, 1%nat)
        else if sz <=? 2 then
          (Z.lor (Z.shiftl (Z.land p0 mask2) 6) (Z.land b1 maskx), 2%nat)
        else
          if (b2 <? locb) || (hicb <? b2) then (RuneError, 1%nat)
          else if sz <=? 3 then
            (Z.lor (Z.lor (Z.shiftl (Z.land p0 mask3) 12)
                          (Z.shiftl (Z.land b1 maskx) 6))
                   (Z.land b2 maskx), 3%nat)
          else
            if (b3 <? locb) || (hicb <? b3) then (RuneError, 1%nat)
            else
              (Z.lor (Z.lor (Z.lor (Z.shiftl (Z.land p0 mask4) 18)
                                   (Z.shiftl (Z.land b1 maskx) 12))
                            (Z.shiftl (Z.land b2 maskx) 6))
                     (Z.land b3 maskx), 4%nat).

Lemma DecodeRune_bytes p :
  DecodeRune p = decodeBytes (len p) (byteAt p 0) (byteAt p 1) (byteAt p 2) (byteAt p 3).
Proof. reflexivity. Qed.

(** The three shapes of a multi-byte sequence: the rune and its bytes. *)
Definition seq2 (r p0 b1 : Z) : Prop :=
  0x80 <= r <= 0x7FF /\ Z.lor t2 (Z.shiftr r 6) = p0 /\ Z.lor tx (Z.land r maskx) = b1.
Definition seq3 (r p0 b1 b2 : Z) : Prop :=
  0x800 <= r <= 0xFFFF /\ ~ (0xD800 <= r <= 0xDFFF) /\
  Z.lor t3 (Z.shiftr r 12) = p0 /\ Z.lor tx (Z.land (Z.shiftr r 6) maskx) = b1 /\
  Z.lor tx (Z.land r maskx) = b2.
Definition seq4 (r p0 b1 b2 b3 : Z) : Prop :=
  0x10000 <= r <= 0x10FFFF /\
  Z.lor t4 (Z.shiftr r 18) = p0 /\ Z.lor tx (Z.land (Z.shiftr r 12) maskx) = b1 /\
  Z.lor tx (Z.land (Z.shiftr r 6) maskx) = b2 /\ Z.lor tx (Z.land r maskx) = b3.

Lemma first_cases p0 :
  0 <= p0 < 256 ->
  (first p0 = as_ /\ p0 < 0x80) \/
  (first p0 = xx /\ (0x80 <= p0 < 0xC2 \/ 0xF5 <= p0)) \/
  (first p0 = s1 /\ 0xC2 <= p0 < 0xE0) \/
  (first p0 = s2 /\ p0 = 0xE0) \/
  (first p0 = s3 /\ (0xE1 <= p0 < 0xED \/ 0xEE <= p0 < 0xF0)) \/
  (first p0 = s4 /\ p0 = 0xED) \/
  (first p0 = s5 /\ p0 = 0xF0) \/
  (first p0 = s6 /\ 0xF1 <= p0 < 0xF4) \/
  (first p0 = s7 /\ p0 = 0xF4).
Proof.
  intros H. unfold first.
  repeat match goal with
  | |- context [if ?b then _ else _] => let E := fresh "E" in destruct b eqn:E; b2p
  end; lia.
Qed.

(** What [DecodeRune] computes for each entry of the table [first]. *)
Definition decode2 (n p0 b1 lo hi : Z) : Z * nat :=
  if n <? 1 then (RuneError, 0%nat)
  else if n <? 2 then (RuneError, 1%nat)
  else if (b1 <? lo) || (hi <? b1) then (RuneError, 1%nat)
  else (Z.lor (Z.shiftl (Z.land p0 mask2) 6) (Z.land b1 maskx), 2%nat).

Definition decode3 (n p0 b1 b2 lo hi : Z) : Z * nat :=
  if n <? 1 then (RuneError, 0%nat)
  else if n <? 3 then (RuneError, 1%nat)
  else if (b1 <? lo) || (hi <? b1) then (RuneError, 1%nat)
  else if (b2 <? 0x80) || (0xBF <? b2) then (RuneError, 1%nat)
  else (Z.lor (Z.lor (Z.shiftl (Z.land p0 mask3) 12) (Z.shiftl (Z.land b1 maskx) 6))
              (Z.land b2 maskx), 3%nat).

Definition decode4 (n p0 b1 b2 b3 lo hi : Z) : Z * nat :=
  if n <? 1 then (RuneError, 0%nat)
  else if n <? 4 then (RuneError, 1%nat)
  else if (b1 <? lo) || (hi <? b1) then (RuneError, 1%nat)
  else if (b2 <? 0x80) || (0xBF <? b2) then (RuneError, 1%nat)
  else if (b3 <? 0x80) || (0xBF <? b3) then (RuneError, 1%nat)
  else (Z.lor (Z.lor (Z.lor (Z.shiftl (Z.land p0 mask4) 18) (Z.shiftl (Z.land b1 maskx) 12))
                     (Z.shiftl (Z.land b2 maskx) 6))
              (Z.land b3 maskx), 4%nat).

Lemma decodeBytes_cases n p0 b1 b2 b3 :
  0 <= p0 < 256 ->
  (p0 < 0x80 /\ decodeBytes n p0 b1 b2 b3 = if n <? 1 then (RuneError, 0%nat) else (p0, 1%nat)) \/
  ((0x80 <= p0 < 0xC2 \/ 0xF5 <= p0) /\
     decodeBytes n p0 b1 b2 b3 = if n <? 1 then (RuneError, 0%nat) else (RuneError, 1%nat)) \/
  (0xC2 <= p0 < 0xE0 /\ decodeBytes n p0 b1 b2 b3 = decode2 n p0 b1 0x80 0xBF) \/
  (p0 = 0xE0 /\ decodeBytes n p0 b1 b2 b3 = decode3 n p0 b1 b2 0xA0 0xBF) \/
  ((0xE1 <= p0 < 0xED \/ 0xEE <= p0 < 0xF0) /\
     decodeBytes n p0 b1 b2 b3 = decode3 n p0 b1 b2 0x80 0xBF) \/
  (p0 = 0xED /\ decodeBytes n p0 b1 b2 b3 = decode3 n p0 b1 b2 0x80 0x9F) \/
  (p0 = 0xF0 /\ decodeBytes n p0 b1 b2 b3 = decode4 n p0 b1 b2 b3 0x90 0xBF) \/
  (0xF1 <= p0 < 0xF4 /\ decodeBytes n p0 b1 b2 b3 = decode4 n p0 b1 b2 b3 0x80 0xBF) \/
  (p0 = 0xF4 /\ decodeBytes n p0 b1 b2 b3 = decode4 n p0 b1 b2 b3 0x80 0x8F).
Proof.
  intros H. unfold decodeBytes.
  destruct (first_cases p0 H) as [[-> ?]|[[-> ?]|[[-> ?]|[[-> ?]|[[-> ?]|[[-> ?]|[[-> ?]|[[-> ?]|[-> ?]]]]]]]]].
  - left. split; [done|]. change (as_ <=? as_) with true. cbv iota.
    change (Z.shiftr (int32 (Z.shiftl as_ 31)) 31) with 0.
    cbv zeta. by rewrite Z.ldiff_0_r, Z.land_0_r, Z.lor_0_r.
  - right; left. split; [done|]. change (as_ <=? xx) with true. cbv iota.
    change (Z.shiftr (int32 (Z.shiftl xx 31)) 31) with (-1).
    cbv zeta. rewrite Z.land_m1_r.
    replace (Z.ldiff p0 (-1)) with 0; [done|].
    symmetry. apply Z.bits_inj'. intros k Hk. rewrite Z.ldiff_spec, Z.bits_m1, Z.bits_0 by done. apply andb_false_r.
  - do 2 right; left. split; [done|]. unfold decode2. by destruct (n <? 1).
  - do 3 right; left. split; [done|]. unfold decode3. by destruct (n <? 1).
  - do 4 right; left. split; [done|]. unfold decode3. by destruct (n <? 1).
  - do 5 right; left. split; [done|]. unfold decode3. by destruct (n <? 1).
  - do 6 right; left. split; [done|]. unfold decode4. by destruct (n <? 1).
  - do 7 right; left. split; [done|]. unfold decode4. by destruct (n <? 1).
  - do 8 right. split; [done|]. unfold decode4. by destruct (n <? 1).
Qed.

Lemma decodeBytes_multi n p0 b1 b2 b3 r k :
  0 <= p0 < 256 -> 0 <= b1 < 256 -> 0 <= b2 < 256 -> 0 <= b3 < 256 ->
  decodeBytes n p0 b1 b2 b3 = (r, k) -> (2 <= k)%nat ->
  Z.of_nat k <= n /\
  ((k = 2%nat /\ seq2 r p0 b1) \/ (k = 3%nat /\ seq3 r p0 b1 b2) \/
   (k = 4%nat /\ seq4 r p0 b1 b2 b3)).
Proof.
  intros H0 H1 H2 H3 Hd Hk.
  destruct (decodeBytes_cases n p0 b1 b2 b3 H0)
    as [[? E]|[[? E]|[[? E]|[[? E]|[[? E]|[[? E]|[[? E]|[[? E]|[? E]]]]]]]]];
    rewrite E in Hd; clear E; unfold decode2, decode3, decode4 in Hd; split_ifs Hd.
  all: inversion Hd; subst r k; clear Hd; split; [lia|].
  all: first [ left; split; [reflexivity|] | right; left; split; [reflexivity|] | right; right; split; [reflexivity|] ].
  all: unfold seq2, seq3, seq4; bits; lor_to_add.
  all: dlia.
Qed.

Lemma decodeBytes_seq2 n r p0 b1 b2 b3 :
  seq2 r p0 b1 -> 2 <= n -> decodeBytes n p0 b1 b2 b3 = (r, 2%nat).
Proof.
  intros (Hr & Hp & Hb) Hn. revert Hp Hb. bits. lor_to_add. intros Hp Hb.
  assert (H0 : 0 <= p0 < 256) by dlia.
  destruct (decodeBytes_cases n p0 b1 b2 b3 H0)
    as [[? E]|[[? E]|[[? E]|[[? E]|[[? E]|[[? E]|[[? E]|[[? E]|[? E]]]]]]]]];
    try (exfalso; dlia).
  rewrite E. unfold decode2.
  destruct (Z.ltb_spec n 1); [lia|]. destruct (Z.ltb_spec n 2); [lia|].
  destruct (Z.ltb_spec b1 128); [exfalso; dlia|].
  destruct (Z.ltb_spec 191 b1); [exfalso; dlia|].
  cbn [orb]. f_equal. bits. lor_to_add. dlia.
Qed.

Lemma decodeBytes_seq3 n r p0 b1 b2 b3 :
  seq3 r p0 b1 b2 -> 3 <= n -> decodeBytes n p0 b1 b2 b3 = (r, 3%nat).
Proof.
  intros (Hr & Hs & Hp & Hb & Hc) Hn. revert Hp Hb Hc. bits. lor_to_add. intros Hp Hb Hc.
  assert (H0 : 0 <= p0 < 256) by dlia.
  destruct (decodeBytes_cases n p0 b1 b2 b3 H0)
    as [[? E]|[[? E]|[[? E]|[[? E]|[[? E]|[[? E]|[[? E]|[[? E]|[? E]]]]]]]]];
    try (exfalso; dlia).
  all: rewrite E; unfold decode3.
  all: destruct (Z.ltb_spec n 1); [lia|]; destruct (Z.ltb_spec n 3); [lia|].
  all: repeat match goal with |- context [(?b <? ?lo) || (?hi <? ?b)] =>
         destruct (Z.ltb_spec b lo); [exfalso; dlia|];
         destruct (Z.ltb_spec hi b); [exfalso; dlia|]; cbn [orb] end.
  all: cbn [orb]; f_equal; bits; lor_to_add; dlia.
Qed.

Lemma decodeBytes_seq4 n r p0 b1 b2 b3 :
  seq4 r p0 b1 b2 b3 -> 4 <= n -> decodeBytes n p0 b1 b2 b3 = (r, 4%nat).
Proof.
  intros (Hr & Hp & Hb & Hc & Hd) Hn. revert Hp Hb Hc Hd. bits. lor_to_add. intros Hp Hb Hc Hd.
  assert (H0 : 0 <= p0 < 256) by dlia.
  destruct (decodeBytes_cases n p0 b1 b2 b3 H0)
    as [[? E]|[[? E]|[[? E]|[[? E]|[[? E]|[[? E]|[[? E]|[[? E]|[? E]]]]]]]]];
    try (exfalso; dlia).
  all: rewrite E; unfold decode4.
  all: destruct (Z.ltb_spec n 1); [lia|]; destruct (Z.ltb_spec n 4); [lia|].
  all: repeat match goal with |- context [(?b <? ?lo) || (?hi <? ?b)] =>
         destruct (Z.ltb_spec b lo); [exfalso; dlia|];
         destruct (Z.ltb_spec hi b); [exfalso; dlia|]; cbn [orb] end.
  all: cbn [orb]; f_equal; bits; lor_to_add; dlia.
Qed.

End utf8_facts.

(** ** Strings *)

Lemma app_String c s t : String c s +:+ t = String c (s +:+ t).
Proof. reflexivity. Qed.

Lemma app_empty_l s : "" +:+ s = s.
Proof. reflexivity. Qed.

Lemma app_empty_r s : s +:+ "" = s.
Proof. induction s as [|c s IH]; [done|]. by rewrite app_String, IH. Qed.

Lemma app_assoc_s a b c : (a +:+ b) +:+ c = a +:+ (b +:+ c).
Proof. induction a as [|x a IH]; [done|]. by rewrite !app_String, IH. Qed.

Lemma length_app_s a b : String.length (a +:+ b) = (String.length a + String.length b)%nat.
Proof. induction a as [|x a IH]; [done|]. rewrite app_String. cbn. by rewrite IH. Qed.

Lemma slice_from_app a b : slice_from (String.length a) (a +:+ b) = b.
Proof. induction a as [|x a IH]; [done|]. by rewrite app_String. Qed.

Lemma slice_to_from n s : slice_to n s +:+ slice_from n s = s.
Proof.
  revert s. induction n as [|n IH]; intros [|c s]; try done.
  cbn [slice_to slice_from]. by rewrite app_String, IH.
Qed.

Lemma length_slice_from n s :
  String.length (slice_from n s) = (String.length s - n)%nat.
Proof.
  revert s. induction n as [|n IH]; intros [|c s]; cbn [slice_from String.length]; auto with lia.
Qed.

Lemma len_String c s : len (String c s) = 1 + len s.
Proof. unfold len. cbn [String.length]. lia. Qed.

Lemma len_nonneg s : 0 <= len s.
Proof. unfold len. lia. Qed.

Lemma byteAt_range s i : 0 <= byteAt s i < 256.
Proof. unfold byteAt. destruct (String.get i s); [apply ord_range|lia]. Qed.

Section utf8_strings.
Import utf8.

Definition validRune (r : Z) : Prop :=
  0 <= r <= 0x10FFFF /\ ~ (0xD800 <= r <= 0xDFFF).

Lemma DecodeRune_String c s :
  DecodeRune (String c s)
  = decodeBytes (1 + len s) (ord c) (byteAt s 0) (byteAt s 1) (byteAt s 2).
Proof. rewrite DecodeRune_bytes, len_String. reflexivity. Qed.

Lemma DecodeRune_ascii c s : ord c < 0x80 -> DecodeRune (String c s) = (ord c, 1%nat).
Proof.
  intros H. rewrite DecodeRune_String.
  destruct (decodeBytes_cases (1 + len s) (ord c) (byteAt s 0) (byteAt s 1) (byteAt s 2)
              (ord_range c))
    as [[? E]|[[? E]|[[? E]|[[? E]|[[? E]|[[? E]|[[? E]|[[? E]|[? E]]]]]]]]]; try lia.
  rewrite E. pose proof (len_nonneg s). destruct (Z.ltb_spec (1 + len s) 1); [lia|done].
Qed.

(** The first bytes of a string by their values. *)
Lemma slice_to_2 s :
  2 <= len s -> slice_to 2 s = String (chr (byteAt s 0)) (String (chr (byteAt s 1)) "").
Proof.
  destruct s as [|a [|b s]]; rewrite ?len_String; unfold len; cbn [String.length]; try lia.
  intros _. unfold byteAt. cbn. by rewrite !chr_ord.
Qed.

Lemma slice_to_3 s :
  3 <= len s ->
  slice_to 3 s
  = String (chr (byteAt s 0)) (String (chr (byteAt s 1)) (String (chr (byteAt s 2)) "")).
Proof.
  destruct s as [|a [|b [|c s]]]; rewrite ?len_String; unfold len; cbn [String.length]; try lia.
  intros _. unfold byteAt. cbn. by rewrite !chr_ord.
Qed.

Lemma slice_to_4 s :
  4 <= len s ->
  slice_to 4 s
  = String (chr (byteAt s 0)) (String (chr (byteAt s 1))
      (String (chr (byteAt s 2)) (String (chr (byteAt s 3)) ""))).
Proof.
  destruct s as [|a [|b [|c [|d s]]]]; rewrite ?len_String; unfold len; cbn [String.length]; try lia.
  intros _. unfold byteAt. cbn. by rewrite !chr_ord.
Qed.

(** The bytes that [EncodeRune] writes, by the size of the rune. *)
Lemma EncodeRune_1 r : 0 <= r <= 0x7F -> EncodeRune r = String (chr r) "".
Proof.
  intros H. unfold EncodeRune, uint32. rewrite Z.mod_small by lia.
  unfold rune1Max. destruct (Z.leb_spec r 0x7F); [done|lia].
Qed.

Lemma EncodeRune_2 r p0 b1 :
  seq2 r p0 b1 -> EncodeRune r = String (chr p0) (String (chr b1) "").
Proof.
  intros (H & <- & <-). unfold EncodeRune, uint32. rewrite Z.mod_small by lia.
  unfold rune1Max, rune2Max.
  destruct (Z.leb_spec r 0x7F); [lia|]. destruct (Z.leb_spec r 0x7FF); [done|lia].
Qed.

Lemma EncodeRune_3 r p0 b1 b2 :
  seq3 r p0 b1 b2 -> EncodeRune r = String (chr p0) (String (chr b1) (String (chr b2) "")).
Proof.
  intros (H & Hs & <- & <- & <-). unfold EncodeRune, uint32. rewrite Z.mod_small by lia.
  unfold rune1Max, rune2Max, rune3Max, MaxRune, surrogateMin, surrogateMax.
  destruct (Z.leb_spec r 0x7F); [lia|]. destruct (Z.leb_spec r 0x7FF); [lia|].
  destruct (Z.ltb_spec 0x10FFFF r); [lia|].
  destruct (Z.leb_spec 0xD800 r), (Z.leb_spec r 0xDFFF); try lia; cbn [orb andb];
    (destruct (Z.leb_spec r 0xFFFF); [done|lia]).
Qed.

Lemma EncodeRune_4 r p0 b1 b2 b3 :
  seq4 r p0 b1 b2 b3 ->
  EncodeRune r = String (chr p0) (String (chr b1) (String (chr b2) (String (chr b3) ""))).
Proof.
  intros (H & <- & <- & <- & <-). unfold EncodeRune, uint32. rewrite Z.mod_small by lia.
  unfold rune1Max, rune2Max, rune3Max, MaxRune, surrogateMin, surrogateMax.
  destruct (Z.leb_spec r 0x7F); [lia|]. destruct (Z.leb_spec r 0x7FF); [lia|].
  destruct (Z.ltb_spec 0x10FFFF r); [lia|].
  destruct (Z.leb_spec 0xD800 r), (Z.leb_spec r 0xDFFF); try lia; cbn [orb andb];
    (destruct (Z.leb_spec r 0xFFFF); [lia|done]).
Qed.

Lemma EncodeRune_invalid r :
  0 <= r < 2 ^ 31 -> ~ validRune r -> EncodeRune r = EncodeRune RuneError.
Proof.
  intros H Hv. unfold validRune in Hv. unfold EncodeRune at 1, uint32. rewrite Z.mod_small by lia.
  unfold rune1Max, rune2Max, rune3Max, MaxRune, surrogateMin, surrogateMax.
  destruct (Z.leb_spec r 0x7F); [lia|]. destruct (Z.leb_spec r 0x7FF); [lia|].
  destruct (Z.ltb_spec 0x10FFFF r); [done|].
  destruct (Z.leb_spec 0xD800 r), (Z.leb_spec r 0xDFFF); try lia; done.
Qed.

Lemma byteAt_0 c s : byteAt (String c s) 0 = ord c.
Proof. reflexivity. Qed.

Lemma byteAt_S c s i : byteAt (String c s) (S i) = byteAt s i.
Proof. reflexivity. Qed.

Lemma seq2_bytes r p0 b1 : seq2 r p0 b1 -> 0 <= p0 < 256 /\ 0 <= b1 < 256.
Proof. intros (H & Hp & Hb). revert Hp Hb. bits. lor_to_add. intros. dlia. Qed.

Lemma seq3_bytes r p0 b1 b2 :
  seq3 r p0 b1 b2 -> 0 <= p0 < 256 /\ 0 <= b1 < 256 /\ 0 <= b2 < 256.
Proof. intros (H & Hs & Hp & Hb & Hc). revert Hp Hb Hc. bits. lor_to_add. intros. dlia. Qed.

Lemma seq4_bytes r p0 b1 b2 b3 :
  seq4 r p0 b1 b2 b3 -> 0 <= p0 < 256 /\ 0 <= b1 < 256 /\ 0 <= b2 < 256 /\ 0 <= b3 < 256.
Proof.
  intros (H & Hp & Hb & Hc & Hd). revert Hp Hb Hc Hd. bits. lor_to_add. intros. dlia.
Qed.

Lemma DecodeRune_seq2 r p0 b1 X :
  seq2 r p0 b1 -> DecodeRune (String (chr p0) (String (chr b1) X)) = (r, 2%nat).
Proof.
  intros H. destruct (seq2_bytes _ _ _ H) as (? & ?).
  rewrite DecodeRune_String, len_String, byteAt_0, !ord_chr by lia.
  apply decodeBytes_seq2; [done|]. pose proof (len_nonneg X). lia.
Qed.

Lemma DecodeRune_seq3 r p0 b1 b2 X :
  seq3 r p0 b1 b2 ->
  DecodeRune (String (chr p0) (String (chr b1) (String (chr b2) X))) = (r, 3%nat).
Proof.
  intros H. destruct (seq3_bytes _ _ _ _ H) as (? & ? & ?).
  rewrite DecodeRune_String, !len_String, byteAt_0, byteAt_S, byteAt_0, !ord_chr by lia.
  apply decodeBytes_seq3; [done|]. pose proof (len_nonneg X). lia.
Qed.

Lemma DecodeRune_seq4 r p0 b1 b2 b3 X :
  seq4 r p0 b1 b2 b3 ->
  DecodeRune (String (chr p0) (String (chr b1) (String (chr b2) (String (chr b3) X))))
  = (r, 4%nat).
Proof.
  intros H. destruct (seq4_bytes _ _ _ _ _ H) as (? & ? & ? & ?).
  rewrite DecodeRune_String, !len_String, !byteAt_S, !byteAt_0, !ord_chr by lia.
  apply decodeBytes_seq4; [done|]. pose proof (len_nonneg X). lia.
Qed.

(** A sequence of two to four bytes that decodes to a rune is the encoding
    of that rune, and decodes the same before any other bytes. *)
Lemma DecodeRune_multi s r k :
  DecodeRune s = (r, k) -> (2 <= k)%nat ->
  validRune r /\ 0x80 <= r /\ EncodeRune r = slice_to k s /\
  String.length (EncodeRune r) = k /\ (k <= String.length s)%nat /\
  forall X, DecodeRune (EncodeRune r +:+ X) = (r, k).
Proof.
  intros Hd Hk. rewrite DecodeRune_bytes in Hd.
  apply decodeBytes_multi in Hd; try apply byteAt_range; [|done].
  destruct Hd as (Hn & [(-> & H)|[(-> & H)|(-> & H)]]).
  - rewrite (EncodeRune_2 _ _ _ H), slice_to_2 by done.
    repeat split; try (destruct H; unfold validRune; lia).
    + unfold len in Hn. lia.
    + intros X. by apply DecodeRune_seq2.
  - rewrite (EncodeRune_3 _ _ _ _ H), slice_to_3 by done.
    repeat split; try (destruct H as (? & ? & _); unfold validRune; lia).
    + unfold len in Hn. lia.
    + intros X. by apply DecodeRune_seq3.
  - rewrite (EncodeRune_4 _ _ _ _ _ H), slice_to_4 by done.
    repeat split; try (destruct H as (? & _); unfold validRune; lia).
    + unfold len in Hn. lia.
    + intros X. by apply DecodeRune_seq4.
Qed.

(** What [EncodeRune] writes decodes to a rune, never to the error of width
    one. *)
Lemma EncodeRune_decodes r X :
  0 <= r < 2 ^ 31 ->
  exists r' k,
    DecodeRune (EncodeRune r +:+ X) = (r', k) /\ k = String.length (EncodeRune r) /\
    (1 <= k)%nat /\ (r' =? RuneError) && (k =? 1)%nat = false.
Proof.
  intros Hr.
  assert (Hv : forall r, validRune r -> exists r' k,
    DecodeRune (EncodeRune r +:+ X) = (r', k) /\ k = String.length (EncodeRune r) /\
    (1 <= k)%nat /\ (r' =? RuneError) && (k =? 1)%nat = false).
  { clear r Hr. intros r (Hr & Hs).
    destruct (Z.le_gt_cases r 0x7F) as [H1|H1];
      [|destruct (Z.le_gt_cases r 0x7FF) as [H2|H2];
        [|destruct (Z.le_gt_cases r 0xFFFF) as [H3|H3]]].
    - exists r, 1%nat. rewrite EncodeRune_1 by lia. rewrite app_String, app_empty_l.
      rewrite DecodeRune_ascii; rewrite ord_chr by lia; try lia.
      split; [done|]. split; [done|]. split; [lia|].
      unfold RuneError. destruct (Z.eqb_spec r 0xFFFD); [lia|done].
    - assert (H : seq2 r (Z.lor t2 (Z.shiftr r 6)) (Z.lor tx (Z.land r maskx)))
        by (unfold seq2; repeat split; lia).
      exists r, 2%nat. rewrite (EncodeRune_2 _ _ _ H). rewrite !app_String, app_empty_l.
      rewrite (DecodeRune_seq2 _ _ _ _ H). split; [done|]. split; [done|]. split; [lia|apply andb_false_r].
    - assert (H : seq3 r (Z.lor t3 (Z.shiftr r 12)) (Z.lor tx (Z.land (Z.shiftr r 6) maskx))
                    (Z.lor tx (Z.land r maskx)))
        by (unfold seq3; repeat split; lia).
      exists r, 3%nat. rewrite (EncodeRune_3 _ _ _ _ H). rewrite !app_String, app_empty_l.
      rewrite (DecodeRune_seq3 _ _ _ _ _ H). split; [done|]. split; [done|]. split; [lia|apply andb_false_r].
    - assert (H : seq4 r (Z.lor t4 (Z.shiftr r 18)) (Z.lor tx (Z.land (Z.shiftr r 12) maskx))
                    (Z.lor tx (Z.land (Z.shiftr r 6) maskx)) (Z.lor tx (Z.land r maskx)))
        by (unfold seq4; repeat split; lia).
      exists r, 4%nat. rewrite (EncodeRune_4 _ _ _ _ _ H). rewrite !app_String, app_empty_l.
      rewrite (DecodeRune_seq4 _ _ _ _ _ _ H). split; [done|]. split; [done|]. split; [lia|apply andb_false_r]. }
  assert (Hdec : validRune r \/ ~ validRune r) by (unfold validRune; lia).
  destruct Hdec as [H|H]; [by apply Hv|].
  rewrite (EncodeRune_invalid r Hr H). apply Hv. unfold validRune, RuneError. lia.
Qed.

End utf8_strings.

(** ** JSON strings: what decoding the encoding of a string gives *)

Section json_strings.
Import utf8 json.

(** [Marshal] coerces a string to valid UTF-8: every byte that starts no valid
    sequence is replaced by the three bytes of U+FFFD.  [coerce s] is the
    string that [Unmarshal] gives back for [s]. *)
Fixpoint coerce_from (fuel : nat) (s : string) : string :=
  match fuel with
  | O => ""
  | S fuel' =>
      match s with
      | EmptyString => ""
      | String _ _ =>
          let '(r, size) := DecodeRune s in
          if (r =? RuneError) && (size =? 1)%nat
          then EncodeRune RuneError +:+ coerce_from fuel' (slice_from size s)
          else slice_to size s +:+ coerce_from fuel' (slice_from size s)
      end
  end.

Definition coerce (s : string) : string := coerce_from (String.length s) s.

Lemma DecodeRune_nonascii c s r k :
  0x80 <= ord c -> DecodeRune (String c s) = (r, k) ->
  (r = RuneError /\ k = 1%nat) \/ (2 <= k)%nat.
Proof.
  intros Hc. rewrite DecodeRune_String. pose proof (len_nonneg s).
  destruct (decodeBytes_cases (1 + len s) (ord c) (byteAt s 0) (byteAt s 1) (byteAt s 2)
              (ord_range c))
    as [[? E]|[[? E]|[[? E]|[[? E]|[[? E]|[[? E]|[[? E]|[[? E]|[? E]]]]]]]]]; try lia.
  all: rewrite E; unfold decode2, decode3, decode4; intros Hd.
  all: repeat match type of Hd with
       | context [if ?b then _ else _] => let E := fresh "E" in destruct b eqn:E; b2p
       end; inversion Hd; subst; first [lia | auto with lia].
Qed.

Lemma DecodeRune_range s r k : DecodeRune s = (r, k) -> 0 <= r <= 0x10FFFF.
Proof.
  destruct s as [|c s]; [intros [= <- <-]; unfold RuneError; lia|].
  destruct (Z.lt_ge_cases (ord c) 0x80) as [Hc|Hc].
  - rewrite DecodeRune_ascii by done. intros [= <- <-]. pose proof (ord_range c). lia.
  - intros Hd. destruct (DecodeRune_nonascii _ _ _ _ Hc Hd) as [[-> ->]|Hk].
    + unfold RuneError. lia.
    + apply DecodeRune_multi in Hd as ((? & ?) & _); [lia|done].
Qed.

(** One step of the encoder on an ASCII byte. *)
Lemma escape_ascii fuel c t :
  ord c < 0x80 ->
  escape (S fuel) (String c t)
  = (if htmlSafeSet (ord c) then String c "" else escapeByte c) +:+ escape fuel t.
Proof.
  intros H. cbn [escape]. unfold RuneSelf.
  destruct (Z.ltb_spec (ord c) 0x80); [|lia]. by destruct (htmlSafeSet (ord c)).
Qed.

(** One step of the decoder on what the encoder writes for an ASCII byte. *)
Lemma unquote_escaped_ascii c :
  ord c < 0x80 ->
  forall fuel X,
    unquote (S fuel) ((if htmlSafeSet (ord c) then String c "" else escapeByte c) +:+ X)
    = '(u, r) ← unquote fuel X; Some (String c u, r).
Proof.
  destruct c as [[] [] [] [] [] [] [] []]; intros H; try (vm_compute in H; discriminate H).
  all: intros fuel X; reflexivity.
Qed.

Lemma coerce_from_ascii fuel c t :
  ord c < 0x80 -> coerce_from (S fuel) (String c t) = String c (coerce_from fuel t).
Proof.
  intros H. cbn [coerce_from]. rewrite DecodeRune_ascii by done.
  pose proof (ord_range c). unfold RuneError.
  destruct (Z.eqb_spec (ord c) 0xFFFD); [lia|]. reflexivity.
Qed.

(** The decoder on the escapes of the replacement rune and of the two line
    separators. *)
Lemma unquote_ufffd fuel E X :
  unquote (S fuel) ((String bs "ufffd" +:+ E) +:+ X)
  = '(u, r) ← unquote fuel (E +:+ X); Some (EncodeRune RuneError +:+ u, r).
Proof. reflexivity. Qed.

Lemma unquote_u2028 fuel E X :
  unquote (S fuel) ((String bs "u202" +:+ String (hexAt (Z.land 0x2028 0xF)) E) +:+ X)
  = '(u, r) ← unquote fuel (E +:+ X); Some (EncodeRune 0x2028 +:+ u, r).
Proof. reflexivity. Qed.

Lemma unquote_u2029 fuel E X :
  unquote (S fuel) ((String bs "u202" +:+ String (hexAt (Z.land 0x2029 0xF)) E) +:+ X)
  = '(u, r) ← unquote fuel (E +:+ X); Some (EncodeRune 0x2029 +:+ u, r).
Proof. reflexivity. Qed.

(** The decoder on the bytes of a rune outside ASCII, copied as they are. *)
Lemma unquote_rune fuel s r k X :
  DecodeRune s = (r, k) -> (2 <= k)%nat ->
  unquote (S fuel) (slice_to k s +:+ X)
  = '(u, r') ← unquote fuel X; Some (slice_to k s +:+ u, r').
Proof.
  intros Hd Hk. destruct (DecodeRune_multi _ _ _ Hd Hk) as (Hv & Hr & He & Hl & Hs & HX).
  rewrite <- He.
  destruct s as [|c s]; [cbn in Hs; lia|].
  assert (Hc : 0x80 <= ord c).
  { destruct (Z.lt_ge_cases (ord c) 0x80) as [Hc|Hc]; [|done].
    rewrite DecodeRune_ascii in Hd by done. inversion Hd. lia. }
  assert (Hhd : exists e, EncodeRune r = String c e).
  { rewrite He. destruct k; [lia|]. cbn [slice_to]. eauto. }
  destruct Hhd as (e & Hhd). pose proof (HX X) as HX'.
  assert (Hsl : slice_from k (String c (e +:+ X)) = X).
  { rewrite <- app_String, <- Hhd, <- Hl. apply slice_from_app. }
  rewrite Hhd in HX'. rewrite Hhd at 1. rewrite app_String in *.
  cbn [unquote]. unfold RuneSelf.
  destruct (Z.eqb_spec (ord c) 0x22); [lia|]. destruct (Z.eqb_spec (ord c) 0x5C); [lia|].
  destruct (Z.ltb_spec (ord c) 0x20); [lia|]. destruct (Z.ltb_spec (ord c) 0x80); [lia|].
  rewrite HX', Hsl. reflexivity.
Qed.

(** Decoding the escaped text of [src], up to the closing quote, gives [src]
    coerced to valid UTF-8. *)
Lemma unquote_escape fe : forall src fd rest,
  (String.length src <= fe)%nat -> (fe < fd)%nat ->
  unquote fd (escape fe src +:+ String dq rest) = Some (coerce_from fe src, rest).
Proof.
  induction fe as [|fe IH]; intros src fd rest Hl Hf.
  { destruct src; [|cbn in Hl; lia]. destruct fd; [lia|]. reflexivity. }
  destruct fd as [|fd]; [lia|].
  destruct src as [|c t]; [reflexivity|]. cbn [String.length] in Hl.
  destruct (Z.lt_ge_cases (ord c) 0x80) as [Hc|Hc].
  - rewrite escape_ascii, coerce_from_ascii, app_assoc_s, unquote_escaped_ascii by done.
    rewrite IH by lia. reflexivity.
  - cbn [escape coerce_from]. unfold RuneSelf.
    destruct (Z.ltb_spec (ord c) 0x80); [lia|].
    destruct (DecodeRune (String c t)) as [r k] eqn:Hd.
    assert (Hk : (String.length (slice_from k (String c t)) <= fe)%nat).
    { rewrite length_slice_from. cbn [String.length].
      destruct (DecodeRune_nonascii _ _ _ _ Hc Hd) as [[_ ->]|?]; lia. }
    destruct (DecodeRune_nonascii _ _ _ _ Hc Hd) as [[-> ->]|Hk2].
    + change ((RuneError =? RuneError) && (1 =? 1)%nat) with true. cbv iota.
      rewrite unquote_ufffd, IH by (done || lia). reflexivity.
    + replace ((r =? RuneError) && (k =? 1)%nat) with false
        by (destruct k as [|[|k]]; [lia|lia|symmetry; apply andb_false_r]).
      destruct (Z.eqb_spec r 0x2028) as [->|H28]; [|destruct (Z.eqb_spec r 0x2029) as [->|H29]];
        cbn [orb].
      * destruct (DecodeRune_multi _ _ _ Hd Hk2) as (_ & _ & He & _).
        rewrite unquote_u2028, IH by (done || lia).
        cbn [mbind option_bind]. by rewrite He.
      * destruct (DecodeRune_multi _ _ _ Hd Hk2) as (_ & _ & He & _).
        rewrite unquote_u2029, IH by (done || lia).
        cbn [mbind option_bind]. by rewrite He.
      * rewrite app_assoc_s, (unquote_rune _ _ _ _ _ Hd Hk2), IH by (done || lia).
        reflexivity.
Qed.

Lemma DecodeRune_pos c s r k : DecodeRune (String c s) = (r, k) -> (1 <= k)%nat.
Proof.
  intros Hd. destruct (Z.lt_ge_cases (ord c) 0x80) as [Hc|Hc].
  - rewrite DecodeRune_ascii in Hd by done. inversion Hd. lia.
  - destruct (DecodeRune_nonascii _ _ _ _ Hc Hd) as [[_ ->]|?]; lia.
Qed.

(** A valid string is not changed by the coercion. *)
Lemma coerce_from_valid f : forall s,
  (String.length s <= f)%nat -> valid_from f s = true -> coerce_from f s = s.
Proof.
  induction f as [|f IH]; intros s Hl Hv.
  { destruct s; [done|cbn in Hl; lia]. }
  destruct s as [|c t]; [done|]. cbn [valid_from coerce_from] in *.
  destruct (DecodeRune (String c t)) as [r k] eqn:Hd.
  destruct ((r =? RuneError) && (k =? 1)%nat); [done|].
  rewrite IH; [apply slice_to_from| |done].
  rewrite length_slice_from. apply DecodeRune_pos in Hd. cbn [String.length] in *. lia.
Qed.

Lemma coerce_valid s : ValidString s = true -> coerce s = s.
Proof. intros H. by apply coerce_from_valid. Qed.

(** The coercion of a string is empty only for the empty string. *)
Lemma coerce_empty s : coerce s = "" <-> s = "".
Proof.
  split; [|by intros ->].
  destruct s as [|c t]; [done|]. unfold coerce. cbn [String.length coerce_from].
  destruct (DecodeRune (String c t)) as [r k] eqn:Hd.
  destruct ((r =? RuneError) && (k =? 1)%nat); [discriminate|].
  apply DecodeRune_pos in Hd. destruct k; [lia|]. discriminate.
Qed.

(** Validity of a string that starts with an ASCII byte or with the encoding
    of a rune. *)
Lemma valid_from_ascii f c u :
  ord c < 0x80 -> valid_from (S f) (String c u) = valid_from f u.
Proof.
  intros H. cbn [valid_from]. rewrite DecodeRune_ascii by done.
  pose proof (ord_range c). unfold RuneError.
  destruct (Z.eqb_spec (ord c) 0xFFFD); [lia|]. reflexivity.
Qed.

Lemma valid_from_EncodeRune f r u :
  0 <= r < 2 ^ 31 -> valid_from (S f) (EncodeRune r +:+ u) = valid_from f u.
Proof.
  intros H. destruct (EncodeRune_decodes r u H) as (r' & k & Hd & Hk & Hk1 & Hne).
  destruct (EncodeRune r +:+ u) as [|c e] eqn:He.
  { apply (f_equal String.length) in He. rewrite length_app_s in He. cbn in He. lia. }
  cbn [valid_from]. rewrite Hd, Hne, <- He, Hk, slice_from_app. reflexivity.
Qed.

Lemma valid_all_ascii c u :
  ord c < 0x80 -> (forall f, valid_from f u = true) -> forall f, valid_from f (String c u) = true.
Proof. intros H Hu [|f]; [done|]. by rewrite valid_from_ascii. Qed.

Lemma valid_all_EncodeRune r u :
  0 <= r < 2 ^ 31 -> (forall f, valid_from f u = true) ->
  forall f, valid_from f (EncodeRune r +:+ u) = true.
Proof. intros H Hu [|f]; [done|]. by rewrite valid_from_EncodeRune. Qed.

Lemma hexDigit_range c : -1 <= hexDigit c <= 15.
Proof.
  unfold hexDigit.
  repeat match goal with
  | |- context [if ?b then _ else _] => let E := fresh "E" in destruct b eqn:E; b2p
  end; lia.
Qed.

Lemma getu4_range s : -1 <= getu4 s < 0x10000.
Proof.
  unfold getu4. destruct s as [|c0 [|c1 [|h0 [|h1 [|h2 [|h3 s]]]]]]; try lia.
  destruct ((ord c0 =? 0x5C) && (ord c1 =? 0x75)); [|lia].
  cbn [fold_left].
  pose proof (hexDigit_range h0). pose proof (hexDigit_range h1).
  pose proof (hexDigit_range h2). pose proof (hexDigit_range h3).
  repeat match goal with
  | |- context [if ?b then _ else _] => let E := fresh "E" in destruct b eqn:E; b2p
  end; lia.
Qed.

Lemma utf16_DecodeRune_range r1 r2 : 0 <= utf16.DecodeRune r1 r2 <= 0x10FFFF.
Proof.
  unfold utf16.DecodeRune, utf16.surr1, utf16.surr2, utf16.surr3, utf16.surrSelf,
    utf16.replacementChar.
  destruct (_ && _) eqn:E; [|lia]. b2p.
  rewrite Z.shiftl_mul_pow2 by lia. change (2 ^ 10) with 1024.
  rewrite (lor_disjoint _ _ 10) by (cbn; dlia). lia.
Qed.

(** Every string that the decoder gives is valid UTF-8. *)
Lemma unquote_valid fd : forall s u rest,
  unquote fd s = Some (u, rest) -> forall f, valid_from f u = true.
Proof.
  induction fd as [|fd IH]; intros s u rest H; [discriminate|].
  destruct s as [|c t]; [discriminate|]. cbn [unquote] in H.
  assert (Hk : forall out s',
    ('(u0, r0) ← unquote fd s'; Some (out +:+ u0, r0)) = Some (u, rest) ->
    (forall v, (forall f, valid_from f v = true) -> forall f, valid_from f (out +:+ v) = true) ->
    forall f, valid_from f u = true).
  { intros out s' Hb Hout. destruct (unquote fd s') as [[u0 r0]|] eqn:E; [|discriminate].
    cbn in Hb. inversion Hb; subst. apply Hout. by apply (IH _ _ _ E). }
  assert (Hch : forall e : ascii, ord e < 0x80 ->
    forall v, (forall f, valid_from f v = true) ->
    forall f, valid_from f (String e "" +:+ v) = true).
  { intros e He v Hv. rewrite app_String, app_empty_l. by apply valid_all_ascii. }
  destruct (ord c =? 0x22) eqn:E1; [inversion H; subst; by intros []|].
  destruct (ord c =? 0x5C) eqn:E2.
  { destruct t as [|e t']; [discriminate|].
    repeat match type of H with
    | context [if ?b then _ else _] => let E := fresh "E" in destruct b eqn:E; b2p
    end; try discriminate;
    try (eapply Hk; [exact H|]; first
      [ apply Hch; unfold BS, FF, LF, CR, HT; first [lia | by vm_compute]
      | intros v Hv; apply valid_all_EncodeRune; [|done] ]).
    - pose proof (utf16_DecodeRune_range (getu4 (String c (String e t')))
                    (getu4 (slice_from 6 (String c (String e t'))))). lia.
    - by vm_compute.
    - pose proof (getu4_range (String c (String e t'))). lia. }
  destruct (ord c <? 0x20) eqn:E3; [discriminate|].
  destruct (ord c <? RuneSelf) eqn:E4; b2p.
  - destruct (unquote fd t) as [[u0 r0]|] eqn:E; [|discriminate].
    cbn in H. inversion H; subst. apply valid_all_ascii; [done|]. by apply (IH _ _ _ E).
  - destruct (DecodeRune (String c t)) as [rr size] eqn:Hd.
    eapply Hk; [exact H|]. intros v Hv. apply valid_all_EncodeRune; [|done].
    apply DecodeRune_range in Hd. lia.
Qed.

End json_strings.

(** ** JSON documents: decoding the encoding of a product *)

Section json_roundtrip.
Import utf8 json.

Lemma DecodeRune_size s r k : DecodeRune s = (r, k) -> (k <= 4)%nat.
Proof.
  intros Hd. destruct (le_lt_dec 2 k) as [Hk|Hk]; [|lia].
  rewrite DecodeRune_bytes in Hd.
  apply decodeBytes_multi in Hd; try apply byteAt_range; [|done].
  destruct Hd as (_ & [(-> & _)|[(-> & _)|(-> & _)]]); lia.
Qed.

(** The encoder writes at least one byte for each byte of the string. *)
Lemma length_escape fe : forall src,
  (String.length src <= fe)%nat -> (String.length src <= String.length (escape fe src))%nat.
Proof.
  induction fe as [|fe IH]; intros src Hl; [destruct src; cbn in *; lia|].
  destruct src as [|c t]; [cbn; lia|]. cbn [String.length] in Hl.
  destruct (Z.lt_ge_cases (ord c) 0x80) as [Hc|Hc].
  - rewrite escape_ascii, length_app_s by done. specialize (IH t ltac:(lia)).
    cbn [String.length].
    assert (1 <= String.length (if htmlSafeSet (ord c) then String c "" else escapeByte c))%nat.
    { destruct (htmlSafeSet (ord c)); [cbn; lia|]. unfold escapeByte.
      repeat match goal with
      | |- context [if ?b then _ else _] => destruct b
      end; cbn; lia. }
    lia.
  - cbn [escape]. unfold RuneSelf. destruct (Z.ltb_spec (ord c) 0x80); [lia|].
    destruct (DecodeRune (String c t)) as [r k] eqn:Hd.
    pose proof (DecodeRune_pos _ _ _ _ Hd) as Hk1.
    pose proof (DecodeRune_size _ _ _ Hd) as Hk4.
    pose proof (length_slice_from k (String c t)) as Hsl. cbn [String.length] in Hsl.
    specialize (IH (slice_from k (String c t)) ltac:(lia)).
    destruct (DecodeRune_nonascii _ _ _ _ Hc Hd) as [[-> ->]|Hk2].
    + change ((RuneError =? RuneError) && (1 =? 1)%nat) with true. cbv iota.
      rewrite length_app_s. cbn [String.length] in *.
      lia.
    + destruct (DecodeRune_multi _ _ _ Hd Hk2) as (_ & _ & He & Hle & Hks & _).
      rewrite He in Hle. cbn [String.length] in *.
      repeat match goal with
      | |- context [if ?b then _ else _] => destruct b
      end; rewrite !length_app_s; cbn [String.length]; lia.
Qed.

(** A string literal after its opening quote. *)
Lemma scanString_escape v rest :
  scanString (escape (String.length v) v +:+ String dq rest) = Some (coerce v, rest).
Proof.
  unfold scanString. apply unquote_escape; [done|].
  rewrite length_app_s. pose proof (length_escape _ v (le_n _)). cbn [String.length]. lia.
Qed.

(** A key that needs no escape and is valid UTF-8, such as the names of the
    fields. *)
Definition plainKey (k : string) : Prop :=
  escape (String.length k) k = k /\ coerce k = k.

Lemma scanString_plain k rest :
  plainKey k -> scanString (k +:+ String dq rest) = Some (k, rest).
Proof. intros [He Hc]. rewrite <- He at 1. rewrite scanString_escape. by rewrite Hc. Qed.

(** A member as the encoder writes it: the key, a colon and the value, before
    the rest of the document. *)
Definition member (k v rest : string) : string :=
  String dq (k +:+ String dq (String ":" (String dq
    (escape (String.length v) v +:+ String dq rest)))).

Lemma scanValue_string fuel depth v rest :
  scanValue (S fuel) depth (String dq (escape (String.length v) v +:+ String dq rest))
  = Some (JString (coerce v), rest).
Proof.
  cbn [scanValue]. change (ord dq =? 123) with false. change (ord dq =? 91) with false.
  change (ord dq =? 34) with true. cbv iota. by rewrite scanString_escape.
Qed.

Lemma scanMembers_more fuel depth k v k' v' rest :
  plainKey k ->
  scanMembers (S (S fuel)) depth (member k v (String "," (member k' v' rest)))
  = '(ms, r) ← scanMembers (S fuel) depth (member k' v' rest);
    Some ((k, JString (coerce v)) :: ms, r).
Proof.
  intros Hk. unfold member at 1. unfold member at 1.
  set (m' := String dq (k' +:+ _)). cbn [scanMembers]. change (ord dq =? 34) with true. cbv iota.
  rewrite (scanString_plain _ _ Hk). cbn [mbind option_bind].
  change (skipSpace (String ":" ?x)) with (String ":" x).
  change (ord ":" =? 58) with true. cbv iota.
  change (skipSpace (String dq ?x)) with (String dq x).
  rewrite scanValue_string. cbn [mbind option_bind].
  reflexivity.
Qed.

Lemma scanMembers_last fuel depth k v rest :
  plainKey k ->
  scanMembers (S (S fuel)) depth (member k v (String "}" rest))
  = Some ([(k, JString (coerce v))], rest).
Proof.
  intros Hk. unfold member. cbn [scanMembers]. change (ord dq =? 34) with true. cbv iota.
  rewrite (scanString_plain _ _ Hk). cbn [mbind option_bind].
  change (skipSpace (String ":" ?x)) with (String ":" x).
  change (ord ":" =? 58) with true. cbv iota.
  change (skipSpace (String dq ?x)) with (String dq x).
  rewrite scanValue_string. cbn [mbind option_bind].
  reflexivity.
Qed.

Lemma scanValue_object fuel depth k v rest :
  (maxNestingDepth <? depth + 1) = false ->
  scanValue (S fuel) depth (String "{" (member k v rest))
  = '(ms, r) ← scanMembers fuel (depth + 1) (member k v rest); Some (JObject ms, r).
Proof.
  intros H. cbn [scanValue]. change (ord "{" =? 123) with true. cbv iota.
  rewrite H. reflexivity.
Qed.

Lemma plainKey_fields :
  plainKey "id" /\ plainKey "name" /\ plainKey "status" /\ plainKey "owner" /\
  plainKey "created_at" /\ plainKey "updated_at" /\ plainKey "description" /\
  plainKey "category".
Proof. repeat split; vm_compute; reflexivity. Qed.

(** The document that [Marshal] writes, member by member. *)
Lemma encodeProduct_members p :
  encodeProduct p
  = String "{" (member "id" (ID p) (String ","
      (member "name" (Name p) (String ","
      (member "status" (Status p) (String ","
      (member "owner" (Owner p) (String ","
      (member "created_at" (CreatedAt p) (String ","
      (member "updated_at" (UpdatedAt p) (String ","
      (member "description" (Description p) (String ","
      (member "category" (Category p) (String "}" "")))))))))))))))).
Proof.
  unfold encodeProduct, appendString, nameEsc, member.
  repeat (progress rewrite ?app_assoc_s, ?app_String, ?app_empty_l). reflexivity.
Qed.

(** The record that [Unmarshal] gives for the document of [p]. *)
Definition coerceProduct (p : Product) : Product :=
  mkProduct (coerce (ID p)) (coerce (Name p)) (coerce (Status p)) (coerce (Owner p))
    (coerce (CreatedAt p)) (coerce (UpdatedAt p)) (coerce (Description p))
    (coerce (Category p)).

Lemma scan_encodeProduct p :
  scan (encodeProduct p)
  = Some (JObject
      [ ("id", JString (coerce (ID p))); ("name", JString (coerce (Name p)));
        ("status", JString (coerce (Status p))); ("owner", JString (coerce (Owner p)));
        ("created_at", JString (coerce (CreatedAt p)));
        ("updated_at", JString (coerce (UpdatedAt p)));
        ("description", JString (coerce (Description p)));
        ("category", JString (coerce (Category p))) ]).
Proof.
  destruct plainKey_fields as (K1 & K2 & K3 & K4 & K5 & K6 & K7 & K8).
  unfold scan. rewrite encodeProduct_members.
  set (doc := String "{" _).
  assert (Hf : exists n, (2 * String.length doc + 2 = 10 + n)%nat).
  { exists (2 * String.length doc - 8)%nat.
    assert (4 <= String.length doc)%nat; [|lia].
    unfold doc, member. cbn [String.length]. rewrite length_app_s. cbn [String.length]. lia. }
  destruct Hf as (n & ->). subst doc.
  change (skipSpace (String "{" ?x)) with (String "{" x).
  change (10 + n)%nat with (S (S (S (S (S (S (S (S (S (S n)))))))))).
  rewrite scanValue_object by done.
  rewrite !scanMembers_more, scanMembers_last by done.
  reflexivity.
Qed.

(** Decoding the encoding of a product gives the product with every field
    coerced to valid UTF-8. *)
Lemma Unmarshal_encodeProduct p : Unmarshal (encodeProduct p) = Ok (coerceProduct p).
Proof.
  unfold Unmarshal. rewrite scan_encodeProduct. unfold coerceProduct.
  generalize (coerce (ID p)) (coerce (Name p)) (coerce (Status p)) (coerce (Owner p))
    (coerce (CreatedAt p)) (coerce (UpdatedAt p)) (coerce (Description p))
    (coerce (Category p)).
  intros. reflexivity.
Qed.

(** *** Every record that [Unmarshal] gives is valid UTF-8 *)

Definition validProduct (p : Product) : Prop :=
  ValidString (ID p) = true /\ ValidString (Name p) = true /\
  ValidString (Status p) = true /\ ValidString (Owner p) = true /\
  ValidString (CreatedAt p) = true /\ ValidString (UpdatedAt p) = true /\
  ValidString (Description p) = true /\ ValidString (Category p) = true.

Definition validValue (v : value) : Prop :=
  forall u, v = JString u -> ValidString u = true.

Lemma coerceProduct_valid p : validProduct p -> coerceProduct p = p.
Proof.
  intros H. destruct p. unfold coerceProduct.
  unfold validProduct in H. simpl in *.
  destruct H as (H1 & H2 & H3 & H4 & H5 & H6 & H7 & H8). by rewrite !coerce_valid.
Qed.

(** A value that is not read from a string literal is not a string. *)
Ltac not_string H :=
  repeat match type of H with
  | (if ?b then _ else _) = _ => destruct b
  | match skipSpace ?t with _ => _ end = _ => destruct (skipSpace t)
  | mbind _ ?x = _ => destruct x as [[? ?]|]; cbn [mbind option_bind] in H
  | mbind _ ?x = _ => destruct x as [?|]; cbn [mbind option_bind] in H
  end; discriminate H.

Lemma scanValue_valid fuel depth s v r :
  scanValue fuel depth s = Some (v, r) -> validValue v.
Proof.
  intros H u ->. destruct fuel as [|fuel]; [discriminate|].
  destruct s as [|c t]; [discriminate|]. cbn [scanValue] in H.
  destruct (ord c =? 123); [not_string H|].
  destruct (ord c =? 91); [not_string H|].
  destruct (ord c =? 34).
  - destruct (scanString t) as [[u' r']|] eqn:E; [|discriminate].
    cbn in H. inversion H; subst. unfold scanString in E.
    unfold ValidString. by apply (unquote_valid _ _ _ _ E).
  - not_string H.
Qed.

Lemma scanMembers_valid fuel : forall depth s ms r,
  scanMembers fuel depth s = Some (ms, r) -> Forall (fun kv => validValue (snd kv)) ms.
Proof.
  induction fuel as [|fuel IH]; intros depth s ms r H; [discriminate|].
  cbn [scanMembers] in H.
  destruct s as [|q t]; [discriminate|].
  destruct (ord q =? 34); [|discriminate].
  destruct (scanString t) as [[key r0]|]; [|discriminate]. cbn [mbind option_bind] in H.
  destruct (skipSpace r0) as [|c t1]; [discriminate|].
  destruct (ord c =? 58); [|discriminate].
  destruct (scanValue fuel depth (skipSpace t1)) as [[v r1]|] eqn:Ev; [|discriminate].
  cbn [mbind option_bind] in H. apply scanValue_valid in Ev.
  destruct (skipSpace r1) as [|c2 t2]; [discriminate|].
  destruct (ord c2 =? 44).
  - destruct (scanMembers fuel depth (skipSpace t2)) as [[ms' r2]|] eqn:Em; [|discriminate].
    cbn in H. inversion H; subst. constructor; [done|]. by apply (IH _ _ _ _ Em).
  - destruct (ord c2 =? 125); [|discriminate]. inversion H; subst. by repeat constructor.
Qed.

Lemma scan_object_valid data ms :
  scan data = Some (JObject ms) -> Forall (fun kv => validValue (snd kv)) ms.
Proof.
  unfold scan. set (fuel := (2 * _ + 2)%nat). clearbody fuel.
  destruct (scanValue fuel 0 (skipSpace data)) as [[v r]|] eqn:E; [|discriminate].
  cbn [mbind option_bind]. destruct (skipSpace r); [|discriminate]. intros [= ->].
  destruct fuel as [|fuel]; [discriminate|].
  destruct (skipSpace data) as [|c t]; [discriminate|]. cbn [scanValue] in E.
  destruct (ord c =? 123).
  - destruct (maxNestingDepth <? 0 + 1); [discriminate|].
    destruct (skipSpace t) as [|c' t']; [discriminate|].
    destruct (ord c' =? 125); [inversion E; subst; constructor|].
    destruct (scanMembers fuel (0 + 1) (String c' t')) as [[ms' r']|] eqn:Em; [|discriminate].
    cbn in E. inversion E; subst. by apply (scanMembers_valid _ _ _ _ _ Em).
  - destruct (ord c =? 91); [|destruct (ord c =? 34)]; not_string E.
Qed.

Lemma zeroProduct_valid : validProduct zeroProduct.
Proof. by repeat split. Qed.

Lemma lookupField_valid key name set :
  lookupField key = Some (name, set) ->
  forall s p, ValidString s = true -> validProduct p -> validProduct (set s p).
Proof.
  intros H.
  assert (Hin : In (name, set) fields).
  { unfold lookupField in H.
    destruct (find (fun f => String.eqb (fst f) key) fields) eqn:E1.
    - inversion H; subst. by apply find_some in E1 as [? _].
    - by apply find_some in H as [? _]. }
  cbn in Hin.
  intros s p Hs (H1 & H2 & H3 & H4 & H5 & H6 & H7 & H8).
  repeat (destruct Hin as [[= <- <-]|Hin]; [by repeat split|]). done.
Qed.

Lemma object_valid ms : forall v saved v' e,
  Forall (fun kv => validValue (snd kv)) ms -> validProduct v ->
  object ms v saved = (v', e) -> validProduct v'.
Proof.
  induction ms as [|[key val] ms IH]; intros v saved v' e Hms Hv H.
  { by inversion H; subst. }
  apply Forall_cons in Hms as [Hval Hms]. cbn [object] in H.
  destruct (lookupField key) as [[name set]|] eqn:El; [|by eapply IH].
  destruct val; try (by eapply IH).
  eapply IH; [done| |exact H]. eapply lookupField_valid; [done| |done]. by apply Hval.
Qed.

Lemma Unmarshal_valid data p : Unmarshal data = Ok p -> validProduct p.
Proof.
  unfold Unmarshal. destruct (scan data) as [v|] eqn:E; [|discriminate].
  destruct v; try discriminate.
  - intros [= <-]. apply zeroProduct_valid.
  - destruct (object members zeroProduct None) as [v' [e|]] eqn:Eo; [discriminate|].
    intros [= <-]. eapply object_valid; [|apply zeroProduct_valid|exact Eo].
    by apply scan_object_valid in E.
Qed.

(** A record read from the store and written back is read again as it
    was. *)
Lemma Unmarshal_Marshal_valid p :
  validProduct p -> Unmarshal (encodeProduct p) = Ok p.
Proof. intros H. by rewrite Unmarshal_encodeProduct, coerceProduct_valid. Qed.

End json_roundtrip.

(** ** The fuel of the recursive definitions is never used up *)

Section fuel.

Import utf8 json.

Lemma length_skipSpace s : (String.length (skipSpace s) <= String.length s)%nat.
Proof.
  induction s as [|c t IH]; cbn [skipSpace]; [done|].
  destruct (isSpace c); cbn [String.length]; lia.
Qed.

Lemma length_DecodeRune_rest c t r k :
  DecodeRune (String c t) = (r, k) ->
  (String.length (slice_from k (String c t)) <= String.length t)%nat.
Proof.
  intros Hd. pose proof (DecodeRune_pos _ _ _ _ Hd).
  rewrite length_slice_from. cbn [String.length]. lia.
Qed.

Lemma valid_from_fuel n : forall m s,
  (String.length s <= n)%nat -> (String.length s <= m)%nat -> valid_from n s = valid_from m s.
Proof.
  induction n as [|n IH]; intros m s Hn Hm.
  { destruct s; [by destruct m|cbn in Hn; lia]. }
  destruct s as [|c t]; [by destruct m|].
  destruct m as [|m]; [cbn in Hm; lia|].
  cbn [valid_from]. cbn [String.length] in Hn, Hm.
  destruct (DecodeRune (String c t)) as [r k] eqn:Hd.
  pose proof (length_DecodeRune_rest _ _ _ _ Hd).
  by rewrite (IH m (slice_from k (String c t))) by lia.
Qed.

Lemma escape_fuel n : forall m s,
  (String.length s <= n)%nat -> (String.length s <= m)%nat -> escape n s = escape m s.
Proof.
  induction n as [|n IH]; intros m s Hn Hm.
  { destruct s; [by destruct m|cbn in Hn; lia]. }
  destruct s as [|c t]; [by destruct m|].
  destruct m as [|m]; [cbn in Hm; lia|].
  cbn [escape]. cbn [String.length] in Hn, Hm.
  destruct (DecodeRune (String c t)) as [r k] eqn:Hd.
  pose proof (length_DecodeRune_rest _ _ _ _ Hd).
  by rewrite (IH m t), (IH m (slice_from k (String c t))) by lia.
Qed.

Lemma appendFoldedName_fuel n : forall m s,
  (String.length s <= n)%nat -> (String.length s <= m)%nat ->
  appendFoldedName n s = appendFoldedName m s.
Proof.
  induction n as [|n IH]; intros m s Hn Hm.
  { destruct s; [by destruct m|cbn in Hn; lia]. }
  destruct s as [|c t]; [by destruct m|].
  destruct m as [|m]; [cbn in Hm; lia|].
  cbn [appendFoldedName]. cbn [String.length] in Hn, Hm.
  destruct (DecodeRune (String c t)) as [r k] eqn:Hd.
  pose proof (length_DecodeRune_rest _ _ _ _ Hd).
  by rewrite (IH m t), (IH m (slice_from k (String c t))) by lia.
Qed.

Lemma coerce_from_fuel n : forall m s,
  (String.length s <= n)%nat -> (String.length s <= m)%nat -> coerce_from n s = coerce_from m s.
Proof.
  induction n as [|n IH]; intros m s Hn Hm.
  { destruct s; [by destruct m|cbn in Hn; lia]. }
  destruct s as [|c t]; [by destruct m|].
  destruct m as [|m]; [cbn in Hm; lia|].
  cbn [coerce_from]. cbn [String.length] in Hn, Hm.
  destruct (DecodeRune (String c t)) as [r k] eqn:Hd.
  pose proof (length_DecodeRune_rest _ _ _ _ Hd).
  by rewrite (IH m (slice_from k (String c t))) by lia.
Qed.

Lemma unquote_fuel n : forall m s,
  (String.length s < n)%nat -> (String.length s < m)%nat -> unquote n s = unquote m s.
Proof.
  induction n as [|n IH]; intros m s Hn Hm; [lia|].
  destruct m as [|m]; [lia|].
  destruct s as [|c t]; [done|]. cbn [String.length] in Hn, Hm.
  assert (H1 : forall r, (String.length r <= String.length t)%nat ->
                         unquote n r = unquote m r).
  { intros r Hr. apply IH; lia. }
  cbn [unquote]; cbv zeta.
  destruct (DecodeRune (String c t)) as [rr k] eqn:Hd.
  pose proof (length_DecodeRune_rest _ _ _ _ Hd).
  rewrite (H1 t), (H1 (slice_from k (String c t))) by lia.
  destruct t as [|e t']; [done|].
  rewrite (H1 t') by (cbn [String.length]; lia).
  rewrite (H1 (slice_from 6 (String c (String e t'))))
    by (rewrite length_slice_from; cbn [String.length]; lia).
  rewrite (H1 (slice_from 6 (slice_from 6 (String c (String e t')))))
    by (rewrite !length_slice_from; cbn [String.length]; lia).
  done.
Qed.

(** What is read is not empty. *)
Lemma unquote_shorter n : forall s u r,
  unquote n s = Some (u, r) -> (String.length r < String.length s)%nat.
Proof.
  induction n as [|n IH]; intros s u r H; [done|].
  destruct s as [|c t]; [done|]. cbn [unquote] in H; cbv zeta in H.
  destruct (DecodeRune (String c t)) as [rr k] eqn:Hd.
  pose proof (length_DecodeRune_rest _ _ _ _ Hd) as Hk.
  pose proof (length_slice_from 6 (String c t)) as H6.
  pose proof (length_slice_from 6 (slice_from 6 (String c t))) as H66.
  cbn [String.length] in H6.
  repeat match type of H with
         | (if ?b then _ else _) = _ => destruct b
         | match ?t with EmptyString => _ | String _ _ => _ end = _ =>
             destruct t; cbn [String.length] in *
         end;
    try discriminate;
    try (injection H as _ <-; cbn [String.length]; lia).
  all: match type of H with
       | context [unquote ?f ?x] =>
           destruct (unquote f x) as [[u' r']|] eqn:E; [|done];
           apply IH in E; cbn in H; injection H as _ <-
       end.
  all: cbn [String.length] in *; lia.
Qed.

Lemma scanString_shorter s u r :
  scanString s = Some (u, r) -> (String.length r < String.length s)%nat.
Proof. apply unquote_shorter. Qed.

Lemma spanDigits_length s d r :
  spanDigits s = (d, r) -> (String.length r <= String.length s)%nat.
Proof.
  revert d r. induction s as [|c t IH]; intros d r H; cbn [spanDigits] in H.
  { by injection H as _ <-. }
  destruct (isDigit c).
  - destruct (spanDigits t) as [d' r'] eqn:E. injection H as _ <-.
    specialize (IH _ _ eq_refl). cbn [String.length]. lia.
  - by injection H as _ <-.
Qed.

Lemma digits1_length s d r :
  digits1 s = Some (d, r) -> (String.length r <= String.length s)%nat.
Proof.
  unfold digits1. destruct (spanDigits s) as [d' r'] eqn:E. apply spanDigits_length in E.
  destruct d'; [done|]. by intros [= _ <-].
Qed.

Lemma scanInt_shorter s d r :
  scanInt s = Some (d, r) -> (String.length r < String.length s)%nat.
Proof.
  destruct s as [|c t]; [done|]. cbn [scanInt].
  destruct (ord c =? 0x30); [intros [= _ <-]; cbn [String.length]; lia|].
  destruct (isDigit c) eqn:Ed; [|done]. cbn [spanDigits]. rewrite Ed.
  destruct (spanDigits t) as [d' r'] eqn:E. apply spanDigits_length in E.
  intros [= _ <-]. cbn [String.length]. lia.
Qed.

Lemma scanFrac_length s d r :
  scanFrac s = Some (d, r) -> (String.length r <= String.length s)%nat.
Proof.
  destruct s as [|c t]; cbn [scanFrac]; [by intros [= _ <-]|].
  destruct (ord c =? 0x2E); [|by intros [= _ <-]].
  destruct (digits1 t) as [[d' r']|] eqn:E; [|done]. apply digits1_length in E.
  cbn. intros [= _ <-]. cbn [String.length]. lia.
Qed.

Lemma scanExp_length s d r :
  scanExp s = Some (d, r) -> (String.length r <= String.length s)%nat.
Proof.
  destruct s as [|c t]; cbn [scanExp]; [by intros [= _ <-]|].
  destruct (_ || _); [|by intros [= _ <-]].
  destruct t as [|sg t']; [done|].
  destruct (_ || _).
  - destruct (digits1 t') as [[d' r']|] eqn:E; [|done]. apply digits1_length in E.
    cbn. intros [= _ <-]. cbn [String.length]. lia.
  - destruct (digits1 (String sg t')) as [[d' r']|] eqn:E; [|done]. apply digits1_length in E.
    cbn. intros [= _ <-]. cbn [String.length] in *. lia.
Qed.

Lemma scanNumber_shorter s n r :
  scanNumber s = Some (n, r) -> (String.length r < String.length s)%nat.
Proof.
  unfold scanNumber.
  set (p := match s with String c t => if ord c =? 0x2D then ("-", t) else ("", s)
                    | EmptyString => ("", s) end).
  assert (Hp : (String.length (snd p) <= String.length s)%nat).
  { unfold p. destruct s as [|c t]; [done|]. destruct (ord c =? 0x2D); cbn; lia. }
  destruct p as [sign s1]. cbn [snd] in Hp.
  destruct (scanInt s1) as [[i s2]|] eqn:Ei; [|done]. apply scanInt_shorter in Ei.
  cbn. destruct (scanFrac s2) as [[f s3]|] eqn:Ef; [|done]. apply scanFrac_length in Ef.
  cbn. destruct (scanExp s3) as [[e s4]|] eqn:Ee; [|done]. apply scanExp_length in Ee.
  cbn. intros [= _ <-]. lia.
Qed.

Lemma stripPrefix_shorter lit s r :
  lit <> "" -> stripPrefix lit s = Some r -> (String.length r < String.length s)%nat.
Proof.
  intros Hl. assert (H : forall lit s r, stripPrefix lit s = Some r ->
                       (String.length r + String.length lit = String.length s)%nat).
  { clear. induction lit as [|a lit IH]; intros s r H; cbn [stripPrefix] in H.
    - injection H as <-. cbn. lia.
    - destruct s as [|b s]; [done|]. destruct (Ascii.eqb a b); [|done].
      apply IH in H. cbn [String.length]. lia. }
  intros E. apply H in E. destruct lit; [done|]. cbn [String.length] in E. lia.
Qed.

Lemma scan_shorter n :
  (forall d s v r, scanValue n d s = Some (v, r) ->
     (String.length r < String.length s)%nat) /\
  (forall d s vs r, scanElements n d s = Some (vs, r) ->
     (String.length r < String.length s)%nat) /\
  (forall d s ms r, scanMembers n d s = Some (ms, r) ->
     (String.length r < String.length s)%nat).
Proof.
  induction n as [|n (IHv & IHe & IHm)]; [done|].
  split; [|split].
  - intros d s v r H. destruct s as [|c t]; [done|]. cbn [scanValue] in H; cbv zeta in H.
    pose proof (length_skipSpace t) as Hsp.
    destruct (skipSpace t) as [|c' t'] eqn:Es; cbn [String.length] in *.
    all: repeat match type of H with
           | (if ?b then _ else _) = _ => destruct b
           end; try discriminate;
         try (injection H as _ <-; cbn [String.length]; lia).
    all: match type of H with
         | (?x ≫= _) = _ => destruct x as [a|] eqn:E; [|done]
         end; simpl in H.
    all: try (destruct a as [a1 a2]); injection H as _ <-.
    all: first [ apply IHm in E | apply IHe in E | apply scanString_shorter in E
               | apply scanNumber_shorter in E | apply stripPrefix_shorter in E; [|done] ].
    all: cbn [String.length] in *; lia.
  - intros d s vs r H. cbn [scanElements] in H.
    destruct (scanValue n d s) as [[v r1]|] eqn:E; [|done]. simpl in H. apply IHv in E.
    pose proof (length_skipSpace r1) as Hsp.
    destruct (skipSpace r1) as [|c t]; [done|]. cbn [String.length] in Hsp.
    destruct (ord c =? 0x2C).
    + pose proof (length_skipSpace t).
      destruct (scanElements n d (skipSpace t)) as [[vs' r']|] eqn:E'; [|done].
      apply IHe in E'. simpl in H. injection H as _ <-. lia.
    + destruct (ord c =? 0x5D); [|done]. injection H as _ <-. lia.
  - intros d s ms r H. destruct s as [|q t]; [done|]. cbn [scanMembers] in H.
    destruct (ord q =? 0x22); [|done].
    destruct (scanString t) as [[key r0]|] eqn:E0; [|done]. simpl in H.
    apply scanString_shorter in E0. pose proof (length_skipSpace r0) as Hsp.
    destruct (skipSpace r0) as [|c t1]; [done|]. cbn [String.length] in *.
    destruct (ord c =? 0x3A); [|done]. pose proof (length_skipSpace t1).
    destruct (scanValue n d (skipSpace t1)) as [[v r1]|] eqn:E1; [|done]. simpl in H.
    apply IHv in E1. pose proof (length_skipSpace r1) as Hsp1.
    destruct (skipSpace r1) as [|c2 t2]; [done|]. cbn [String.length] in *.
    destruct (ord c2 =? 0x2C).
    + pose proof (length_skipSpace t2).
      destruct (scanMembers n d (skipSpace t2)) as [[ms' r2]|] eqn:E2; [|done].
      apply IHm in E2. simpl in H. injection H as _ <-. lia.
    + destruct (ord c2 =? 0x7D); [|done]. injection H as _ <-. lia.
Qed.

(** A value needs at most twice the length of the input and one more call,
    the elements of an array and the members of an object one call more. *)
Lemma scan_fuel_enough n :
  (forall m d s, (2 * String.length s + 1 <= n)%nat -> (2 * String.length s + 1 <= m)%nat ->
     scanValue n d s = scanValue m d s) /\
  (forall m d s, (2 * String.length s + 2 <= n)%nat -> (2 * String.length s + 2 <= m)%nat ->
     scanElements n d s = scanElements m d s) /\
  (forall m d s, (2 * String.length s + 2 <= n)%nat -> (2 * String.length s + 2 <= m)%nat ->
     scanMembers n d s = scanMembers m d s).
Proof.
  induction n as [|n (IHv & IHe & IHm)]; [repeat split; intros; lia|].
  split; [|split]; intros [|m] d s Hn Hm; try lia.
  - destruct s as [|c t]; [done|]. cbn [scanValue]; cbv zeta. cbn [String.length] in *.
    pose proof (length_skipSpace t) as Hsp.
    destruct (skipSpace t) as [|c' t'] eqn:Es; [done|]. cbn [String.length] in Hsp.
    by rewrite (IHm m (d + 1) (String c' t')), (IHe m (d + 1) (String c' t'))
      by (cbn [String.length]; lia).
  - cbn [scanElements]. rewrite (IHv m d s) by lia.
    destruct (scanValue m d s) as [[v r]|] eqn:E; [|done]. simpl.
    apply (proj1 (scan_shorter m)) in E. pose proof (length_skipSpace r) as Hsp.
    destruct (skipSpace r) as [|c t]; [done|]. cbn [String.length] in Hsp.
    pose proof (length_skipSpace t). by rewrite (IHe m d (skipSpace t)) by lia.
  - destruct s as [|q t]; [done|]. cbn [scanMembers]. cbn [String.length] in *.
    destruct (ord q =? 0x22); [|done].
    destruct (scanString t) as [[key r0]|] eqn:E0; [|done]. simpl.
    apply scanString_shorter in E0. pose proof (length_skipSpace r0) as Hsp.
    destruct (skipSpace r0) as [|c t1]; [done|]. cbn [String.length] in Hsp.
    destruct (ord c =? 0x3A); [|done]. pose proof (length_skipSpace t1).
    rewrite (IHv m d (skipSpace t1)) by lia.
    destruct (scanValue m d (skipSpace t1)) as [[v r1]|] eqn:E1; [|done]. simpl.
    apply (proj1 (scan_shorter m)) in E1. pose proof (length_skipSpace r1) as Hsp1.
    destruct (skipSpace r1) as [|c2 t2]; [done|]. cbn [String.length] in Hsp1.
    pose proof (length_skipSpace t2). by rewrite (IHm m d (skipSpace t2)) by lia.
Qed.

(** More fuel than [scan] gives changes nothing: [scan] fails only on a
    syntax error. *)
Lemma scan_fuel data n :
  (2 * String.length data + 2 <= n)%nat ->
  scanValue n 0 (skipSpace data) = scanValue (2 * String.length data + 2) 0 (skipSpace data).
Proof.
  intros Hn. pose proof (length_skipSpace data). apply scan_fuel_enough; lia.
Qed.

Lemma scanString_fuel s n :
  (String.length s < n)%nat -> unquote n s = scanString s.
Proof. intros Hn. apply unquote_fuel; lia. Qed.

End fuel.

(** ** Timestamps are ASCII, hence valid UTF-8 *)

Fixpoint isASCII (s : string) : bool :=
  match s with
  | EmptyString => true
  | String c t => (ord c <? 0x80) && isASCII t
  end.

Lemma isASCII_app a b : isASCII (a +:+ b) = isASCII a && isASCII b.
Proof.
  induction a as [|c a IH]; [done|]. rewrite app_String. cbn [isASCII].
  by rewrite IH, andb_assoc.
Qed.

Lemma isASCII_valid s : isASCII s = true -> forall f, utf8.valid_from f s = true.
Proof.
  induction s as [|c s IH]; intros H f; [by destruct f|].
  cbn [isASCII] in H. b2p. destruct f as [|f]; [done|].
  rewrite valid_from_ascii by done. by apply IH.
Qed.

Section time_facts.
Import time.

Lemma isASCII_decimal_loop fuel : forall u acc,
  isASCII acc = true -> isASCII (decimal_loop fuel u acc) = true.
Proof.
  induction fuel as [|fuel IH]; intros u acc Hacc; [done|].
  cbn [decimal_loop].
  assert (Hd : isASCII (String (chr (0x30 + u mod 10)) acc) = true).
  { cbn [isASCII]. rewrite Hacc, andb_true_r. apply Z.ltb_lt.
    rewrite ord_chr; dlia. }
  destruct (u / 10 =? 0); [done|]. by apply IH.
Qed.

Lemma isASCII_zeros n : isASCII (zeros n) = true.
Proof. induction n as [|n IH]; [done|]. cbn [zeros isASCII]. by rewrite IH. Qed.

Lemma isASCII_appendInt b x width :
  isASCII b = true -> isASCII (appendInt b x width) = true.
Proof.
  intros Hb. unfold appendInt. rewrite !isASCII_app, isASCII_zeros.
  unfold decimal. rewrite isASCII_decimal_loop by done.
  destruct (x <? 0); rewrite ?isASCII_app, Hb; reflexivity.
Qed.

Lemma isASCII_Format_RFC3339 local t : isASCII (Format_RFC3339 local t) = true.
Proof.
  unfold Format_RFC3339, appendFormatRFC3339.
  destruct (absDate _) as [[year month] day]. destruct (absClock _) as [[hour min] sec].
  assert (Hlit : forall b lit, isASCII b = true -> isASCII lit = true ->
            isASCII (b +:+ lit) = true).
  { intros b lit H1 H2. by rewrite isASCII_app, H1, H2. }
  destruct (local (unixSec t) =? 0).
  - repeat first [ apply isASCII_appendInt | apply Hlit | reflexivity ].
  - destruct (Z.quot (local (unixSec t)) 60 <? 0);
      repeat first [ apply isASCII_appendInt | apply Hlit | reflexivity ].
Qed.

Lemma Format_RFC3339_valid local t :
  utf8.ValidString (Format_RFC3339 local t) = true.
Proof. apply isASCII_valid, isASCII_Format_RFC3339. Qed.

(** The loop of [appendInt] stops within its twenty digits. *)
Lemma decimal_loop_fuel n : forall m u acc,
  (n <= m)%nat -> 0 <= u < 10 ^ Z.of_nat (S n) ->
  decimal_loop (S n) u acc = decimal_loop (S m) u acc.
Proof.
  induction n as [|n IH]; intros m u acc Hm Hu; cbn [decimal_loop].
  - destruct (Z.eqb_spec (u / 10) 0) as [|Hne]; [done|].
    change (10 ^ Z.of_nat 1) with 10 in Hu. exfalso. apply Hne. dlia.
  - destruct m as [|m]; [lia|].
    destruct (Z.eqb_spec (u / 10) 0) as [|Hne]; [done|]. apply IH; [lia|].
    rewrite Nat2Z.inj_succ, Z.pow_succ_r in Hu by lia.
    split; [dlia|]. apply Z.div_lt_upper_bound; lia.
Qed.

(** Twenty digits are enough for a uint64. *)
Lemma decimal_fuel u m :
  0 <= u < 2 ^ 64 -> (20 <= m)%nat -> decimal_loop m u "" = decimal u.
Proof.
  intros Hu Hm. unfold decimal. destruct m as [|m]; [lia|].
  symmetry. apply (decimal_loop_fuel 19); [lia|].
  split; [lia|]. eapply Z.lt_trans; [apply Hu|]. reflexivity.
Qed.

End time_facts.

(** ** The contract, step by step *)

(** The value that a read of [key] sees: none for a key without a value. *)
Definition stored (w : WorldState) (key : string) : option string :=
  match state w !! key with
  | Some EmptyString => None
  | Some v => Some v
  | None => None
  end.

(** The world after a successful [PutState(key, value)] of a value that is
    not empty. *)
Definition written (key value : string) (w : WorldState) : WorldState :=
  mkWorld (<[key := value]> (state w)) (writes w ++ [(key, value)]).

(** The timestamp that the contract derives in a context whose transaction
    time is [(sec, nanos)]. *)
Definition curTimeOf (ctx : TransactionContext) (sec nanos : Z) : string :=
  time.Format_RFC3339 (localOffset ctx) (time.Unix sec nanos).

(** The library functions are not unfolded by the tactics below. *)
#[local] Opaque time.Format_RFC3339 json.encodeProduct json.Unmarshal.

Lemma stored_Some w key v : stored w key = Some v <-> state w !! key = Some v /\ v <> "".
Proof.
  unfold stored. destruct (state w !! key) as [[|c t]|]; split; try done.
  - intros [[= <-] ?]. done.
  - intros [= <-]. done.
  - intros [[= <-] _]. done.
  - by intros [? _].
Qed.

Lemma stored_written key value w :
  value <> "" -> stored (written key value w) key = Some value.
Proof.
  intros H. unfold stored, written. cbn [state]. rewrite lookup_insert_eq.
  by destruct value.
Qed.

Lemma stored_written_ne key key' value w :
  key <> key' -> stored (written key value w) key' = stored w key'.
Proof. intros H. unfold stored, written. cbn [state]. by rewrite lookup_insert_ne. Qed.

Lemma GetState_ok ctx key w :
  getStateErr ctx key = None -> GetState ctx key w = (Ok (stored w key), w).
Proof. intros H. unfold GetState, stored. by rewrite H. Qed.

Lemma GetState_err ctx key w e :
  getStateErr ctx key = Some e -> GetState ctx key w = (Err e, w).
Proof. intros H. unfold GetState. by rewrite H. Qed.

Lemma PutState_ok ctx key value w :
  putStateErr ctx key value = None -> value <> "" ->
  PutState ctx key value w = (Ok tt, written key value w).
Proof. intros H Hv. unfold PutState, written. rewrite H. by destruct value. Qed.

Lemma encodeProduct_nonempty p : json.encodeProduct p <> "".
Proof. by rewrite encodeProduct_members. Qed.

Lemma getTimestamp_ok ctx sec nanos w :
  txTimestamp ctx = Ok (sec, nanos) ->
  getTimestamp ctx w = (Ok (curTimeOf ctx sec nanos), w).
Proof.
  intros H. unfold getTimestamp, bind, orErrorf, GetTxTimestamp. rewrite H. reflexivity.
Qed.

Lemma getTimestamp_err ctx e w :
  txTimestamp ctx = Err e -> getTimestamp ctx w = (Err (ClockError e), w).
Proof.
  intros H. unfold getTimestamp, bind, orErrorf, GetTxTimestamp. by rewrite H.
Qed.

Lemma curTimeOf_valid ctx sec nanos : utf8.ValidString (curTimeOf ctx sec nanos) = true.
Proof. apply Format_RFC3339_valid. Qed.

Lemma ProductExists_ok ctx id w :
  getStateErr ctx id = None ->
  ProductExists ctx id w
  = (Ok (match stored w id with Some _ => true | None => false end), w).
Proof. intros H. unfold ProductExists, bind, orErrorf. by rewrite GetState_ok. Qed.

Lemma ProductExists_err ctx id w e :
  getStateErr ctx id = Some e -> ProductExists ctx id w = (Err (StoreReadError e), w).
Proof. intros H. unfold ProductExists, bind, orErrorf, GetState. by rewrite H. Qed.

Lemma QueryProduct_found ctx id w v :
  getStateErr ctx id = None -> stored w id = Some v ->
  QueryProduct ctx id w
  = (match json.Unmarshal v with Ok p => Ok p | Err e => Err (JSONError e) end, w).
Proof.
  intros H Hs. unfold QueryProduct, bind, orErrorf. rewrite GetState_ok, Hs by done.
  unfold liftJSON. by destruct (json.Unmarshal v).
Qed.

Lemma QueryProduct_absent ctx id w :
  getStateErr ctx id = None -> stored w id = None ->
  QueryProduct ctx id w = (Err (NotFoundError id), w).
Proof.
  intros H Hs. unfold QueryProduct, bind, orErrorf. by rewrite GetState_ok, Hs.
Qed.

(** A query that succeeds: the read succeeded and the stored bytes decode
    to the record. *)
Lemma QueryProduct_inv ctx id w r w' :
  QueryProduct ctx id w = (Ok r, w') ->
  w' = w /\ getStateErr ctx id = None /\
  exists v, stored w id = Some v /\ json.Unmarshal v = Ok r.
Proof.
  unfold QueryProduct, bind, orErrorf, GetState. fold (stored w id).
  destruct (getStateErr ctx id); [discriminate|].
  destruct (stored w id) as [v|]; [|discriminate].
  unfold liftJSON. destruct (json.Unmarshal v) eqn:E; [|discriminate].
  intros [= <- <-]. eauto.
Qed.

(** A query after a write of the encoding of [p]. *)
Lemma QueryProduct_written ctx id p w :
  getStateErr ctx id = None ->
  QueryProduct ctx id (written id (json.encodeProduct p) w)
  = (Ok (coerceProduct p), written id (json.encodeProduct p) w).
Proof.
  intros H. erewrite QueryProduct_found; [|done|by apply stored_written, encodeProduct_nonempty].
  by rewrite Unmarshal_encodeProduct.
Qed.

Lemma coerce_literal_Manufactured : coerce "Manufactured" = "Manufactured".
Proof. by vm_compute. Qed.

Lemma coerce_curTimeOf ctx sec nanos :
  coerce (curTimeOf ctx sec nanos) = curTimeOf ctx sec nanos.
Proof. apply coerce_valid, curTimeOf_valid. Qed.

(** A context in which every call succeeds, at a fixed transaction time in
    UTC, and the empty world state; the examples below run in them. *)
Definition exampleContext : TransactionContext :=
  mkContext (Ok (1700000000, 0)) (fun _ => None) (fun _ _ => None) None (fun _ => None)
    (fun _ => 0).

Definition emptyWorld : WorldState := mkWorld ∅ [].

(** A context one hour later, and the world after seeding in
    [exampleContext]. *)
Definition laterContext : TransactionContext :=
  mkContext (Ok (1700003600, 0)) (fun _ => None) (fun _ _ => None) None (fun _ => None)
    (fun _ => 0).

Definition laptop : Product :=
  mkProduct "p1" "Laptop" "Manufactured" "CompanyA" "2023-11-14T22:13:20Z"
    "2023-11-14T22:13:20Z" "High-end gaming laptop" "Electronics".

Definition smartphone : Product :=
  mkProduct "p2" "Smartphone" "Manufactured" "CompanyB" "2023-11-14T22:13:20Z"
    "2023-11-14T22:13:20Z" "Latest model smartphone" "Electronics".

Definition seededWorld : WorldState :=
  written "p2" (json.encodeProduct smartphone)
    (written "p1" (json.encodeProduct laptop) emptyWorld).

Lemma InitLedger_example : InitLedger exampleContext emptyWorld = (Ok tt, seededWorld).
Proof. by vm_compute. Qed.

(** The byte 0xFF, which is not valid UTF-8, and the three bytes of U+FFFD. *)
Definition invalidByte : string := String (chr 0xFF) "".
Definition replacementRune : string :=
  String (chr 0xEF) (String (chr 0xBF) (String (chr 0xBD) "")).

(** ** C1: create, then query *)

(** C1, as amended: for a fresh id, with the transaction timestamp available
    and the reads and the write of the store succeeding, [CreateProduct]
    succeeds and writes one record; a query of the id then returns status
    "Manufactured", created_at and updated_at both equal to the derived
    timestamp, and the five supplied strings coerced to valid UTF-8, which
    are the supplied strings themselves when these are valid UTF-8. *)
Theorem CreateProduct_then_QueryProduct
    ctx ctx' w id name owner description category sec nanos :
  txTimestamp ctx = Ok (sec, nanos) ->
  getStateErr ctx id = None ->
  stored w id = None ->
  let curTime := curTimeOf ctx sec nanos in
  let product :=
    mkProduct id name "Manufactured" owner curTime curTime description category in
  putStateErr ctx id (json.encodeProduct product) = None ->
  getStateErr ctx' id = None ->
  let w' := written id (json.encodeProduct product) w in
  CreateProduct ctx id name owner description category w = (Ok tt, w') /\
  QueryProduct ctx' id w'
  = (Ok (mkProduct (coerce id) (coerce name) "Manufactured" (coerce owner) curTime curTime
           (coerce description) (coerce category)), w') /\
  (utf8.ValidString id = true -> utf8.ValidString name = true ->
   utf8.ValidString owner = true -> utf8.ValidString description = true ->
   utf8.ValidString category = true ->
   QueryProduct ctx' id w' = (Ok product, w')).
Proof.
  intros Hts Hget Hfresh curTime product Hput Hget' w'.
  assert (Hq : QueryProduct ctx' id w'
               = (Ok (mkProduct (coerce id) (coerce name) "Manufactured" (coerce owner)
                        curTime curTime (coerce description) (coerce category)), w')).
  { unfold w'. rewrite QueryProduct_written by done. unfold coerceProduct, product.
    simpl. unfold curTime. by rewrite coerce_literal_Manufactured, coerce_curTimeOf. }
  split; [|split; [exact Hq|]].
  - unfold CreateProduct, bind. rewrite (getTimestamp_ok _ _ _ _ Hts).
    rewrite ProductExists_ok, Hfresh by done.
    unfold liftJSON, json.Marshal, ret. fold curTime. fold product.
    unfold orReturn. rewrite PutState_ok; [done|done|apply encodeProduct_nonempty].
  - intros H1 H2 H3 H4 H5. rewrite Hq. unfold product.
    by rewrite !coerce_valid.
Qed.

Lemma CreateProduct_then_QueryProduct_witness :
  let curTime := "2023-11-14T22:13:20Z" in
  let product := mkProduct "p9" "Tablet" "Manufactured" "CompanyC" curTime curTime
                   "Ten-inch tablet" "Electronics" in
  let w' := written "p9" (json.encodeProduct product) emptyWorld in
  CreateProduct exampleContext "p9" "Tablet" "CompanyC" "Ten-inch tablet" "Electronics"
    emptyWorld = (Ok tt, w') /\
  QueryProduct exampleContext "p9" w' = (Ok product, w').
Proof.
  destruct (CreateProduct_then_QueryProduct exampleContext exampleContext emptyWorld
              "p9" "Tablet" "CompanyC" "Ten-inch tablet" "Electronics" 1700000000 0)
    as (Hc & _ & Hq); try reflexivity.
  split; [exact Hc|]. apply Hq; by vm_compute.
Defined.

(** C1, as stated, fails: a name that is not valid UTF-8 is not read back as
    it was supplied. *)
Lemma CreateProduct_invalid_name :
  fst (CreateProduct exampleContext "p9" invalidByte "CompanyC" "d" "c" emptyWorld) = Ok tt /\
  fst (QueryProduct exampleContext "p9"
         (snd (CreateProduct exampleContext "p9" invalidByte "CompanyC" "d" "c" emptyWorld)))
  = Ok (mkProduct "p9" replacementRune "Manufactured" "CompanyC" "2023-11-14T22:13:20Z"
          "2023-11-14T22:13:20Z" "d" "c") /\
  replacementRune <> invalidByte.
Proof. split; [|split]; [by vm_compute|by vm_compute|discriminate]. Qed.

(** ** C2: create on an existing id *)

(** C2: when a record exists under the id (the key has a value that is not
    empty) and the transaction timestamp is available, [CreateProduct] makes
    no write and leaves the world state as it was, the record under the id
    included.  It fails with the already-exists error when the read of the
    store succeeds, and with the error of the read when it does not. *)
Theorem CreateProduct_existing ctx w id name owner description category ts v :
  txTimestamp ctx = Ok ts ->
  state w !! id = Some v -> v <> "" ->
  (getStateErr ctx id = None ->
   CreateProduct ctx id name owner description category w
   = (Err (AlreadyExistsError id), w)) /\
  (forall e, getStateErr ctx id = Some e ->
   CreateProduct ctx id name owner description category w
   = (Err (StoreReadError e), w)) /\
  snd (CreateProduct ctx id name owner description category w) = w.
Proof.
  intros Hts Hv Hne. destruct ts as [sec nanos].
  assert (Hs : stored w id = Some v) by (by apply stored_Some).
  unfold CreateProduct, bind. rewrite (getTimestamp_ok _ _ _ _ Hts).
  destruct (getStateErr ctx id) as [e|] eqn:Hg.
  - rewrite (ProductExists_err _ _ _ _ Hg). split; [done|].
    split; [by intros e' [= <-]|reflexivity].
  - rewrite ProductExists_ok, Hs by done. split; [done|]. split; [done|reflexivity].
Qed.

Lemma CreateProduct_existing_witness :
  CreateProduct laterContext "p1" "Laptop" "CompanyZ" "d" "c" seededWorld
  = (Err (AlreadyExistsError "p1"), seededWorld).
Proof.
  refine (proj1 (CreateProduct_existing laterContext seededWorld "p1" "Laptop" "CompanyZ"
                   "d" "c" (1700003600, 0) (json.encodeProduct laptop) _ _ _) _);
    [reflexivity|by vm_compute|by vm_compute|reflexivity].
Defined.

(** ** C3: update *)

(** The value of a mutable field after an update with argument [new]. *)
Definition updated (new old : string) : string :=
  if String.eqb new "" then old else new.

Lemma coerce_updated new old :
  utf8.ValidString old = true -> coerce (updated new old) = updated (coerce new) old.
Proof.
  intros Hold. unfold updated.
  destruct (String.eqb_spec new "") as [->|Hne]; [by apply coerce_valid|].
  destruct (String.eqb_spec (coerce new) "") as [He|_]; [|done].
  apply (proj1 (coerce_empty new)) in He. contradiction.
Qed.

(** The assignments of [UpdateProduct], as one record. *)
Lemma UpdateProduct_asset r newStatus newOwner newDescription newCategory curTime :
  set_UpdatedAt curTime
    (let asset := if String.eqb newStatus "" then r else set_Status newStatus r in
     let asset := if String.eqb newOwner "" then asset else set_Owner newOwner asset in
     let asset := if String.eqb newDescription "" then asset
                  else set_Description newDescription asset in
     if String.eqb newCategory "" then asset else set_Category newCategory asset)
  = mkProduct (ID r) (Name r) (updated newStatus (Status r)) (updated newOwner (Owner r))
      (CreatedAt r) curTime (updated newDescription (Description r))
      (updated newCategory (Category r)).
Proof.
  destruct r. unfold updated. cbv zeta.
  by destruct (String.eqb newStatus ""), (String.eqb newOwner ""),
    (String.eqb newDescription ""), (String.eqb newCategory "").
Qed.

(** C3, as amended: for an existing record (a query of the id returns it),
    with the timestamp available and the write succeeding, [UpdateProduct]
    writes one record; a query then returns the record with each of status,
    owner, description and category kept where its argument is empty and
    replaced by the argument coerced to valid UTF-8 (the argument itself,
    when it is valid UTF-8) where it is not, with id, name and created_at
    unchanged and updated_at equal to the derived timestamp.  With four empty
    arguments only updated_at changes. *)
Theorem UpdateProduct_then_QueryProduct
    ctx ctx' w id newStatus newOwner newDescription newCategory sec nanos r :
  txTimestamp ctx = Ok (sec, nanos) ->
  QueryProduct ctx id w = (Ok r, w) ->
  let curTime := curTimeOf ctx sec nanos in
  let asset :=
    mkProduct (ID r) (Name r) (updated newStatus (Status r)) (updated newOwner (Owner r))
      (CreatedAt r) curTime (updated newDescription (Description r))
      (updated newCategory (Category r)) in
  putStateErr ctx id (json.encodeProduct asset) = None ->
  getStateErr ctx' id = None ->
  let w' := written id (json.encodeProduct asset) w in
  UpdateProduct ctx id newStatus newOwner newDescription newCategory w = (Ok tt, w') /\
  QueryProduct ctx' id w'
  = (Ok (mkProduct (ID r) (Name r) (updated (coerce newStatus) (Status r))
           (updated (coerce newOwner) (Owner r)) (CreatedAt r) curTime
           (updated (coerce newDescription) (Description r))
           (updated (coerce newCategory) (Category r))), w') /\
  (utf8.ValidString newStatus = true -> utf8.ValidString newOwner = true ->
   utf8.ValidString newDescription = true -> utf8.ValidString newCategory = true ->
   QueryProduct ctx' id w' = (Ok asset, w')) /\
  (newStatus = "" -> newOwner = "" -> newDescription = "" -> newCategory = "" ->
   QueryProduct ctx' id w' = (Ok (set_UpdatedAt curTime r), w')).
Proof.
  intros Hts Hq curTime asset Hput Hget' w'.
  destruct (QueryProduct_inv _ _ _ _ _ Hq) as (_ & Hget & v & Hv & Hr).
  apply Unmarshal_valid in Hr as (V1 & V2 & V3 & V4 & V5 & V6 & V7 & V8).
  assert (Hq' : QueryProduct ctx' id w'
    = (Ok (mkProduct (ID r) (Name r) (updated (coerce newStatus) (Status r))
             (updated (coerce newOwner) (Owner r)) (CreatedAt r) curTime
             (updated (coerce newDescription) (Description r))
             (updated (coerce newCategory) (Category r))), w')).
  { unfold w'. rewrite QueryProduct_written by done. unfold coerceProduct, asset. simpl.
    unfold curTime. rewrite !coerce_updated, coerce_curTimeOf by done.
    by rewrite (coerce_valid (ID r)), (coerce_valid (Name r)), (coerce_valid (CreatedAt r)). }
  split; [|split; [exact Hq'|split]].
  - unfold UpdateProduct, bind. rewrite (getTimestamp_ok _ _ _ _ Hts), Hq.
    unfold liftJSON, json.Marshal, ret. fold curTime.
    match goal with
    | |- orReturn (PutState _ _ (json.encodeProduct ?a)) _ = _ =>
        change a with (set_UpdatedAt curTime
          (let asset := if String.eqb newStatus "" then r else set_Status newStatus r in
           let asset := if String.eqb newOwner "" then asset else set_Owner newOwner asset in
           let asset := if String.eqb newDescription "" then asset
                        else set_Description newDescription asset in
           if String.eqb newCategory "" then asset else set_Category newCategory asset))
    end.
    rewrite (UpdateProduct_asset r newStatus newOwner newDescription newCategory curTime).
    fold asset. unfold orReturn. rewrite PutState_ok; [done|done|apply encodeProduct_nonempty].
  - intros H1 H2 H3 H4. rewrite Hq'. unfold asset. by rewrite !coerce_valid.
  - intros -> -> -> ->. rewrite Hq'. by destruct r.
Qed.

Lemma UpdateProduct_then_QueryProduct_witness :
  let shipped :=
    mkProduct "p1" "Laptop" "Shipped" "CompanyC" "2023-11-14T22:13:20Z"
      "2023-11-14T23:13:20Z" "High-end gaming laptop" "Electronics" in
  let w' := written "p1" (json.encodeProduct shipped) seededWorld in
  UpdateProduct laterContext "p1" "Shipped" "CompanyC" "" "" seededWorld = (Ok tt, w') /\
  QueryProduct exampleContext "p1" w' = (Ok shipped, w').
Proof.
  destruct (UpdateProduct_then_QueryProduct laterContext exampleContext seededWorld
              "p1" "Shipped" "CompanyC" "" "" 1700003600 0 laptop)
    as (Hu & _ & Hq & _); try reflexivity.
  split; [exact Hu|]. apply Hq; by vm_compute.
Defined.

(** C3, as stated, fails: an owner that is not valid UTF-8 is not the owner
    that a query returns after the update. *)
Lemma UpdateProduct_invalid_owner :
  fst (UpdateProduct laterContext "p1" "" invalidByte "" "" seededWorld) = Ok tt /\
  fst (QueryProduct exampleContext "p1"
         (snd (UpdateProduct laterContext "p1" "" invalidByte "" "" seededWorld)))
  = Ok (mkProduct "p1" "Laptop" "Manufactured" replacementRune "2023-11-14T22:13:20Z"
          "2023-11-14T23:13:20Z" "High-end gaming laptop" "Electronics") /\
  replacementRune <> invalidByte.
Proof. split; [|split]; [by vm_compute|by vm_compute|discriminate]. Qed.

(** ** C4: transfer of ownership *)

(** C4, as amended: for an existing record, with the timestamp available and
    the write succeeding, [TransferOwnership] writes one record; a query then
    returns the record with owner equal to the argument coerced to valid
    UTF-8 (the argument itself when it is valid UTF-8, the empty string
    included), updated_at equal to the derived timestamp and every other
    field unchanged. *)
Theorem TransferOwnership_then_QueryProduct ctx ctx' w id newOwner sec nanos r :
  txTimestamp ctx = Ok (sec, nanos) ->
  QueryProduct ctx id w = (Ok r, w) ->
  let curTime := curTimeOf ctx sec nanos in
  let asset :=
    mkProduct (ID r) (Name r) (Status r) newOwner (CreatedAt r) curTime (Description r)
      (Category r) in
  putStateErr ctx id (json.encodeProduct asset) = None ->
  getStateErr ctx' id = None ->
  let w' := written id (json.encodeProduct asset) w in
  TransferOwnership ctx id newOwner w = (Ok tt, w') /\
  QueryProduct ctx' id w'
  = (Ok (mkProduct (ID r) (Name r) (Status r) (coerce newOwner) (CreatedAt r) curTime
           (Description r) (Category r)), w') /\
  (utf8.ValidString newOwner = true -> QueryProduct ctx' id w' = (Ok asset, w')).
Proof.
  intros Hts Hq curTime asset Hput Hget' w'.
  destruct (QueryProduct_inv _ _ _ _ _ Hq) as (_ & Hget & v & Hv & Hr).
  apply Unmarshal_valid in Hr as (V1 & V2 & V3 & V4 & V5 & V6 & V7 & V8).
  assert (Hq' : QueryProduct ctx' id w'
    = (Ok (mkProduct (ID r) (Name r) (Status r) (coerce newOwner) (CreatedAt r) curTime
             (Description r) (Category r)), w')).
  { unfold w'. rewrite QueryProduct_written by done. unfold coerceProduct, asset. simpl.
    unfold curTime. rewrite coerce_curTimeOf.
    by rewrite (coerce_valid (ID r)), (coerce_valid (Name r)), (coerce_valid (Status r)),
      (coerce_valid (CreatedAt r)), (coerce_valid (Description r)),
      (coerce_valid (Category r)). }
  split; [|split; [exact Hq'|]].
  - unfold TransferOwnership, bind. rewrite (getTimestamp_ok _ _ _ _ Hts), Hq.
    unfold liftJSON, json.Marshal, ret. fold curTime.
    replace (set_UpdatedAt curTime (set_Owner newOwner r)) with asset by (by destruct r).
    unfold orReturn. rewrite PutState_ok; [done|done|apply encodeProduct_nonempty].
  - intros H. rewrite Hq'. unfold asset. by rewrite coerce_valid.
Qed.

Lemma TransferOwnership_then_QueryProduct_witness :
  let unowned :=
    mkProduct "p1" "Laptop" "Manufactured" "" "2023-11-14T22:13:20Z"
      "2023-11-14T23:13:20Z" "High-end gaming laptop" "Electronics" in
  let w' := written "p1" (json.encodeProduct unowned) seededWorld in
  TransferOwnership laterContext "p1" "" seededWorld = (Ok tt, w') /\
  QueryProduct exampleContext "p1" w' = (Ok unowned, w').
Proof.
  destruct (TransferOwnership_then_QueryProduct laterContext exampleContext seededWorld
              "p1" "" 1700003600 0 laptop)
    as (Hu & _ & Hq); try reflexivity.
  split; [exact Hu|]. apply Hq; by vm_compute.
Defined.

(** C4, as stated, fails: a new owner that is not valid UTF-8 is not stored
    exactly. *)
Lemma TransferOwnership_invalid_owner :
  fst (TransferOwnership laterContext "p1" invalidByte seededWorld) = Ok tt /\
  fst (QueryProduct exampleContext "p1"
         (snd (TransferOwnership laterContext "p1" invalidByte seededWorld)))
  = Ok (mkProduct "p1" "Laptop" "Manufactured" replacementRune "2023-11-14T22:13:20Z"
          "2023-11-14T23:13:20Z" "High-end gaming laptop" "Electronics") /\
  replacementRune <> invalidByte.
Proof. split; [|split]; [by vm_compute|by vm_compute|discriminate]. Qed.

(** ** C5: existence check and query of an absent id *)

(** C5: when the read of the store succeeds, [ProductExists] returns true
    exactly when the key is present with a value that is not empty; when the
    key is absent it returns false and [QueryProduct] fails with the
    not-found error; neither changes the world state. *)
Theorem ProductExists_iff_stored ctx w id :
  getStateErr ctx id = None ->
  (exists b, ProductExists ctx id w = (Ok b, w) /\
     (b = true <-> exists v, state w !! id = Some v /\ v <> "")) /\
  (state w !! id = None ->
   ProductExists ctx id w = (Ok false, w) /\
   QueryProduct ctx id w = (Err (NotFoundError id), w)).
Proof.
  intros Hget. split.
  - eexists. split; [by apply ProductExists_ok|].
    destruct (stored w id) as [v|] eqn:Hs.
    + apply stored_Some in Hs. split; [eauto|done].
    + split; [done|]. intros (v & Hv). apply stored_Some in Hv. congruence.
  - intros Habs. assert (Hs : stored w id = None) by (unfold stored; by rewrite Habs).
    rewrite ProductExists_ok, QueryProduct_absent, Hs by done. done.
Qed.

Lemma ProductExists_iff_stored_witness :
  ProductExists exampleContext "p7" seededWorld = (Ok false, seededWorld) /\
  QueryProduct exampleContext "p7" seededWorld = (Err (NotFoundError "p7"), seededWorld).
Proof.
  apply (ProductExists_iff_stored exampleContext seededWorld "p7"); reflexivity.
Defined.

(** ** C9: decoding the encoding of a record *)

(** C9, as amended: [Marshal] succeeds on every record, and decoding the
    bytes it gives yields the record with each field coerced to valid UTF-8:
    the record itself, field for field, when its eight fields are valid
    UTF-8. *)
Theorem Unmarshal_Marshal p :
  exists data,
    json.Marshal p = Ok data /\
    json.Unmarshal data = Ok (coerceProduct p) /\
    (validProduct p -> json.Unmarshal data = Ok p).
Proof.
  exists (json.encodeProduct p). split; [reflexivity|]. split.
  - apply Unmarshal_encodeProduct.
  - apply Unmarshal_Marshal_valid.
Qed.

(** C9, as stated, fails: a record with an id that is not valid UTF-8 is not
    the record that decoding its encoding gives. *)
Lemma Unmarshal_Marshal_invalid :
  json.Unmarshal (json.encodeProduct (mkProduct invalidByte "" "" "" "" "" "" ""))
  = Ok (mkProduct replacementRune "" "" "" "" "" "" "") /\
  mkProduct replacementRune "" "" "" "" "" "" "" <> mkProduct invalidByte "" "" "" "" "" "" "".
Proof. split; [by vm_compute|discriminate]. Qed.

(** ** C7: seeding *)

Lemma initialAssets_valid ctx sec nanos :
  Forall validProduct (initialAssets (curTimeOf ctx sec nanos)).
Proof.
  pose proof (curTimeOf_valid ctx sec nanos).
  repeat constructor; try done; by vm_compute.
Qed.

(** The run of [InitLedger] when the timestamp is available and both writes
    succeed. *)
Lemma InitLedger_ok ctx w sec nanos :
  txTimestamp ctx = Ok (sec, nanos) ->
  let curTime := curTimeOf ctx sec nanos in
  let p1 := mkProduct "p1" "Laptop" "Manufactured" "CompanyA" curTime curTime
              "High-end gaming laptop" "Electronics" in
  let p2 := mkProduct "p2" "Smartphone" "Manufactured" "CompanyB" curTime curTime
              "Latest model smartphone" "Electronics" in
  putStateErr ctx "p1" (json.encodeProduct p1) = None ->
  putStateErr ctx "p2" (json.encodeProduct p2) = None ->
  InitLedger ctx w
  = (Ok tt, written "p2" (json.encodeProduct p2) (written "p1" (json.encodeProduct p1) w)).
Proof.
  intros Hts curTime p1 p2 Hput1 Hput2.
  unfold InitLedger, bind. rewrite (getTimestamp_ok _ _ _ _ Hts). fold curTime.
  unfold initialAssets. fold p1. fold p2. cbn [putAssets]. unfold bind, orErrorf.
  unfold liftJSON, json.Marshal, ret.
  change (ID p1) with "p1". change (ID p2) with "p2".
  rewrite (PutState_ok ctx "p1" (json.encodeProduct p1) w Hput1 (encodeProduct_nonempty p1)).
  rewrite (PutState_ok ctx "p2" (json.encodeProduct p2) _ Hput2 (encodeProduct_nonempty p2)).
  reflexivity.
Qed.

(** C7: with the timestamp available and the two writes succeeding,
    [InitLedger] makes exactly two writes, of the records p1 (Laptop, owner
    CompanyA) and p2 (Smartphone, owner CompanyB), both with status
    "Manufactured" and created_at and updated_at equal to the derived
    timestamp; it does so whatever the world state holds, so that records
    already stored under p1 and p2 are overwritten, and every other key is
    left as it was. *)
Theorem InitLedger_seeds ctx ctx' w sec nanos :
  txTimestamp ctx = Ok (sec, nanos) ->
  let curTime := curTimeOf ctx sec nanos in
  let p1 := mkProduct "p1" "Laptop" "Manufactured" "CompanyA" curTime curTime
              "High-end gaming laptop" "Electronics" in
  let p2 := mkProduct "p2" "Smartphone" "Manufactured" "CompanyB" curTime curTime
              "Latest model smartphone" "Electronics" in
  putStateErr ctx "p1" (json.encodeProduct p1) = None ->
  putStateErr ctx "p2" (json.encodeProduct p2) = None ->
  getStateErr ctx' "p1" = None ->
  getStateErr ctx' "p2" = None ->
  let w' := written "p2" (json.encodeProduct p2) (written "p1" (json.encodeProduct p1) w) in
  InitLedger ctx w = (Ok tt, w') /\
  writes w' = writes w ++ [("p1", json.encodeProduct p1); ("p2", json.encodeProduct p2)] /\
  QueryProduct ctx' "p1" w' = (Ok p1, w') /\
  QueryProduct ctx' "p2" w' = (Ok p2, w') /\
  (forall k, k <> "p1" -> k <> "p2" -> state w' !! k = state w !! k).
Proof.
  intros Hts curTime p1 p2 Hput1 Hput2 Hget1 Hget2 w'.
  pose proof (initialAssets_valid ctx sec nanos) as Hv.
  apply Forall_cons in Hv as [Hv1 Hv]. apply Forall_cons in Hv as [Hv2 _].
  fold curTime in Hv1, Hv2. fold p1 in Hv1. fold p2 in Hv2.
  split; [|split; [|split; [|split]]].
  - exact (InitLedger_ok ctx w sec nanos Hts Hput1 Hput2).
  - unfold w', written. cbn [writes]. by rewrite <- app_assoc.
  - erewrite QueryProduct_found; [|done|].
    2:{ unfold w'. rewrite stored_written_ne by done.
        apply stored_written, encodeProduct_nonempty. }
    by rewrite Unmarshal_Marshal_valid.
  - erewrite QueryProduct_found; [|done|].
    2:{ unfold w'. apply stored_written, encodeProduct_nonempty. }
    by rewrite Unmarshal_Marshal_valid.
  - intros k H1 H2. unfold w', written. cbn [state]. by rewrite !lookup_insert_ne.
Qed.

(** Seeding again, one hour later, over the seeded world: the two records are
    overwritten. *)
Lemma InitLedger_seeds_witness :
  let laptop' := mkProduct "p1" "Laptop" "Manufactured" "CompanyA" "2023-11-14T23:13:20Z"
                   "2023-11-14T23:13:20Z" "High-end gaming laptop" "Electronics" in
  let smartphone' := mkProduct "p2" "Smartphone" "Manufactured" "CompanyB"
                       "2023-11-14T23:13:20Z" "2023-11-14T23:13:20Z"
                       "Latest model smartphone" "Electronics" in
  let w' := written "p2" (json.encodeProduct smartphone')
              (written "p1" (json.encodeProduct laptop') seededWorld) in
  QueryProduct exampleContext "p1" seededWorld = (Ok laptop, seededWorld) /\
  InitLedger laterContext seededWorld = (Ok tt, w') /\
  QueryProduct exampleContext "p1" w' = (Ok laptop', w') /\
  QueryProduct exampleContext "p2" w' = (Ok smartphone', w').
Proof.
  destruct (InitLedger_seeds laterContext exampleContext seededWorld 1700003600 0)
    as (Hi & _ & Hq1 & Hq2 & _); try reflexivity.
  split; [by vm_compute|]. split; [exact Hi|]. split; [exact Hq1|exact Hq2].
Defined.

(** ** C8: listing *)

(** The entries that the range scan of the whole key space returns. *)
Definition entries (w : WorldState) : list (string * string) :=
  merge_sort keyLe (filter (fun kv => inRange "" "" kv = true) (map_to_list (state w))).

(** The records of a list of entries, or the error of the first value that
    does not decode. *)
Fixpoint decodeAll (l : list (string * string)) : result json.error (list Product) :=
  match l with
  | [] => Ok []
  | kv :: l' =>
      match json.Unmarshal (snd kv) with
      | Err e => Err e
      | Ok p =>
          match decodeAll l' with
          | Ok ps => Ok (p :: ps)
          | Err e => Err e
          end
      end
  end.

#[local] Instance keyLe_trans : Transitive keyLe.
Proof. intros a b c. unfold keyLe. apply transitivity. Qed.

#[local] Instance keyLe_total : Total keyLe.
Proof. intros a b. unfold keyLe. apply total, _. Qed.

Lemma elem_of_entries w k v :
  (k, v) ∈ entries w <-> state w !! k = Some v /\ v <> "".
Proof.
  unfold entries. rewrite merge_sort_Permutation, list_elem_of_filter, elem_of_map_to_list.
  unfold inRange. cbn [fst snd String.eqb orb andb].
  destruct (String.eqb_spec v "") as [->|Hv]; cbn [negb]; split.
  - intros [[=] _].
  - by intros [_ ?].
  - by intros [_ ?].
  - by intros [? _].
Qed.

Lemma NoDup_fst_entries w : NoDup ((entries w).*1).
Proof.
  unfold entries. rewrite merge_sort_Permutation.
  pose proof (NoDup_fst_map_to_list (state w)) as H.
  induction (map_to_list (state w)) as [|x l IH]; [constructor|].
  cbn [fmap list_fmap] in H. apply NoDup_cons in H as [Hx Hl].
  rewrite filter_cons. destruct (decide _); [|by apply IH].
  cbn [fmap list_fmap]. apply NoDup_cons. split; [|by apply IH].
  intros Hin. apply Hx. apply list_elem_of_fmap in Hin as (y & -> & Hy).
  apply list_elem_of_filter in Hy as [_ Hy]. apply list_elem_of_fmap. eauto.
Qed.

Lemma ltb_of_leb_ne a b : String.le a b -> a <> b -> String.ltb a b = true.
Proof.
  unfold String.le, String.leb, String.ltb. intros Hle Hne.
  destruct (String.compare a b) eqn:E; try done.
  by apply String.compare_eq_iff in E.
Qed.

(** The entries are in strictly ascending order of their keys. *)
Lemma entries_sorted w :
  StronglySorted (fun a b => String.ltb (fst a) (fst b) = true) (entries w).
Proof.
  pose proof (NoDup_fst_entries w) as Hnd.
  assert (Hs : StronglySorted keyLe (entries w))
    by (unfold entries; apply (StronglySorted_merge_sort keyLe)).
  induction Hs as [|x l Hs IH Hall]; [constructor|].
  cbn [fmap list_fmap] in Hnd. apply NoDup_cons in Hnd as [Hx Hnd].
  constructor; [by apply IH|].
  apply Forall_forall. intros y Hy. apply ltb_of_leb_ne.
  - rewrite Forall_forall in Hall. by apply Hall.
  - intros E. apply Hx. rewrite E. apply list_elem_of_fmap. eauto.
Qed.

Lemma collect_decodeAll ctx l : forall i acc,
  (forall j, nextErr ctx j = None) ->
  collect ctx i l acc
  = match decodeAll l with
    | Ok ps => Ok (acc ++ ps)
    | Err e => Err (JSONError e)
    end.
Proof.
  induction l as [|kv l IH]; intros i acc Hn; cbn [collect decodeAll].
  { by rewrite app_nil_r. }
  rewrite Hn. destruct (json.Unmarshal (snd kv)) as [p|e]; [|done].
  rewrite IH by done. destruct (decodeAll l); [|done]. by rewrite <- app_assoc.
Qed.

Lemma GetAllProducts_decodeAll ctx w :
  rangeErr ctx = None -> (forall j, nextErr ctx j = None) ->
  GetAllProducts ctx w
  = (match decodeAll (entries w) with
     | Ok ps => Ok ps
     | Err e => Err (JSONError e)
     end, w).
Proof.
  intros Hr Hn. unfold GetAllProducts, bind, orReturn, GetStateByRange. rewrite Hr.
  fold (entries w). rewrite collect_decodeAll by done.
  by destruct (decodeAll (entries w)).
Qed.

Lemma decodeAll_first_error l1 kv l2 e :
  Forall (fun kv => exists p, json.Unmarshal (snd kv) = Ok p) l1 ->
  json.Unmarshal (snd kv) = Err e ->
  decodeAll (l1 ++ kv :: l2) = Err e.
Proof.
  intros H He. induction H as [|x l (p & Hp) _ IH]; cbn [app decodeAll].
  - by rewrite He.
  - by rewrite Hp, IH.
Qed.

Lemma decodeAll_all l ps :
  Forall2 (fun kv p => json.Unmarshal (snd kv) = Ok p) l ps -> decodeAll l = Ok ps.
Proof.
  induction 1 as [|kv p l ps Hp _ IH]; cbn [decodeAll]; [done|]. by rewrite Hp, IH.
Qed.

(** The entries of a world that holds two documents, under p1 and p2. *)
Lemma entries_two t1 t2 ws :
  entries (mkWorld (<["p2" := String "{" t2]> (<["p1" := String "{" t1]> ∅)) ws)
  = [("p1", String "{" t1); ("p2", String "{" t2)].
Proof. by vm_compute. Qed.

(** A world with a value that is no JSON document, for the examples. *)
Definition corruptWorld : WorldState := written "p15" "not json" seededWorld.

(** C8: when the range scan and its iterator do not fail, [GetAllProducts]
    reads every key that has a value, in strictly ascending order of the
    keys; it returns the decoded records in that order when every value
    decodes, and otherwise only the error of the first value that does not
    decode; after seeding the empty world it returns the records p1 and p2,
    in that order. *)
Theorem GetAllProducts_in_key_order ctx w :
  rangeErr ctx = None ->
  (forall j, nextErr ctx j = None) ->
  (forall k v, (k, v) ∈ entries w <-> state w !! k = Some v /\ v <> "") /\
  StronglySorted (fun a b => String.ltb (fst a) (fst b) = true) (entries w) /\
  (forall ps,
     Forall2 (fun kv p => json.Unmarshal (snd kv) = Ok p) (entries w) ps ->
     GetAllProducts ctx w = (Ok ps, w)) /\
  (forall l1 kv l2 e,
     entries w = l1 ++ kv :: l2 ->
     Forall (fun kv => exists p, json.Unmarshal (snd kv) = Ok p) l1 ->
     json.Unmarshal (snd kv) = Err e ->
     GetAllProducts ctx w = (Err (JSONError e), w)) /\
  (forall ctx0 sec nanos,
     txTimestamp ctx0 = Ok (sec, nanos) ->
     (forall k v, putStateErr ctx0 k v = None) ->
     let curTime := curTimeOf ctx0 sec nanos in
     let p1 := mkProduct "p1" "Laptop" "Manufactured" "CompanyA" curTime curTime
                 "High-end gaming laptop" "Electronics" in
     let p2 := mkProduct "p2" "Smartphone" "Manufactured" "CompanyB" curTime curTime
                 "Latest model smartphone" "Electronics" in
     fst (GetAllProducts ctx (snd (InitLedger ctx0 emptyWorld))) = Ok [p1; p2]).
Proof.
  intros Hr Hn. split; [apply elem_of_entries|]. split; [apply entries_sorted|].
  split; [|split].
  - intros ps Hps. rewrite GetAllProducts_decodeAll by done.
    by rewrite (decodeAll_all _ _ Hps).
  - intros l1 kv l2 e He Hl1 Hkv. rewrite GetAllProducts_decodeAll, He by done.
    by rewrite (decodeAll_first_error _ _ _ _ Hl1 Hkv).
  - intros ctx0 sec nanos Hts Hput curTime p1 p2.
    rewrite (InitLedger_ok ctx0 emptyWorld sec nanos Hts) by apply Hput.
    fold curTime. fold p1. fold p2. cbn [snd].
    rewrite GetAllProducts_decodeAll by done. cbn [fst].
    pose proof (initialAssets_valid ctx0 sec nanos) as Hv.
    apply Forall_cons in Hv as [Hv1 Hv]. apply Forall_cons in Hv as [Hv2 _].
    fold curTime in Hv1, Hv2. fold p1 in Hv1. fold p2 in Hv2.
    unfold written, emptyWorld. cbn [state writes].
    pose proof (Unmarshal_Marshal_valid p1 Hv1) as H1.
    pose proof (Unmarshal_Marshal_valid p2 Hv2) as H2.
    rewrite (encodeProduct_members p1), (encodeProduct_members p2) in *.
    rewrite entries_two. cbn [decodeAll snd]. by rewrite H1, H2.
Qed.

Lemma GetAllProducts_in_key_order_witness :
  GetAllProducts exampleContext seededWorld = (Ok [laptop; smartphone], seededWorld) /\
  GetAllProducts exampleContext corruptWorld = (Err (JSONError json.SyntaxError), corruptWorld).
Proof.
  destruct (GetAllProducts_in_key_order exampleContext seededWorld eq_refl (fun _ => eq_refl))
    as (_ & _ & Hok & _).
  destruct (GetAllProducts_in_key_order exampleContext corruptWorld eq_refl (fun _ => eq_refl))
    as (_ & _ & _ & Herr & _).
  split.
  - apply Hok. change (entries seededWorld) with
      [("p1", json.encodeProduct laptop); ("p2", json.encodeProduct smartphone)].
    repeat constructor; by vm_compute.
  - apply (Herr [("p1", json.encodeProduct laptop)] ("p15", "not json")
             [("p2", json.encodeProduct smartphone)]).
    + by vm_compute.
    + repeat constructor. exists laptop. by vm_compute.
    + by vm_compute.
Defined.

(** ** Invocations and what they write *)

(** An invocation of the contract: one of its functions with its
    arguments. *)
Inductive Invocation :=
| CallInitLedger
| CallCreateProduct (id name owner description category : string)
| CallUpdateProduct (id newStatus newOwner newDescription newCategory : string)
| CallTransferOwnership (id newOwner : string)
| CallQueryProduct (id : string)
| CallProductExists (id : string)
| CallGetAllProducts.

(** The world state after an invocation, whatever it returned. *)
Definition invoke (ctx : TransactionContext) (inv : Invocation) (w : WorldState)
  : WorldState :=
  match inv with
  | CallInitLedger => snd (InitLedger ctx w)
  | CallCreateProduct id name owner description category =>
      snd (CreateProduct ctx id name owner description category w)
  | CallUpdateProduct id newStatus newOwner newDescription newCategory =>
      snd (UpdateProduct ctx id newStatus newOwner newDescription newCategory w)
  | CallTransferOwnership id newOwner => snd (TransferOwnership ctx id newOwner w)
  | CallQueryProduct id => snd (QueryProduct ctx id w)
  | CallProductExists id => snd (ProductExists ctx id w)
  | CallGetAllProducts => snd (GetAllProducts ctx w)
  end.

(** [w'] is [w] after some writes of encoded records, each of which satisfies
    [P] with the key it is written under. *)
Inductive recordsWritten (P : string -> Product -> Prop) (w : WorldState)
  : WorldState -> Prop :=
| recordsWritten_none : recordsWritten P w w
| recordsWritten_more w' k p :
    recordsWritten P w w' -> P k p ->
    recordsWritten P w (written k (json.encodeProduct p) w').

Lemma PutState_recordsWritten P ctx k p w w0 :
  recordsWritten P w0 w -> P k p ->
  recordsWritten P w0 (snd (PutState ctx k (json.encodeProduct p) w)).
Proof.
  intros Hw HP. unfold PutState. destruct (putStateErr ctx k _); [done|].
  cbn [snd]. pose proof (encodeProduct_nonempty p) as Hne.
  destruct (json.encodeProduct p) eqn:E; [done|]. rewrite <- E. by constructor.
Qed.

Lemma orReturn_world {A} (m : Stub A) w : snd (orReturn m w) = snd (m w).
Proof. unfold orReturn. by destruct (m w) as [[?|?] ?]. Qed.

Lemma getTimestamp_cases ctx w :
  (exists sec nanos, txTimestamp ctx = Ok (sec, nanos) /\
     getTimestamp ctx w = (Ok (curTimeOf ctx sec nanos), w)) \/
  (exists e, getTimestamp ctx w = (Err e, w)).
Proof.
  destruct (txTimestamp ctx) as [[sec nanos]|e] eqn:E.
  - left. exists sec, nanos. split; [done|]. by apply getTimestamp_ok.
  - right. eexists. by apply getTimestamp_err.
Qed.

Lemma QueryProduct_cases ctx id w :
  (exists r v, QueryProduct ctx id w = (Ok r, w) /\ stored w id = Some v /\
     json.Unmarshal v = Ok r) \/
  (exists e, QueryProduct ctx id w = (Err e, w)).
Proof.
  destruct (QueryProduct ctx id w) as [[r|e] w'] eqn:E.
  - left. destruct (QueryProduct_inv _ _ _ _ _ E) as (-> & _ & v & Hv & Hr). eauto.
  - right. exists e. f_equal.
    unfold QueryProduct, bind, orErrorf, GetState in E.
    destruct (getStateErr ctx id); [by inversion E|].
    destruct (match state w !! id with Some "" => None | Some v => Some v | None => None end);
      [|by inversion E].
    unfold liftJSON in E. destruct (json.Unmarshal _); by inversion E.
Qed.

Lemma ProductExists_world ctx id w : snd (ProductExists ctx id w) = w.
Proof.
  unfold ProductExists, bind, orErrorf, GetState. by destruct (getStateErr ctx id).
Qed.

Lemma QueryProduct_world ctx id w : snd (QueryProduct ctx id w) = w.
Proof.
  destruct (QueryProduct_cases ctx id w) as [(r & v & -> & _)|(e & ->)]; done.
Qed.

Lemma GetAllProducts_world ctx w : snd (GetAllProducts ctx w) = w.
Proof.
  unfold GetAllProducts, bind, orReturn, GetStateByRange. destruct (rangeErr ctx); [done|].
  by destruct (collect _ _ _ _).
Qed.

(** What each function writes: [InitLedger] the two initial assets;
    [CreateProduct] a record with the given id and status "Manufactured";
    [UpdateProduct] and [TransferOwnership] a record made from the one that a
    query of the id returns; the other three nothing. *)
Definition writtenBy (ctx : TransactionContext) (w : WorldState) (k : string) (p : Product)
  : Prop :=
  (exists curTime, In p (initialAssets curTime) /\ k = ID p) \/
  (ID p = k /\ Status p = "Manufactured") \/
  (exists r v, stored w k = Some v /\ json.Unmarshal v = Ok r /\ ID p = ID r /\
     Name p = Name r /\ CreatedAt p = CreatedAt r /\
     (Status p = Status r \/ Status p <> "")).

Lemma invoke_recordsWritten ctx inv w : recordsWritten (writtenBy ctx w) w (invoke ctx inv w).
Proof.
  destruct inv; cbn [invoke];
    rewrite ?ProductExists_world, ?QueryProduct_world, ?GetAllProducts_world;
    try constructor.
  - unfold InitLedger, bind.
    destruct (getTimestamp_cases ctx w) as [(sec & nanos & _ & ->)|(e & ->)]; [|constructor].
    unfold initialAssets. cbn [putAssets]. unfold bind, orErrorf, liftJSON, json.Marshal, ret.
    set (p1 := mkProduct "p1" _ _ _ _ _ _ _). set (p2 := mkProduct "p2" _ _ _ _ _ _ _).
    assert (W1 : writtenBy ctx w "p1" p1) by (left; eexists; split; [left|]; done).
    assert (W2 : writtenBy ctx w "p2" p2) by (left; eexists; split; [right; left|]; done).
    pose proof (PutState_recordsWritten _ ctx "p1" p1 w w (recordsWritten_none _ _) W1) as H1.
    change (ID p1) with "p1". change (ID p2) with "p2".
    destruct (PutState ctx "p1" (json.encodeProduct p1) w) as [[[]|e1] w1]; [|exact H1].
    cbn [snd] in H1.
    pose proof (PutState_recordsWritten _ ctx "p2" p2 w1 w H1 W2) as H2.
    by destruct (PutState ctx "p2" (json.encodeProduct p2) w1) as [[[]|e2] w2].
  - unfold CreateProduct, bind.
    destruct (getTimestamp_cases ctx w) as [(sec & nanos & _ & ->)|(e & ->)]; [|constructor].
    pose proof (ProductExists_world ctx id w) as Hw.
    destruct (ProductExists ctx id w) as [[[|]|e] w1]; cbn [snd] in Hw; subst w1;
      try constructor.
    unfold liftJSON, json.Marshal, ret.
    rewrite orReturn_world. apply PutState_recordsWritten; [constructor|]. right; left. done.
  - unfold UpdateProduct, bind.
    destruct (getTimestamp_cases ctx w) as [(sec & nanos & _ & ->)|(e & ->)]; [|constructor].
    destruct (QueryProduct_cases ctx id w) as [(r & v & -> & Hv & Hr)|(e & ->)];
      [|constructor].
    unfold liftJSON, json.Marshal, ret.
    rewrite orReturn_world. apply PutState_recordsWritten; [constructor|]. right; right. exists r, v.
    rewrite UpdateProduct_asset. cbn. repeat split; try done.
    unfold updated. destruct (String.eqb_spec newStatus ""); auto.
  - unfold TransferOwnership, bind.
    destruct (getTimestamp_cases ctx w) as [(sec & nanos & _ & ->)|(e & ->)]; [|constructor].
    destruct (QueryProduct_cases ctx id w) as [(r & v & -> & Hv & Hr)|(e & ->)];
      [|constructor].
    unfold liftJSON, json.Marshal, ret.
    rewrite orReturn_world. apply PutState_recordsWritten; [constructor|]. right; right. exists r, v.
    destruct r. cbn. repeat split; auto.
Qed.

(** ** C10: no invocation removes a record *)

(** A record exists under [id]: the key has a value. *)
Definition recordExists (w : WorldState) (id : string) : Prop :=
  exists v, stored w id = Some v.

Lemma recordExists_written k p w id :
  recordExists w id -> recordExists (written k (json.encodeProduct p) w) id.
Proof.
  intros (v & Hv). destruct (decide (k = id)) as [->|Hne].
  - eexists. apply stored_written, encodeProduct_nonempty.
  - exists v. by rewrite stored_written_ne.
Qed.

(** No invocation removes a key from the world state either. *)
Lemma invoke_keeps_keys ctx inv w k :
  is_Some (state w !! k) -> is_Some (state (invoke ctx inv w) !! k).
Proof.
  intros H. induction (invoke_recordsWritten ctx inv w) as [|w' k' p _ IH _]; [done|].
  unfold written. cbn [state]. destruct (decide (k' = k)) as [->|Hne].
  - by rewrite lookup_insert_eq.
  - by rewrite lookup_insert_ne.
Qed.

(** C10: for every function of the contract, every context and every id, a
    record that exists under the id before the invocation exists under it
    afterwards. *)
Theorem invoke_keeps_records ctx inv w id :
  recordExists w id -> recordExists (invoke ctx inv w) id.
Proof.
  intros H. induction (invoke_recordsWritten ctx inv w) as [|w' k p _ IH _]; [done|].
  by apply recordExists_written.
Qed.

Lemma invoke_keeps_records_witness :
  recordExists (invoke laterContext (CallTransferOwnership "p1" "") seededWorld) "p1" /\
  recordExists (invoke laterContext (CallCreateProduct "p2" "Phone" "CompanyD" "d" "c")
                  seededWorld) "p2" /\
  recordExists (invoke laterContext CallInitLedger seededWorld) "p2".
Proof.
  repeat split; apply invoke_keeps_records; eexists; by vm_compute.
Defined.

(** ** C6: what holds of every stored record *)

(** Every value of the world state is the encoding of a record with a status
    that is not empty and an id that is empty only under the empty key. *)
Definition wellFormed (w : WorldState) : Prop :=
  forall k v, state w !! k = Some v ->
    exists p, v = json.encodeProduct p /\ Status p <> "" /\ (k <> "" -> ID p <> "").

(** The worlds that sequences of invocations reach from the empty world. *)
Inductive reachable : WorldState -> Prop :=
| reachable_empty : reachable emptyWorld
| reachable_invoke w ctx inv : reachable w -> reachable (invoke ctx inv w).

(** No function of the contract looks at the id it is given: it hands it to
    [GetState] and [PutState] as the key, so that whether a record can be
    stored with an empty id is decided by the stub, which is not part of
    this repository.  The stub of Fabric refuses a write under the empty
    key; a context whose stub does so: *)
Definition refusesEmptyKey (ctx : TransactionContext) : Prop :=
  forall value, putStateErr ctx "" value <> None.

(** The worlds that sequences of invocations reach from the empty world in
    contexts that satisfy [accepted]. *)
Inductive reachableWith (accepted : TransactionContext -> Prop) : WorldState -> Prop :=
| reachableWith_empty : reachableWith accepted emptyWorld
| reachableWith_invoke w ctx inv :
    reachableWith accepted w -> accepted ctx -> reachableWith accepted (invoke ctx inv w).

(** [exampleContext] with a stub that refuses the empty key. *)
Definition strictContext : TransactionContext :=
  mkContext (Ok (1700000000, 0)) (fun _ => None)
    (fun key _ => if String.eqb key "" then Some "key must not be an empty string" else None)
    None (fun _ => None) (fun _ => 0).

Lemma Unmarshal_wellFormed w k v r :
  wellFormed w -> state w !! k = Some v -> json.Unmarshal v = Ok r ->
  Status r <> "" /\ (k <> "" -> ID r <> "").
Proof.
  intros Hw Hv Hr. destruct (Hw k v Hv) as (p & -> & Hs & Hid).
  rewrite Unmarshal_encodeProduct in Hr. injection Hr as <-. cbn.
  split.
  - intros E. apply (proj1 (coerce_empty _)) in E. contradiction.
  - intros Hk E. apply (proj1 (coerce_empty _)) in E. by apply Hid.
Qed.

Lemma writtenBy_wellFormed ctx w k p :
  wellFormed w -> writtenBy ctx w k p -> Status p <> "" /\ (k <> "" -> ID p <> "").
Proof.
  intros Hw [(curTime & Hin & ->)|[(<- & Hs)|(r & v & Hv & Hr & Hid & _ & _ & Hs)]].
  - cbn in Hin. destruct Hin as [<-|[<-|[]]]; by cbn.
  - rewrite Hs. done.
  - apply stored_Some in Hv as [Hv _].
    destruct (Unmarshal_wellFormed w k v r Hw Hv Hr) as [Hs' Hid'].
    split; [destruct Hs as [->|?]; done|]. rewrite Hid. done.
Qed.

Lemma wellFormed_written w k p :
  wellFormed w -> Status p <> "" -> (k <> "" -> ID p <> "") ->
  wellFormed (written k (json.encodeProduct p) w).
Proof.
  intros Hw Hs Hid k' v. unfold written. cbn [state].
  destruct (decide (k = k')) as [<-|Hne].
  - rewrite lookup_insert_eq. intros [= <-]. eauto.
  - rewrite lookup_insert_ne by done. apply Hw.
Qed.

Lemma invoke_wellFormed ctx inv w : wellFormed w -> wellFormed (invoke ctx inv w).
Proof.
  intros Hw. induction (invoke_recordsWritten ctx inv w) as [|w' k p _ IH HP]; [done|].
  destruct (writtenBy_wellFormed ctx w k p Hw HP). by apply wellFormed_written.
Qed.

Lemma reachable_wellFormed w : reachable w -> wellFormed w.
Proof.
  induction 1 as [|w ctx inv _ IH]; [|by apply invoke_wellFormed].
  intros k v. unfold emptyWorld. cbn [state]. by rewrite lookup_empty.
Qed.

Lemma reachableWith_reachable accepted w : reachableWith accepted w -> reachable w.
Proof. induction 1; by constructor. Qed.

(** A [PutState] in a context that refuses the empty key leaves the empty
    key as it was. *)
Lemma PutState_empty_key ctx k v w :
  refusesEmptyKey ctx -> state (snd (PutState ctx k v w)) !! "" = state w !! "".
Proof.
  intros Hc. unfold PutState. destruct (putStateErr ctx k v) eqn:E; [done|].
  assert (Hk : k <> "") by (intros ->; by apply (Hc v)).
  cbn [snd state]. destruct v; [by rewrite lookup_delete_ne|by rewrite lookup_insert_ne].
Qed.

Lemma invoke_empty_key ctx inv w :
  refusesEmptyKey ctx -> state (invoke ctx inv w) !! "" = state w !! "".
Proof.
  intros Hc. destruct inv; cbn [invoke];
    rewrite ?ProductExists_world, ?QueryProduct_world, ?GetAllProducts_world; try done.
  - unfold InitLedger, bind.
    destruct (getTimestamp_cases ctx w) as [(sec & nanos & _ & ->)|(e & ->)]; [|done].
    unfold initialAssets. cbn [putAssets]. unfold bind, orErrorf, liftJSON, json.Marshal, ret.
    cbn [ID].
    match goal with |- context [PutState ctx "p1" ?v w] =>
      pose proof (PutState_empty_key ctx "p1" v w Hc) as H1;
      destruct (PutState ctx "p1" v w) as [[[]|e1] w1] end; [|exact H1].
    cbn [snd] in H1. rewrite <- H1.
    match goal with |- context [PutState ctx "p2" ?v w1] =>
      pose proof (PutState_empty_key ctx "p2" v w1 Hc) as H2;
      destruct (PutState ctx "p2" v w1) as [[[]|e2] w2] end; exact H2.
  - unfold CreateProduct, bind.
    destruct (getTimestamp_cases ctx w) as [(sec & nanos & _ & ->)|(e & ->)]; [|done].
    pose proof (ProductExists_world ctx id w) as Hw.
    destruct (ProductExists ctx id w) as [[[|]|e] w1]; cbn [snd] in Hw; subst w1; try done.
    unfold liftJSON, json.Marshal, ret. rewrite orReturn_world. by apply PutState_empty_key.
  - unfold UpdateProduct, bind.
    destruct (getTimestamp_cases ctx w) as [(sec & nanos & _ & ->)|(e & ->)]; [|done].
    destruct (QueryProduct_cases ctx id w) as [(r & v & -> & _)|(e & ->)]; [|done].
    unfold liftJSON, json.Marshal, ret. rewrite orReturn_world. by apply PutState_empty_key.
  - unfold TransferOwnership, bind.
    destruct (getTimestamp_cases ctx w) as [(sec & nanos & _ & ->)|(e & ->)]; [|done].
    destruct (QueryProduct_cases ctx id w) as [(r & v & -> & _)|(e & ->)]; [|done].
    unfold liftJSON, json.Marshal, ret. rewrite orReturn_world. by apply PutState_empty_key.
Qed.

(** Nothing is stored under the empty key when every stub refused it. *)
Lemma reachableWith_empty_key w : reachableWith refusesEmptyKey w -> state w !! "" = None.
Proof.
  induction 1 as [|w ctx inv _ IH Hc]; [done|]. by rewrite invoke_empty_key.
Qed.

Lemma refusesEmptyKey_strictContext : refusesEmptyKey strictContext.
Proof. intros value. discriminate. Qed.

(** The premise on the stub is used: the contract itself accepts the empty
    id, and with a stub that accepts the empty key ([exampleContext]) a
    creation under it stores a record with an empty id. *)
Lemma CreateProduct_unchecked_id :
  fst (QueryProduct exampleContext ""
         (invoke exampleContext (CallCreateProduct "" "Laptop" "CompanyA" "" "") emptyWorld))
  = Ok (mkProduct "" "Laptop" "Manufactured" "CompanyA" "2023-11-14T22:13:20Z"
          "2023-11-14T22:13:20Z" "" "") /\
  invoke strictContext (CallCreateProduct "" "Laptop" "CompanyA" "" "") emptyWorld = emptyWorld.
Proof. split; by vm_compute. Qed.

(** C6, as amended: in every world that a sequence of invocations reaches
    from the empty world, in contexts whose stub refuses the empty key, every
    stored value decodes to a record whose id is not empty and whose status
    is not empty.  Name and owner can be empty: no function checks them. *)
Theorem reachable_records w k v :
  reachableWith refusesEmptyKey w -> state w !! k = Some v ->
  exists r, json.Unmarshal v = Ok r /\ ID r <> "" /\ Status r <> "".
Proof.
  intros Hw Hv. pose proof (reachable_wellFormed w (reachableWith_reachable _ w Hw)) as Hwf.
  destruct (Hwf k v Hv) as (p & -> & _). eexists. split; [apply Unmarshal_encodeProduct|].
  destruct (Unmarshal_wellFormed w k _ _ Hwf Hv (Unmarshal_encodeProduct p)) as [Hs Hid].
  split; [|done]. apply Hid. intros ->.
  by rewrite (reachableWith_empty_key w Hw) in Hv.
Qed.

Lemma reachable_records_witness :
  exists r,
    json.Unmarshal (json.encodeProduct (mkProduct "p9" "" "Manufactured" ""
      "2023-11-14T22:13:20Z" "2023-11-14T22:13:20Z" "" "")) = Ok r /\
    ID r <> "" /\ Status r <> "".
Proof.
  apply (reachable_records
           (invoke strictContext (CallCreateProduct "" "Laptop" "CompanyA" "" "")
              (invoke strictContext (CallCreateProduct "p9" "" "" "" "") emptyWorld)) "p9").
  - apply reachableWith_invoke; [|apply refusesEmptyKey_strictContext].
    apply reachableWith_invoke; [|apply refusesEmptyKey_strictContext].
    apply reachableWith_empty.
  - by vm_compute.
Defined.

(** C6, as stated, fails: a product created with an empty name and an empty
    owner is stored with them, also by a stub that refuses the empty key. *)
Lemma CreateProduct_empty_name_owner :
  reachableWith refusesEmptyKey
    (invoke strictContext (CallCreateProduct "p9" "" "" "" "") emptyWorld) /\
  fst (QueryProduct strictContext "p9"
         (invoke strictContext (CallCreateProduct "p9" "" "" "" "") emptyWorld))
  = Ok (mkProduct "p9" "" "Manufactured" "" "2023-11-14T22:13:20Z" "2023-11-14T22:13:20Z"
          "" "") /\
  Name (mkProduct "p9" "" "Manufactured" "" "2023-11-14T22:13:20Z" "2023-11-14T22:13:20Z"
          "" "") = "" /\
  Owner (mkProduct "p9" "" "Manufactured" "" "2023-11-14T22:13:20Z" "2023-11-14T22:13:20Z"
          "" "") = "".
Proof.
  split.
  { apply reachableWith_invoke; [apply reachableWith_empty|].
    apply refusesEmptyKey_strictContext. }
  split; [by vm_compute|]. by split.
Qed.

(** * Further properties of the contract *)

(** ** Steps shared by the properties below *)

Lemma coerce_ValidString s : utf8.ValidString (coerce s) = true.
Proof.
  pose proof (Unmarshal_valid _ _ (Unmarshal_encodeProduct (mkProduct s "" "" "" "" "" "" "")))
    as H.
  apply H.
Qed.

Lemma coerce_idempotent s : coerce (coerce s) = coerce s.
Proof. apply coerce_valid, coerce_ValidString. Qed.

(** A write of an encoded record succeeds, or fails and changes nothing. *)
Lemma PutState_encodeProduct ctx k p w :
  PutState ctx k (json.encodeProduct p) w
  = match putStateErr ctx k (json.encodeProduct p) with
    | Some e => (Err e, w)
    | None => (Ok tt, written k (json.encodeProduct p) w)
    end.
Proof.
  destruct (putStateErr ctx k (json.encodeProduct p)) as [e|] eqn:E.
  - unfold PutState. by rewrite E.
  - apply PutState_ok; [done|apply encodeProduct_nonempty].
Qed.

(** The record that [UpdateProduct] writes over [r]. *)
Definition updatedAsset (r : Product) (newStatus newOwner newDescription newCategory
    curTime : string) : Product :=
  mkProduct (ID r) (Name r) (updated newStatus (Status r)) (updated newOwner (Owner r))
    (CreatedAt r) curTime (updated newDescription (Description r))
    (updated newCategory (Category r)).

(** The record that [TransferOwnership] writes over [r]. *)
Definition transferredAsset (r : Product) (newOwner curTime : string) : Product :=
  mkProduct (ID r) (Name r) (Status r) newOwner (CreatedAt r) curTime (Description r)
    (Category r).

(** [UpdateProduct] once the timestamp is derived and the query has returned
    [r]: what is left is the write. *)
Lemma UpdateProduct_write ctx id newStatus newOwner newDescription newCategory w sec nanos r :
  txTimestamp ctx = Ok (sec, nanos) ->
  QueryProduct ctx id w = (Ok r, w) ->
  UpdateProduct ctx id newStatus newOwner newDescription newCategory w
  = orReturn (PutState ctx id (json.encodeProduct
      (updatedAsset r newStatus newOwner newDescription newCategory
         (curTimeOf ctx sec nanos)))) w.
Proof.
  intros Hts Hq. unfold UpdateProduct, bind. rewrite (getTimestamp_ok _ _ _ _ Hts), Hq.
  unfold liftJSON, json.Marshal, ret, updatedAsset.
  by rewrite <- (UpdateProduct_asset r newStatus newOwner newDescription newCategory).
Qed.

Lemma TransferOwnership_write ctx id newOwner w sec nanos r :
  txTimestamp ctx = Ok (sec, nanos) ->
  QueryProduct ctx id w = (Ok r, w) ->
  TransferOwnership ctx id newOwner w
  = orReturn (PutState ctx id (json.encodeProduct
      (transferredAsset r newOwner (curTimeOf ctx sec nanos)))) w.
Proof.
  intros Hts Hq. unfold TransferOwnership, bind. rewrite (getTimestamp_ok _ _ _ _ Hts), Hq.
  unfold liftJSON, json.Marshal, ret, transferredAsset. by destruct r.
Qed.

Lemma CreateProduct_write ctx id name owner description category w sec nanos :
  txTimestamp ctx = Ok (sec, nanos) ->
  getStateErr ctx id = None -> stored w id = None ->
  CreateProduct ctx id name owner description category w
  = orReturn (PutState ctx id (json.encodeProduct
      (mkProduct id name "Manufactured" owner (curTimeOf ctx sec nanos)
         (curTimeOf ctx sec nanos) description category))) w.
Proof.
  intros Hts Hget Hs. unfold CreateProduct, bind. rewrite (getTimestamp_ok _ _ _ _ Hts).
  rewrite ProductExists_ok, Hs by done. reflexivity.
Qed.

Lemma orReturn_PutState ctx k p w :
  orReturn (PutState ctx k (json.encodeProduct p)) w
  = match putStateErr ctx k (json.encodeProduct p) with
    | Some e => (Err (StubError e), w)
    | None => (Ok tt, written k (json.encodeProduct p) w)
    end.
Proof.
  unfold orReturn. rewrite PutState_encodeProduct.
  by destruct (putStateErr ctx k (json.encodeProduct p)).
Qed.

(** A query that fails leaves the world state as it was. *)
Lemma QueryProduct_err_world ctx id w e w' :
  QueryProduct ctx id w = (Err e, w') -> w' = w.
Proof. intros H. pose proof (QueryProduct_world ctx id w) as Hw. by rewrite H in Hw. Qed.

Lemma ProductExists_cases ctx id w :
  (exists e, getStateErr ctx id = Some e /\
     ProductExists ctx id w = (Err (StoreReadError e), w)) \/
  (getStateErr ctx id = None /\
     ProductExists ctx id w
     = (Ok (match stored w id with Some _ => true | None => false end), w)).
Proof.
  destruct (getStateErr ctx id) as [e|] eqn:E.
  - left. exists e. split; [done|]. by apply ProductExists_err.
  - right. split; [done|]. by apply ProductExists_ok.
Qed.

(** ** The timestamp comes first *)

(** A context whose transaction has no timestamp. *)
Definition clocklessContext : TransactionContext :=
  mkContext (Err "no timestamp") (fun _ => None) (fun _ _ => None) None (fun _ => None)
    (fun _ => 0).

(** X1: the four functions that write derive the timestamp before anything
    else.  When the stub has no timestamp each of them fails with the clock
    error, whatever its arguments and whatever the world state holds, and
    leaves the world state as it was. *)
Theorem writers_need_timestamp ctx w e :
  txTimestamp ctx = Err e ->
  InitLedger ctx w = (Err (ClockError e), w) /\
  (forall id name owner description category,
     CreateProduct ctx id name owner description category w = (Err (ClockError e), w)) /\
  (forall id newStatus newOwner newDescription newCategory,
     UpdateProduct ctx id newStatus newOwner newDescription newCategory w
     = (Err (ClockError e), w)) /\
  (forall id newOwner, TransferOwnership ctx id newOwner w = (Err (ClockError e), w)).
Proof.
  intros H. repeat split; intros;
    unfold InitLedger, CreateProduct, UpdateProduct, TransferOwnership, bind;
    by rewrite (getTimestamp_err _ _ _ H).
Qed.

Lemma writers_need_timestamp_witness :
  CreateProduct clocklessContext "p1" "Laptop" "CompanyZ" "d" "c" seededWorld
  = (Err (ClockError "no timestamp"), seededWorld) /\
  TransferOwnership clocklessContext "p7" "CompanyZ" seededWorld
  = (Err (ClockError "no timestamp"), seededWorld).
Proof.
  destruct (writers_need_timestamp clocklessContext seededWorld "no timestamp" eq_refl)
    as (_ & Hc & _ & Ht).
  split; [apply Hc|apply Ht].
Defined.

(** ** One write, or none *)

(** The error that an invocation returns, if any. *)
Definition errorOf {A} (r : result error A * WorldState) : option error :=
  match fst r with
  | Ok _ => None
  | Err e => Some e
  end.

Definition invokeError (ctx : TransactionContext) (inv : Invocation) (w : WorldState)
  : option error :=
  match inv with
  | CallInitLedger => errorOf (InitLedger ctx w)
  | CallCreateProduct id name owner description category =>
      errorOf (CreateProduct ctx id name owner description category w)
  | CallUpdateProduct id newStatus newOwner newDescription newCategory =>
      errorOf (UpdateProduct ctx id newStatus newOwner newDescription newCategory w)
  | CallTransferOwnership id newOwner => errorOf (TransferOwnership ctx id newOwner w)
  | CallQueryProduct id => errorOf (QueryProduct ctx id w)
  | CallProductExists id => errorOf (ProductExists ctx id w)
  | CallGetAllProducts => errorOf (GetAllProducts ctx w)
  end.

(** The keys that an invocation can write. *)
Definition targets (inv : Invocation) : list string :=
  match inv with
  | CallInitLedger => ["p1"; "p2"]
  | CallCreateProduct id _ _ _ _ => [id]
  | CallUpdateProduct id _ _ _ _ => [id]
  | CallTransferOwnership id _ => [id]
  | _ => []
  end.

Lemma orReturn_PutState_outcome ctx id p w :
  (errorOf (orReturn (PutState ctx id (json.encodeProduct p)) w) <> None /\
   snd (orReturn (PutState ctx id (json.encodeProduct p)) w) = w) \/
  (errorOf (orReturn (PutState ctx id (json.encodeProduct p)) w) = None /\
   snd (orReturn (PutState ctx id (json.encodeProduct p)) w)
   = written id (json.encodeProduct p) w).
Proof.
  rewrite orReturn_PutState. destruct (putStateErr ctx id _); [left|right]; done.
Qed.

(** Every invocation but [InitLedger] fails and leaves the world state as it
    was, or succeeds and makes no write (the three that only read) or one
    write, under the id it was given. *)
Lemma invoke_outcome ctx inv w :
  inv <> CallInitLedger ->
  (invokeError ctx inv w <> None /\ invoke ctx inv w = w) \/
  (invokeError ctx inv w = None /\
   (invoke ctx inv w = w /\ targets inv = [] \/
    exists id p, targets inv = [id] /\ invoke ctx inv w = written id (json.encodeProduct p) w)).
Proof.
  intros Hinv. destruct inv; [done| | | | | |]; cbn [invoke invokeError targets].
  - destruct (getTimestamp_cases ctx w) as [(sec & nanos & Hts & Ht)|(e & Ht)].
    + destruct (ProductExists_cases ctx id w) as [(e & Hg & He)|(Hg & He)].
      * left. unfold CreateProduct, bind, errorOf. by rewrite Ht, He.
      * destruct (stored w id) as [v|] eqn:Hs.
        -- left. unfold CreateProduct, bind, errorOf. by rewrite Ht, He.
        -- rewrite (CreateProduct_write _ _ _ _ _ _ _ _ _ Hts Hg Hs).
           destruct (orReturn_PutState_outcome ctx id
             (mkProduct id name "Manufactured" owner (curTimeOf ctx sec nanos)
                (curTimeOf ctx sec nanos) description category) w) as [H|[H1 H2]];
             [by left|right]. split; [done|]. right. eauto.
    + left. unfold CreateProduct, bind, errorOf. by rewrite Ht.
  - destruct (getTimestamp_cases ctx w) as [(sec & nanos & Hts & Ht)|(e & Ht)].
    + destruct (QueryProduct_cases ctx id w) as [(r & v & Hq & _)|(e & Hq)].
      * rewrite (UpdateProduct_write _ _ _ _ _ _ _ _ _ _ Hts Hq).
        destruct (orReturn_PutState_outcome ctx id
          (updatedAsset r newStatus newOwner newDescription newCategory
             (curTimeOf ctx sec nanos)) w) as [H|[H1 H2]]; [by left|right].
        split; [done|]. right. eauto.
      * left. unfold UpdateProduct, bind, errorOf. by rewrite Ht, Hq.
    + left. unfold UpdateProduct, bind, errorOf. by rewrite Ht.
  - destruct (getTimestamp_cases ctx w) as [(sec & nanos & Hts & Ht)|(e & Ht)].
    + destruct (QueryProduct_cases ctx id w) as [(r & v & Hq & _)|(e & Hq)].
      * rewrite (TransferOwnership_write _ _ _ _ _ _ _ Hts Hq).
        destruct (orReturn_PutState_outcome ctx id
          (transferredAsset r newOwner (curTimeOf ctx sec nanos)) w) as [H|[H1 H2]];
          [by left|right].
        split; [done|]. right. eauto.
      * left. unfold TransferOwnership, bind, errorOf. by rewrite Ht, Hq.
    + left. unfold TransferOwnership, bind, errorOf. by rewrite Ht.
  - rewrite QueryProduct_world. destruct (errorOf _); [left|right]; auto.
  - rewrite ProductExists_world. destruct (errorOf _); [left|right]; auto.
  - rewrite GetAllProducts_world. destruct (errorOf _); [left|right]; auto.
Qed.

(** The functions that only read. *)
Definition readOnly (inv : Invocation) : bool :=
  match inv with
  | CallQueryProduct _ | CallProductExists _ | CallGetAllProducts => true
  | _ => false
  end.

Lemma targets_readOnly inv : targets inv = [] <-> readOnly inv = true.
Proof. by destruct inv. Qed.

(** X2: an invocation of any function but [InitLedger] that returns an error
    has made no write.  One that succeeds has made no write if the function
    is one of the three that only read, and otherwise exactly one write, of
    an encoded record under the id it was given. *)
Theorem invoke_one_write_or_none ctx inv w :
  inv <> CallInitLedger ->
  (forall e, invokeError ctx inv w = Some e -> invoke ctx inv w = w) /\
  (invokeError ctx inv w = None ->
   (readOnly inv = true /\ invoke ctx inv w = w) \/
   (readOnly inv = false /\
    exists id p, targets inv = [id] /\
      invoke ctx inv w = written id (json.encodeProduct p) w /\
      writes (invoke ctx inv w) = writes w ++ [(id, json.encodeProduct p)])).
Proof.
  intros Hinv. destruct (invoke_outcome ctx inv w Hinv) as [[He Hw]|[He Hw]].
  - split; [done|]. intros E. by rewrite E in He.
  - split; [intros e E; by rewrite E in He|]. intros _.
    destruct Hw as [[Hw Ht]|(id & p & Ht & Hw)].
    + left. split; [by apply targets_readOnly|done].
    + right. split.
      * destruct (readOnly inv) eqn:E; [|done].
        apply targets_readOnly in E. by rewrite E in Ht.
      * exists id, p. split; [done|]. split; [done|]. by rewrite Hw.
Qed.

(** A context whose writes are refused. *)
Definition readOnlyContext : TransactionContext :=
  mkContext (Ok (1700003600, 0)) (fun _ => None) (fun _ _ => Some "write refused") None
    (fun _ => None) (fun _ => 0).

Lemma invoke_one_write_or_none_witness :
  (invokeError readOnlyContext (CallTransferOwnership "p1" "CompanyZ") seededWorld
   = Some (StubError "write refused") /\
   invoke readOnlyContext (CallTransferOwnership "p1" "CompanyZ") seededWorld = seededWorld) /\
  ((readOnly (CallTransferOwnership "p1" "CompanyZ") = true /\
    invoke laterContext (CallTransferOwnership "p1" "CompanyZ") seededWorld = seededWorld) \/
   (readOnly (CallTransferOwnership "p1" "CompanyZ") = false /\
    exists id p,
      targets (CallTransferOwnership "p1" "CompanyZ") = [id] /\
      invoke laterContext (CallTransferOwnership "p1" "CompanyZ") seededWorld
      = written id (json.encodeProduct p) seededWorld /\
      writes (invoke laterContext (CallTransferOwnership "p1" "CompanyZ") seededWorld)
      = writes seededWorld ++ [(id, json.encodeProduct p)])).
Proof.
  assert (H : CallTransferOwnership "p1" "CompanyZ" <> CallInitLedger) by discriminate.
  split.
  - pose proof (invoke_one_write_or_none readOnlyContext
                  (CallTransferOwnership "p1" "CompanyZ") seededWorld H) as [Herr _].
    assert (E : invokeError readOnlyContext (CallTransferOwnership "p1" "CompanyZ") seededWorld
                = Some (StubError "write refused")) by (by vm_compute).
    split; [exact E|]. exact (Herr _ E).
  - apply (invoke_one_write_or_none laterContext
             (CallTransferOwnership "p1" "CompanyZ") seededWorld H).
    by vm_compute.
Defined.

(** ** Seeding is not all or nothing *)

(** A context in which the write of p2 is refused. *)
Definition halfSeedContext : TransactionContext :=
  mkContext (Ok (1700000000, 0)) (fun _ => None)
    (fun key _ => if String.eqb key "p2" then Some "write refused" else None) None
    (fun _ => None) (fun _ => 0).

(** X3: [InitLedger] writes its records one after the other and stops at the
    first write that fails, with the error of the stub wrapped in its own
    message: when the write of p1 fails nothing is written, and when the
    write of p1 succeeds and that of p2 fails, p1 has been written. *)
Theorem InitLedger_stops_at_failed_write ctx w sec nanos :
  txTimestamp ctx = Ok (sec, nanos) ->
  let curTime := curTimeOf ctx sec nanos in
  let p1 := mkProduct "p1" "Laptop" "Manufactured" "CompanyA" curTime curTime
              "High-end gaming laptop" "Electronics" in
  let p2 := mkProduct "p2" "Smartphone" "Manufactured" "CompanyB" curTime curTime
              "Latest model smartphone" "Electronics" in
  (forall e, putStateErr ctx "p1" (json.encodeProduct p1) = Some e ->
     InitLedger ctx w = (Err (Errorf ("failed to put to world state. " +:+ e)), w)) /\
  (forall e, putStateErr ctx "p1" (json.encodeProduct p1) = None ->
     putStateErr ctx "p2" (json.encodeProduct p2) = Some e ->
     InitLedger ctx w
     = (Err (Errorf ("failed to put to world state. " +:+ e)),
        written "p1" (json.encodeProduct p1) w)).
Proof.
  intros Hts curTime p1 p2.
  assert (Hrun : InitLedger ctx w
    = bind (orErrorf "failed to put to world state. "
              (PutState ctx "p1" (json.encodeProduct p1)))
        (fun _ => bind (orErrorf "failed to put to world state. "
                          (PutState ctx "p2" (json.encodeProduct p2)))
                    (fun _ => ret tt)) w).
  { unfold InitLedger, bind at 1. by rewrite (getTimestamp_ok _ _ _ _ Hts). }
  rewrite Hrun. unfold bind, orErrorf. rewrite !PutState_encodeProduct. split.
  - intros e ->. reflexivity.
  - intros e -> H2. rewrite PutState_encodeProduct, H2. reflexivity.
Qed.

Lemma InitLedger_stops_at_failed_write_witness :
  InitLedger halfSeedContext emptyWorld
  = (Err (Errorf "failed to put to world state. write refused"),
     written "p1" (json.encodeProduct laptop) emptyWorld).
Proof.
  exact (proj2 (InitLedger_stops_at_failed_write halfSeedContext emptyWorld 1700000000 0
                  eq_refl) "write refused" eq_refl eq_refl).
Defined.

(** ** Other keys are left alone *)

Lemma written_other k v w k' : k <> k' -> state (written k v w) !! k' = state w !! k'.
Proof. intros H. unfold written. cbn [state]. by rewrite lookup_insert_ne. Qed.

Lemma InitLedger_frame ctx w k :
  k <> "p1" -> k <> "p2" -> state (snd (InitLedger ctx w)) !! k = state w !! k.
Proof.
  intros H1 H2. unfold InitLedger, bind.
  destruct (getTimestamp_cases ctx w) as [(sec & nanos & _ & ->)|(e & ->)]; [|done].
  unfold initialAssets. cbn [putAssets]. unfold bind, orErrorf, liftJSON, json.Marshal, ret.
  cbn [ID]. rewrite PutState_encodeProduct.
  destruct (putStateErr ctx "p1" _); [done|].
  rewrite PutState_encodeProduct.
  destruct (putStateErr ctx "p2" _); cbn [snd]; by rewrite ?written_other.
Qed.

(** X4: an invocation changes the value of no key but those it is given:
    p1 and p2 for [InitLedger], the id for [CreateProduct], [UpdateProduct]
    and [TransferOwnership], none for the others. *)
Theorem invoke_frame ctx inv w k :
  k ∉ targets inv -> state (invoke ctx inv w) !! k = state w !! k.
Proof.
  intros Hk.
  assert (Hinv : inv = CallInitLedger \/ inv <> CallInitLedger)
    by (destruct inv; auto; right; discriminate).
  destruct Hinv as [->|Hinv].
  - cbn [targets] in Hk. cbn [invoke]. apply InitLedger_frame.
    + intros ->. apply Hk. left.
    + intros ->. apply Hk. right. left.
  - destruct (invoke_outcome ctx inv w Hinv)
      as [[_ ->]|[_ [[-> _]|(id & p & Ht & ->)]]]; try done.
    rewrite Ht in Hk. apply written_other. intros ->. apply Hk. left.
Qed.

Lemma invoke_frame_witness :
  state (invoke laterContext (CallTransferOwnership "p1" "CompanyZ") seededWorld) !! "p2"
  = state seededWorld !! "p2".
Proof.
  apply (invoke_frame laterContext (CallTransferOwnership "p1" "CompanyZ") seededWorld "p2").
  cbn [targets]. intros H. inversion H as [|? ? ? H']. inversion H'.
Defined.

(** ** An id is created once *)

(** A sequence of invocations, each in its own context. *)
Fixpoint invokeAll (calls : list (TransactionContext * Invocation)) (w : WorldState)
  : WorldState :=
  match calls with
  | [] => w
  | (ctx, inv) :: rest => invokeAll rest (invoke ctx inv w)
  end.

Lemma invoke_recordExists ctx inv w id :
  recordExists w id -> recordExists (invoke ctx inv w) id.
Proof.
  intros H. induction (invoke_recordsWritten ctx inv w) as [|w' k p _ IH _]; [done|].
  by apply recordExists_written.
Qed.

Lemma invokeAll_recordExists calls : forall w id,
  recordExists w id -> recordExists (invokeAll calls w) id.
Proof.
  induction calls as [|[ctx inv] calls IH]; intros w id H; [done|].
  cbn [invokeAll]. by apply IH, invoke_recordExists.
Qed.

Lemma CreateProduct_recordExists ctx id name owner description category w ts :
  txTimestamp ctx = Ok ts -> getStateErr ctx id = None -> recordExists w id ->
  CreateProduct ctx id name owner description category w = (Err (AlreadyExistsError id), w).
Proof.
  intros Hts Hg (v & Hv). destruct ts as [sec nanos].
  unfold CreateProduct, bind. rewrite (getTimestamp_ok _ _ _ _ Hts).
  by rewrite ProductExists_ok, Hv.
Qed.

Lemma CreateProduct_ok_recordExists ctx id name owner description category w w' :
  CreateProduct ctx id name owner description category w = (Ok tt, w') ->
  recordExists w' id.
Proof.
  intros H.
  assert (Hinv : CallCreateProduct id name owner description category <> CallInitLedger)
    by discriminate.
  destruct (invoke_outcome ctx _ w Hinv) as [[He _]|[_ [[_ Ht]|(id' & p & Ht & Hw)]]].
  - cbn [invokeError] in He. unfold errorOf in He. by rewrite H in He.
  - done.
  - cbn [targets] in Ht. injection Ht as <-. cbn [invoke] in Hw. rewrite H in Hw.
    cbn [snd] in Hw. subst w'. eexists. apply stored_written, encodeProduct_nonempty.
Qed.

(** X5: an id that [CreateProduct] has created is never created again: after
    any sequence of invocations, in any contexts, a [CreateProduct] for the
    same id whose timestamp and read succeed fails with the already-exists
    error and writes nothing. *)
Theorem CreateProduct_once ctx w id name owner description category w1
    calls ctx' name' owner' description' category' ts :
  CreateProduct ctx id name owner description category w = (Ok tt, w1) ->
  txTimestamp ctx' = Ok ts ->
  getStateErr ctx' id = None ->
  CreateProduct ctx' id name' owner' description' category' (invokeAll calls w1)
  = (Err (AlreadyExistsError id), invokeAll calls w1).
Proof.
  intros Hc Hts Hg. eapply CreateProduct_recordExists; [done|done|].
  apply invokeAll_recordExists. eapply CreateProduct_ok_recordExists, Hc.
Qed.

Lemma CreateProduct_once_witness :
  let w1 := snd (CreateProduct exampleContext "p9" "Tablet" "CompanyC" "d" "c" seededWorld) in
  let calls := [(laterContext, CallTransferOwnership "p9" "");
                (laterContext, CallInitLedger)] in
  CreateProduct laterContext "p9" "Tablet" "CompanyD" "d" "c" (invokeAll calls w1)
  = (Err (AlreadyExistsError "p9"), invokeAll calls w1).
Proof.
  intros w1 calls.
  apply (CreateProduct_once exampleContext seededWorld "p9" "Tablet" "CompanyC" "d" "c" w1
           calls laterContext "Tablet" "CompanyD" "d" "c" (1700003600, 0));
    [by vm_compute|reflexivity|reflexivity].
Defined.

(** ** Update and transfer *)

(** X6: [UpdateProduct] and [TransferOwnership] hand on the error of the
    query as it is and write nothing: the not-found error for an id without
    a record, the error of the read, or the error of the decoder for a value
    that is not a record. *)
Theorem update_transfer_query_error ctx id w e w' ts :
  txTimestamp ctx = Ok ts ->
  QueryProduct ctx id w = (Err e, w') ->
  (forall newStatus newOwner newDescription newCategory,
     UpdateProduct ctx id newStatus newOwner newDescription newCategory w = (Err e, w)) /\
  (forall newOwner, TransferOwnership ctx id newOwner w = (Err e, w)).
Proof.
  intros Hts Hq. destruct ts as [sec nanos].
  pose proof (QueryProduct_err_world _ _ _ _ _ Hq) as ->.
  split; intros; unfold UpdateProduct, TransferOwnership, bind;
    by rewrite (getTimestamp_ok _ _ _ _ Hts), Hq.
Qed.

Lemma update_transfer_query_error_witness :
  UpdateProduct laterContext "p7" "Shipped" "" "" "" seededWorld
  = (Err (NotFoundError "p7"), seededWorld) /\
  TransferOwnership laterContext "p15" "CompanyZ" corruptWorld
  = (Err (JSONError json.SyntaxError), corruptWorld).
Proof.
  split.
  - apply (update_transfer_query_error laterContext "p7" seededWorld (NotFoundError "p7")
             seededWorld (1700003600, 0)); [reflexivity|by vm_compute].
  - apply (update_transfer_query_error laterContext "p15" corruptWorld
             (JSONError json.SyntaxError) corruptWorld (1700003600, 0));
      [reflexivity|by vm_compute].
Defined.

(** X7: for a new owner that is not empty, [TransferOwnership] is
    [UpdateProduct] with the new owner as its only argument that is not
    empty: the two return the same result and the same world state, in every
    context and world state. *)
Theorem TransferOwnership_as_UpdateProduct ctx id newOwner w :
  newOwner <> "" ->
  TransferOwnership ctx id newOwner w = UpdateProduct ctx id "" newOwner "" "" w.
Proof.
  intros Hne. unfold TransferOwnership, UpdateProduct, bind.
  destruct (getTimestamp ctx w) as [[curTime|e] w1]; [|done].
  destruct (QueryProduct ctx id w1) as [[r|e] w2]; [|done].
  cbn [String.eqb]. destruct (String.eqb_spec newOwner "") as [->|_]; [done|]. reflexivity.
Qed.

Lemma TransferOwnership_as_UpdateProduct_witness :
  TransferOwnership laterContext "p1" "CompanyZ" seededWorld
  = UpdateProduct laterContext "p1" "" "CompanyZ" "" "" seededWorld.
Proof. apply TransferOwnership_as_UpdateProduct. discriminate. Defined.

(** An update that succeeded: the timestamp was available, the query
    returned a record, and the updated record was written. *)
Lemma UpdateProduct_ok_inv ctx id newStatus newOwner newDescription newCategory w w' :
  UpdateProduct ctx id newStatus newOwner newDescription newCategory w = (Ok tt, w') ->
  exists sec nanos r,
    txTimestamp ctx = Ok (sec, nanos) /\ QueryProduct ctx id w = (Ok r, w) /\
    w' = written id (json.encodeProduct
           (updatedAsset r newStatus newOwner newDescription newCategory
              (curTimeOf ctx sec nanos))) w.
Proof.
  intros H. destruct (getTimestamp_cases ctx w) as [(sec & nanos & Hts & Ht)|(e & Ht)].
  - destruct (QueryProduct_cases ctx id w) as [(r & v & Hq & _)|(e & Hq)].
    + rewrite (UpdateProduct_write _ _ _ _ _ _ _ _ _ _ Hts Hq), orReturn_PutState in H.
      destruct (putStateErr ctx id _); [discriminate|]. injection H as <-.
      exists sec, nanos, r. done.
    + unfold UpdateProduct, bind in H. rewrite Ht, Hq in H. discriminate.
  - unfold UpdateProduct, bind in H. rewrite Ht in H. discriminate.
Qed.

Lemma QueryProduct_valid ctx id w r w' : QueryProduct ctx id w = (Ok r, w') -> validProduct r.
Proof.
  intros H. destruct (QueryProduct_inv _ _ _ _ _ H) as (_ & _ & v & _ & Hr).
  by apply Unmarshal_valid in Hr.
Qed.

(** What a query returns after the write of an updated record. *)
Lemma coerceProduct_updatedAsset r newStatus newOwner newDescription newCategory ctx sec nanos :
  validProduct r ->
  coerceProduct (updatedAsset r newStatus newOwner newDescription newCategory
                   (curTimeOf ctx sec nanos))
  = updatedAsset r (coerce newStatus) (coerce newOwner) (coerce newDescription)
      (coerce newCategory) (curTimeOf ctx sec nanos).
Proof.
  intros (V1 & V2 & V3 & V4 & V5 & V6 & V7 & V8).
  unfold coerceProduct, updatedAsset. simpl.
  rewrite !coerce_updated, coerce_curTimeOf by done.
  by rewrite (coerce_valid (ID r)), (coerce_valid (Name r)), (coerce_valid (CreatedAt r)).
Qed.

Lemma updated_empty new old : updated new old = "" -> old = "" /\ new = "".
Proof.
  unfold updated. destruct (String.eqb_spec new "") as [->|Hne]; [done|].
  intros ->. done.
Qed.

Lemma updated_nonempty new old : new <> "" -> updated new old = new.
Proof. intros H. unfold updated. by destruct (String.eqb_spec new ""). Qed.

Lemma updated_updated a2 a1 old :
  updated (coerce a2) (updated (coerce a1) old) = updated (coerce (updated a2 a1)) old.
Proof.
  destruct (String.eqb_spec a2 "") as [->|Hne]; [reflexivity|].
  assert (Hc : coerce a2 <> "") by (intros E; by apply (proj1 (coerce_empty a2)) in E).
  by rewrite (updated_nonempty a2 a1), !(updated_nonempty (coerce a2)).
Qed.

Lemma updated_valid new old :
  utf8.ValidString old = true -> utf8.ValidString (updated (coerce new) old) = true.
Proof.
  intros H. unfold updated. destruct (String.eqb _ _); [done|apply coerce_ValidString].
Qed.

(** X8: [UpdateProduct] cannot empty a field: after an update that succeeded,
    each of status, owner, description and category is empty only if it was
    empty before and the argument for it was empty. *)
Theorem UpdateProduct_never_empties ctx ctx' id newStatus newOwner newDescription newCategory
    w w' r :
  QueryProduct ctx id w = (Ok r, w) ->
  UpdateProduct ctx id newStatus newOwner newDescription newCategory w = (Ok tt, w') ->
  getStateErr ctx' id = None ->
  exists r',
    QueryProduct ctx' id w' = (Ok r', w') /\
    (Status r' = "" -> Status r = "" /\ newStatus = "") /\
    (Owner r' = "" -> Owner r = "" /\ newOwner = "") /\
    (Description r' = "" -> Description r = "" /\ newDescription = "") /\
    (Category r' = "" -> Category r = "" /\ newCategory = "").
Proof.
  intros Hq Hu Hg. pose proof (QueryProduct_valid _ _ _ _ _ Hq) as Hv.
  destruct (UpdateProduct_ok_inv _ _ _ _ _ _ _ _ Hu) as (sec & nanos & r0 & Hts & Hq0 & ->).
  rewrite Hq in Hq0. injection Hq0 as <-.
  eexists. split.
  - rewrite QueryProduct_written by done. by rewrite coerceProduct_updatedAsset.
  - unfold updatedAsset. cbn [Status Owner Description Category].
    split; [|split; [|split]]; intros H; apply updated_empty in H as [H1 H2];
      (split; [done|]); by apply (proj1 (coerce_empty _)) in H2.
Qed.

Lemma UpdateProduct_never_empties_witness :
  exists r',
    QueryProduct exampleContext "p1"
      (snd (UpdateProduct laterContext "p1" "Shipped" "" "" "" seededWorld))
    = (Ok r', snd (UpdateProduct laterContext "p1" "Shipped" "" "" "" seededWorld)) /\
    (Status r' = "" -> Status laptop = "" /\ "Shipped" = "") /\
    (Owner r' = "" -> Owner laptop = "" /\ "" = "") /\
    (Description r' = "" -> Description laptop = "" /\ "" = "") /\
    (Category r' = "" -> Category laptop = "" /\ "" = "").
Proof.
  apply (UpdateProduct_never_empties laterContext exampleContext "p1" "Shipped" "" "" ""
           seededWorld _ laptop); by vm_compute.
Defined.

(** X9: two updates in a row are one update: after [UpdateProduct] with the
    arguments [a1 .. d1] and then with [a2 .. d2], a query returns what it
    returns after one update, at the time of the second, whose argument for
    each field is the second one where that is not empty and the first one
    where it is. *)
Theorem UpdateProduct_twice ctx1 ctx2 ctx3 id a1 b1 c1 d1 a2 b2 c2 d2 w w1 w2 r sec nanos :
  QueryProduct ctx1 id w = (Ok r, w) ->
  UpdateProduct ctx1 id a1 b1 c1 d1 w = (Ok tt, w1) ->
  txTimestamp ctx2 = Ok (sec, nanos) ->
  UpdateProduct ctx2 id a2 b2 c2 d2 w1 = (Ok tt, w2) ->
  getStateErr ctx3 id = None ->
  QueryProduct ctx3 id w2
  = (Ok (updatedAsset r (coerce (updated a2 a1)) (coerce (updated b2 b1))
           (coerce (updated c2 c1)) (coerce (updated d2 d1)) (curTimeOf ctx2 sec nanos)),
     w2).
Proof.
  intros Hq Hu1 Hts2 Hu2 Hg3. pose proof (QueryProduct_valid _ _ _ _ _ Hq) as Hv.
  destruct (UpdateProduct_ok_inv _ _ _ _ _ _ _ _ Hu1) as (s1 & n1 & r0 & Hts1 & Hq0 & ->).
  rewrite Hq in Hq0. injection Hq0 as <-.
  destruct (UpdateProduct_ok_inv _ _ _ _ _ _ _ _ Hu2) as (s2 & n2 & r1 & Hts2' & Hq1 & ->).
  rewrite Hts2 in Hts2'. injection Hts2' as <- <-.
  pose proof (QueryProduct_valid _ _ _ _ _ Hq1) as Hv1.
  destruct (QueryProduct_inv _ _ _ _ _ Hq1) as (_ & Hg2 & _).
  rewrite QueryProduct_written in Hq1 by done. injection Hq1 as <-.
  rewrite QueryProduct_written by done. f_equal. f_equal.
  rewrite coerceProduct_updatedAsset by done.
  rewrite coerceProduct_updatedAsset by done.
  unfold updatedAsset. cbn [ID Name Status Owner CreatedAt UpdatedAt Description Category].
  by rewrite !updated_updated.
Qed.

Lemma UpdateProduct_twice_witness :
  let w1 := snd (UpdateProduct laterContext "p1" "Shipped" "CompanyC" "" "" seededWorld) in
  let w2 := snd (UpdateProduct laterContext "p1" "Delivered" "" "" "Computers" w1) in
  QueryProduct exampleContext "p1" w2
  = (Ok (mkProduct "p1" "Laptop" "Delivered" "CompanyC" "2023-11-14T22:13:20Z"
           "2023-11-14T23:13:20Z" "High-end gaming laptop" "Computers"), w2).
Proof.
  intros w1 w2.
  rewrite (UpdateProduct_twice laterContext laterContext exampleContext "p1"
             "Shipped" "CompanyC" "" "" "Delivered" "" "" "Computers"
             seededWorld w1 w2 laptop 1700003600 0); by vm_compute.
Defined.

(** ** The helper [putProduct] *)

(** X10: [putProduct] makes no check of existence: whatever the world state
    holds under the id of the record, when the write succeeds the record is
    written under its id and a query of that id returns it, coerced to valid
    UTF-8; when the write fails it returns the error of the stub as it is
    and writes nothing. *)
Theorem putProduct_then_QueryProduct ctx ctx' product w :
  getStateErr ctx' (ID product) = None ->
  let w' := written (ID product) (json.encodeProduct product) w in
  (putStateErr ctx (ID product) (json.encodeProduct product) = None ->
   putProduct ctx product w = (Ok tt, w') /\
   QueryProduct ctx' (ID product) w' = (Ok (coerceProduct product), w') /\
   (validProduct product -> QueryProduct ctx' (ID product) w' = (Ok product, w'))) /\
  (forall e, putStateErr ctx (ID product) (json.encodeProduct product) = Some e ->
   putProduct ctx product w = (Err (StubError e), w)).
Proof.
  intros Hg w'.
  assert (Hrun : putProduct ctx product w
                 = orReturn (PutState ctx (ID product) (json.encodeProduct product)) w)
    by reflexivity.
  rewrite Hrun, orReturn_PutState. split.
  - intros ->. split; [done|]. unfold w'. rewrite QueryProduct_written by done.
    split; [done|]. intros Hv. by rewrite coerceProduct_valid.
  - by intros e ->.
Qed.

Lemma putProduct_then_QueryProduct_witness :
  let product := mkProduct "p1" "Desktop" "Recalled" "CompanyZ" "" "" "" "" in
  let w' := written "p1" (json.encodeProduct product) seededWorld in
  putProduct laterContext product seededWorld = (Ok tt, w') /\
  QueryProduct exampleContext "p1" w' = (Ok product, w').
Proof.
  intros product w'.
  destruct (putProduct_then_QueryProduct laterContext exampleContext product seededWorld
              eq_refl) as [H _].
  destruct (H eq_refl) as (Hp & _ & Hq). split; [exact Hp|].
  apply Hq. repeat split; vm_compute; reflexivity.
Defined.

(** ** Existence and query agree *)

(** X11: [ProductExists] returns false exactly when [QueryProduct] fails with
    the not-found error, in every context and world state. *)
Theorem ProductExists_false_iff_NotFoundError ctx id w :
  ProductExists ctx id w = (Ok false, w) <->
  QueryProduct ctx id w = (Err (NotFoundError id), w).
Proof.
  destruct (getStateErr ctx id) as [e|] eqn:Hg.
  - rewrite (ProductExists_err _ _ _ _ Hg).
    assert (Hq : QueryProduct ctx id w = (Err (StoreReadError e), w)).
    { unfold QueryProduct, bind, orErrorf, GetState. by rewrite Hg. }
    rewrite Hq. split; [discriminate|]. unfold StoreReadError, NotFoundError.
    intros [=].
  - rewrite (ProductExists_ok _ _ _ Hg). destruct (stored w id) as [v|] eqn:Hs.
    + rewrite (QueryProduct_found _ _ _ _ Hg Hs). split; [discriminate|].
      destruct (json.Unmarshal v); discriminate.
    + by rewrite (QueryProduct_absent _ _ _ Hg Hs).
Qed.

(** ** The encoding *)

Section encoding_facts.
Import json.

(** X12: every record that decoding gives is stable: encoding it and
    decoding the result gives the same record, field for field.  So a record
    that a query returned is read back exactly after it is written again. *)
Theorem Unmarshal_stable data r :
  Unmarshal data = Ok r -> Unmarshal (encodeProduct r) = Ok r.
Proof. intros H. apply Unmarshal_Marshal_valid. by apply Unmarshal_valid in H. Qed.

Lemma Unmarshal_stable_witness :
  Unmarshal (encodeProduct (mkProduct replacementRune "" "" "" "" "" "" ""))
  = Ok (mkProduct replacementRune "" "" "" "" "" "" "").
Proof.
  apply (Unmarshal_stable (encodeProduct (mkProduct invalidByte "" "" "" "" "" "" ""))).
  by vm_compute.
Defined.

(** X13: two records of valid UTF-8 with the same encoding are the same
    record. *)
Theorem encodeProduct_injective p q :
  validProduct p -> validProduct q -> encodeProduct p = encodeProduct q -> p = q.
Proof.
  intros Hp Hq E. apply Unmarshal_Marshal_valid in Hp, Hq. rewrite E in Hp.
  rewrite Hp in Hq. by injection Hq.
Qed.

Lemma encodeProduct_injective_witness : coerceProduct laptop = laptop.
Proof.
  apply encodeProduct_injective; [| |by vm_compute]; repeat split; by vm_compute.
Defined.

End encoding_facts.

(** ** Records and their keys *)

(** Every value of the world state is the encoding of a record whose id is
    the key, up to the coercion to valid UTF-8. *)
Definition keyed (w : WorldState) : Prop :=
  forall k v, state w !! k = Some v ->
    exists p, v = json.encodeProduct p /\ coerce (ID p) = coerce k.

Lemma writtenBy_keyed ctx w k p : keyed w -> writtenBy ctx w k p -> coerce (ID p) = coerce k.
Proof.
  intros Hw [(curTime & _ & ->)|[(<- & _)|(r & v & Hv & Hr & Hid & _)]]; [done|done|].
  apply stored_Some in Hv as [Hv _]. destruct (Hw k v Hv) as (p0 & -> & Hp0).
  rewrite Unmarshal_encodeProduct in Hr. injection Hr as <-.
  rewrite Hid. cbn [coerceProduct ID]. by rewrite coerce_idempotent.
Qed.

Lemma keyed_written w k p :
  keyed w -> coerce (ID p) = coerce k -> keyed (written k (json.encodeProduct p) w).
Proof.
  intros Hw Hid k' v. unfold written. cbn [state].
  destruct (decide (k = k')) as [<-|Hne].
  - rewrite lookup_insert_eq. intros [= <-]. eauto.
  - rewrite lookup_insert_ne by done. apply Hw.
Qed.

Lemma invoke_keyed ctx inv w : keyed w -> keyed (invoke ctx inv w).
Proof.
  intros Hw. induction (invoke_recordsWritten ctx inv w) as [|w' k p _ IH HP]; [done|].
  apply keyed_written; [done|]. by apply (writtenBy_keyed ctx w).
Qed.

Lemma reachable_keyed w : reachable w -> keyed w.
Proof.
  induction 1 as [|w ctx inv _ IH]; [|by apply invoke_keyed].
  intros k v. unfold emptyWorld. cbn [state]. by rewrite lookup_empty.
Qed.

Lemma keyed_Unmarshal w k v :
  keyed w -> state w !! k = Some v ->
  exists r, json.Unmarshal v = Ok r /\ ID r = coerce k.
Proof.
  intros Hw Hv. destruct (Hw k v Hv) as (p & -> & Hp).
  eexists. split; [apply Unmarshal_encodeProduct|]. done.
Qed.

(** X14: in every world state that invocations of the contract reach from
    the empty one, the record that a query of an id returns carries that id:
    the id coerced to valid UTF-8, which is the id itself when it is valid
    UTF-8.  No function stores a record under a key other than its id. *)
Theorem reachable_QueryProduct_id w ctx id r w' :
  reachable w ->
  QueryProduct ctx id w = (Ok r, w') ->
  ID r = coerce id /\ (utf8.ValidString id = true -> ID r = id).
Proof.
  intros Hw Hq. destruct (QueryProduct_inv _ _ _ _ _ Hq) as (_ & _ & v & Hv & Hr).
  apply stored_Some in Hv as [Hv _].
  destruct (keyed_Unmarshal w id v (reachable_keyed w Hw) Hv) as (r' & Hr' & Hid).
  rewrite Hr in Hr'. injection Hr' as <-. split; [done|].
  intros H. by rewrite Hid, coerce_valid.
Qed.

Lemma reachable_QueryProduct_id_witness :
  ID laptop = coerce "p1" /\ (utf8.ValidString "p1" = true -> ID laptop = "p1").
Proof.
  apply (reachable_QueryProduct_id (invoke exampleContext CallInitLedger emptyWorld)
           exampleContext "p1" laptop (invoke exampleContext CallInitLedger emptyWorld)).
  - apply reachable_invoke, reachable_empty.
  - by vm_compute.
Defined.

(** ** Listing *)

Lemma decodeAll_Forall2 l ps :
  decodeAll l = Ok ps <-> Forall2 (fun kv p => json.Unmarshal (snd kv) = Ok p) l ps.
Proof.
  split; [|apply decodeAll_all].
  revert ps. induction l as [|kv l IH]; intros ps H; cbn [decodeAll] in H.
  { injection H as <-. constructor. }
  destruct (json.Unmarshal (snd kv)) as [p|e] eqn:Hp; [|discriminate].
  destruct (decodeAll l) as [qs|e]; [|discriminate]. injection H as <-.
  constructor; [done|]. by apply IH.
Qed.

(** A listing that succeeded: the scan was opened and every value decoded. *)
Lemma collect_ok ctx l : forall i acc ps,
  collect ctx i l acc = Ok ps -> exists qs, ps = acc ++ qs /\ decodeAll l = Ok qs.
Proof.
  induction l as [|kv l IH]; intros i acc ps H; cbn [collect decodeAll] in *.
  { injection H as <-. exists []. by rewrite app_nil_r. }
  destruct (nextErr ctx i); [discriminate|].
  destruct (json.Unmarshal (snd kv)) as [p|e]; [|discriminate].
  apply IH in H as (qs & -> & ->). exists (p :: qs). by rewrite <- app_assoc.
Qed.

Lemma GetAllProducts_ok ctx w ps w' :
  GetAllProducts ctx w = (Ok ps, w') -> w' = w /\ decodeAll (entries w) = Ok ps.
Proof.
  unfold GetAllProducts, bind, orReturn, GetStateByRange.
  destruct (rangeErr ctx); [discriminate|]. fold (entries w).
  destruct (collect ctx 0 (entries w) []) as [qs|e] eqn:E; [|discriminate].
  intros [= <- <-]. apply collect_ok in E as (qs' & -> & ->). done.
Qed.

(** X15: a listing that succeeds returns, key by key in ascending order, the
    records that [QueryProduct] returns: one for every key that has a value,
    so that every record a query finds is in the list. *)
Theorem GetAllProducts_agrees_with_QueryProduct ctx ctx' w ps w' :
  GetAllProducts ctx w = (Ok ps, w') ->
  (forall k, getStateErr ctx' k = None) ->
  Forall2 (fun kv p => QueryProduct ctx' (fst kv) w = (Ok p, w)) (entries w) ps /\
  (forall id r, QueryProduct ctx' id w = (Ok r, w) -> r ∈ ps).
Proof.
  intros H Hg. apply GetAllProducts_ok in H as [_ H]. apply decodeAll_Forall2 in H.
  assert (HF : Forall2 (fun kv p => QueryProduct ctx' (fst kv) w = (Ok p, w)) (entries w) ps).
  { pose proof (fun k v => proj1 (elem_of_entries w k v)) as Hin.
    induction H as [|[k v] p l qs Hp _ IH]; constructor.
    - cbn [fst snd] in *. erewrite QueryProduct_found; [by rewrite Hp|done|].
      apply stored_Some, Hin. left.
    - apply IH. intros k' v' Hk. apply Hin. by right. }
  split; [exact HF|]. intros id r Hq.
  destruct (QueryProduct_inv _ _ _ _ _ Hq) as (_ & _ & v & Hv & Hr).
  apply stored_Some, elem_of_entries in Hv.
  destruct (proj1 (list_elem_of_lookup _ _) Hv) as (i & Hi).
  destruct (Forall2_lookup_l _ _ _ _ _ HF Hi) as (p & Hp & Hqp).
  cbn [fst] in Hqp. rewrite Hq in Hqp. injection Hqp as ->.
  by apply list_elem_of_lookup_2 in Hp.
Qed.

Lemma GetAllProducts_agrees_with_QueryProduct_witness :
  Forall2 (fun kv p => QueryProduct exampleContext (fst kv) seededWorld = (Ok p, seededWorld))
    (entries seededWorld) [laptop; smartphone].
Proof.
  apply (GetAllProducts_agrees_with_QueryProduct exampleContext exampleContext seededWorld
           [laptop; smartphone] seededWorld); [by vm_compute|reflexivity].
Defined.

(** X16: on a world state that invocations of the contract reach from the
    empty one no value fails to decode: a listing whose scan does not fail
    succeeds, with one record for every key, whose id is the key coerced to
    valid UTF-8 (the key itself when the key is valid UTF-8), and no query
    fails with an error of the decoder. *)
Theorem reachable_never_fails_to_decode w ctx :
  reachable w ->
  (rangeErr ctx = None -> (forall j, nextErr ctx j = None) ->
   exists ps, GetAllProducts ctx w = (Ok ps, w) /\
     Forall2 (fun kv p => ID p = coerce (fst kv) /\
                          (utf8.ValidString (fst kv) = true -> ID p = fst kv))
       (entries w) ps) /\
  (forall id e w', QueryProduct ctx id w <> (Err (JSONError e), w')).
Proof.
  intros Hw. pose proof (reachable_keyed w Hw) as Hk. split.
  - intros Hr Hn. rewrite GetAllProducts_decodeAll by done.
    assert (H : exists ps, decodeAll (entries w) = Ok ps /\
                  Forall2 (fun kv p => ID p = coerce (fst kv) /\
                                       (utf8.ValidString (fst kv) = true -> ID p = fst kv))
                    (entries w) ps).
    { pose proof (fun k v => proj1 (elem_of_entries w k v)) as Hin.
      induction (entries w) as [|[k v] l IH].
      - exists []. split; [done|constructor].
      - destruct IH as (ps & Hps & HF); [intros k' v' H'; apply Hin; by right|].
        destruct (Hin k v) as [Hv _]; [left|].
        destruct (keyed_Unmarshal w k v Hk Hv) as (r & Hr' & Hid).
        exists (r :: ps). cbn [decodeAll snd]. rewrite Hr', Hps.
        split; [done|]. constructor; [|done].
        split; [done|]. cbn [fst]. intros Hvalid. by rewrite Hid, coerce_valid. }
    destruct H as (ps & -> & HF). eauto.
  - intros id e w' Hq.
    unfold QueryProduct, bind, orErrorf, GetState in Hq. fold (stored w id) in Hq.
    destruct (getStateErr ctx id); [discriminate|].
    destruct (stored w id) as [v|] eqn:Hs; [|discriminate].
    apply stored_Some in Hs as [Hs _].
    destruct (keyed_Unmarshal w id v Hk Hs) as (r & Hr & _).
    rewrite Hr in Hq. discriminate.
Qed.

Lemma reachable_never_fails_to_decode_witness :
  exists ps,
    GetAllProducts exampleContext (invoke laterContext (CallTransferOwnership "p2" "")
                                    (invoke exampleContext CallInitLedger emptyWorld))
    = (Ok ps, invoke laterContext (CallTransferOwnership "p2" "")
                (invoke exampleContext CallInitLedger emptyWorld)) /\
    Forall2 (fun kv p => ID p = coerce (fst kv) /\
                         (utf8.ValidString (fst kv) = true -> ID p = fst kv))
      (entries (invoke laterContext (CallTransferOwnership "p2" "")
                  (invoke exampleContext CallInitLedger emptyWorld))) ps.
Proof.
  apply (reachable_never_fails_to_decode
           (invoke laterContext (CallTransferOwnership "p2" "")
              (invoke exampleContext CallInitLedger emptyWorld)) exampleContext);
    [|reflexivity|reflexivity].
  apply reachable_invoke, reachable_invoke, reachable_empty.
Defined.

(** *** A listing after a creation *)

Lemma CreateProduct_ok_inv ctx id name owner description category w w' :
  CreateProduct ctx id name owner description category w = (Ok tt, w') ->
  exists sec nanos,
    txTimestamp ctx = Ok (sec, nanos) /\ getStateErr ctx id = None /\ stored w id = None /\
    w' = written id (json.encodeProduct
           (mkProduct id name "Manufactured" owner (curTimeOf ctx sec nanos)
              (curTimeOf ctx sec nanos) description category)) w.
Proof.
  intros H. destruct (getTimestamp_cases ctx w) as [(sec & nanos & Hts & Ht)|(e & Ht)].
  - destruct (ProductExists_cases ctx id w) as [(e & Hg & He)|(Hg & He)].
    + unfold CreateProduct, bind in H. rewrite Ht, He in H. discriminate.
    + destruct (stored w id) as [v|] eqn:Hs.
      * unfold CreateProduct, bind in H. rewrite Ht, He in H. discriminate.
      * rewrite (CreateProduct_write _ _ _ _ _ _ _ _ _ Hts Hg Hs), orReturn_PutState in H.
        destruct (putStateErr ctx id _); [discriminate|]. injection H as <-.
        exists sec, nanos. done.
  - unfold CreateProduct, bind in H. rewrite Ht in H. discriminate.
Qed.






(** *** A listing that cannot be read *)

(** X18: [GetAllProducts] hands on the error of the stub as it is and returns
    no record: the error of the scan when it cannot be opened, and the error
    of the iterator at the first entry it cannot read, whatever was decoded
    before. *)
Theorem GetAllProducts_stub_errors ctx w :
  (forall e, rangeErr ctx = Some e -> GetAllProducts ctx w = (Err (StubError e), w)) /\
  (forall i e ps,
     rangeErr ctx = None ->
     (forall j, (j < i)%nat -> nextErr ctx j = None) ->
     nextErr ctx i = Some e ->
     (i < length (entries w))%nat ->
     decodeAll (take i (entries w)) = Ok ps ->
     GetAllProducts ctx w = (Err (StubError e), w)).
Proof.
  split.
  - intros e H. unfold GetAllProducts, bind, orReturn, GetStateByRange. by rewrite H.
  - intros i e ps Hr Hn He Hi Hd.
    unfold GetAllProducts, bind, orReturn, GetStateByRange. rewrite Hr. fold (entries w).
    assert (H : forall l k acc ps,
              (forall j, (j < i)%nat -> nextErr ctx (k + j)%nat = None) ->
              nextErr ctx (k + i)%nat = Some e -> (i < length l)%nat ->
              decodeAll (take i l) = Ok ps ->
              collect ctx k l acc = Err (StubError e)).
    { clear. induction i as [|i IH]; intros l k acc ps Hn He Hi Hd.
      - destruct l as [|kv l]; [cbn in Hi; lia|]. cbn [collect].
        rewrite Nat.add_0_r in He. by rewrite He.
      - destruct l as [|kv l]; [cbn in Hi; lia|]. cbn [collect take decodeAll] in *.
        simpl in Hi.
        specialize (Hn 0%nat ltac:(lia)) as Hn0. rewrite Nat.add_0_r in Hn0. rewrite Hn0.
        destruct (json.Unmarshal (snd kv)) as [p|e']; [|discriminate].
        destruct (decodeAll (take i l)) as [qs|e'] eqn:Hq; [|discriminate].
        apply (IH l (S k) _ qs); [|by rewrite Nat.add_succ_comm|lia|done].
        intros j Hj. rewrite Nat.add_succ_comm. apply Hn. lia. }
    by rewrite (H (entries w) 0%nat [] ps).
Qed.

(** A context whose iterator fails at its second entry. *)
Definition brokenIteratorContext : TransactionContext :=
  mkContext (Ok (1700000000, 0)) (fun _ => None) (fun _ _ => None) None
    (fun i => if Nat.eqb i 1 then Some "iterator closed" else None) (fun _ => 0).

Lemma GetAllProducts_stub_errors_witness :
  GetAllProducts brokenIteratorContext seededWorld
  = (Err (StubError "iterator closed"), seededWorld).
Proof.
  apply (proj2 (GetAllProducts_stub_errors brokenIteratorContext seededWorld) 1%nat
           "iterator closed" [laptop]);
    [reflexivity| |reflexivity|by vm_compute|by vm_compute].
  intros j Hj. destruct j as [|j]; [reflexivity|lia].
Defined.

(** ** Id, name and time of creation do not change *)

(** The record under [id] decodes and has the id, the name and the time of
    creation of [r]. *)
Definition sameIdentity (r : Product) (id : string) (w : WorldState) : Prop :=
  exists v r', stored w id = Some v /\ json.Unmarshal v = Ok r' /\
    ID r' = ID r /\ Name r' = Name r /\ CreatedAt r' = CreatedAt r.

Lemma TransferOwnership_ok_inv ctx id newOwner w w' :
  TransferOwnership ctx id newOwner w = (Ok tt, w') ->
  exists sec nanos r,
    txTimestamp ctx = Ok (sec, nanos) /\ QueryProduct ctx id w = (Ok r, w) /\
    w' = written id (json.encodeProduct
           (transferredAsset r newOwner (curTimeOf ctx sec nanos))) w.
Proof.
  intros H. destruct (getTimestamp_cases ctx w) as [(sec & nanos & Hts & Ht)|(e & Ht)].
  - destruct (QueryProduct_cases ctx id w) as [(r & v & Hq & _)|(e & Hq)].
    + rewrite (TransferOwnership_write _ _ _ _ _ _ _ Hts Hq), orReturn_PutState in H.
      destruct (putStateErr ctx id _); [discriminate|]. injection H as <-.
      exists sec, nanos, r. done.
    + unfold TransferOwnership, bind in H. rewrite Ht, Hq in H. discriminate.
  - unfold TransferOwnership, bind in H. rewrite Ht in H. discriminate.
Qed.

Lemma sameIdentity_frame r id w w' :
  state w' !! id = state w !! id -> sameIdentity r id w -> sameIdentity r id w'.
Proof.
  intros E (v & r' & Hs & H). exists v, r'. split; [|done].
  unfold stored in *. by rewrite E.
Qed.

(** A write, under [id], of a record with the identity of the one that was
    there. *)
Lemma sameIdentity_written r id w r0 p ctx :
  sameIdentity r id w -> QueryProduct ctx id w = (Ok r0, w) ->
  ID p = ID r0 -> Name p = Name r0 -> CreatedAt p = CreatedAt r0 ->
  sameIdentity r id (written id (json.encodeProduct p) w).
Proof.
  intros (v & r' & Hs & Hr' & H1 & H2 & H3) Hq E1 E2 E3.
  pose proof (QueryProduct_valid _ _ _ _ _ Hq) as (V1 & V2 & _ & _ & V5 & _).
  destruct (QueryProduct_inv _ _ _ _ _ Hq) as (_ & _ & v0 & Hs0 & Hr0).
  rewrite Hs in Hs0. injection Hs0 as <-. rewrite Hr' in Hr0. injection Hr0 as <-.
  exists (json.encodeProduct p), (coerceProduct p).
  split; [apply stored_written, encodeProduct_nonempty|].
  split; [apply Unmarshal_encodeProduct|].
  cbn [coerceProduct ID Name CreatedAt]. rewrite E1, E2, E3.
  by rewrite !coerce_valid.
Qed.

Lemma invoke_sameIdentity ctx inv w r id :
  id <> "p1" -> id <> "p2" -> sameIdentity r id w -> sameIdentity r id (invoke ctx inv w).
Proof.
  intros Hp1 Hp2 Hw. destruct inv as [|id'|id'|id'| | |]; cbn [invoke].
  - apply (sameIdentity_frame r id w); [|done]. by apply InitLedger_frame.
  - destruct (CreateProduct ctx id' name owner description category w) as [[[]|e] w'] eqn:E.
    + destruct (CreateProduct_ok_inv _ _ _ _ _ _ _ _ E) as (sec & nanos & _ & _ & Hs & ->).
      cbn [snd]. apply (sameIdentity_frame r id w); [|done]. apply written_other.
      intros ->. destruct Hw as (v & _ & Hv & _). congruence.
    + assert (Hinv : CallCreateProduct id' name owner description category <> CallInitLedger)
        by discriminate.
      destruct (invoke_outcome ctx _ w Hinv) as [[_ Hu]|[He _]].
      * cbn [invoke] in Hu. rewrite E in Hu. cbn [snd] in Hu |- *. by rewrite Hu.
      * cbn [invokeError] in He. unfold errorOf in He. by rewrite E in He.
  - destruct (UpdateProduct ctx id' newStatus newOwner newDescription newCategory w)
      as [[[]|e] w'] eqn:E.
    + destruct (UpdateProduct_ok_inv _ _ _ _ _ _ _ _ E) as (sec & nanos & r0 & _ & Hq & ->).
      cbn [snd]. destruct (decide (id' = id)) as [->|Hne].
      * by apply (sameIdentity_written r id w r0 _ ctx).
      * apply (sameIdentity_frame r id w); [|done]. by apply written_other.
    + assert (Hinv : CallUpdateProduct id' newStatus newOwner newDescription newCategory
                     <> CallInitLedger) by discriminate.
      destruct (invoke_outcome ctx _ w Hinv) as [[_ Hu]|[He _]].
      * cbn [invoke] in Hu. rewrite E in Hu. cbn [snd] in Hu |- *. by rewrite Hu.
      * cbn [invokeError] in He. unfold errorOf in He. by rewrite E in He.
  - destruct (TransferOwnership ctx id' newOwner w) as [[[]|e] w'] eqn:E.
    + destruct (TransferOwnership_ok_inv _ _ _ _ _ E) as (sec & nanos & r0 & _ & Hq & ->).
      cbn [snd]. destruct (decide (id' = id)) as [->|Hne].
      * by apply (sameIdentity_written r id w r0 _ ctx).
      * apply (sameIdentity_frame r id w); [|done]. by apply written_other.
    + assert (Hinv : CallTransferOwnership id' newOwner <> CallInitLedger) by discriminate.
      destruct (invoke_outcome ctx _ w Hinv) as [[_ Hu]|[He _]].
      * cbn [invoke] in Hu. rewrite E in Hu. cbn [snd] in Hu |- *. by rewrite Hu.
      * cbn [invokeError] in He. unfold errorOf in He. by rewrite E in He.
  - by rewrite QueryProduct_world.
  - by rewrite ProductExists_world.
  - by rewrite GetAllProducts_world.
Qed.

Lemma invokeAll_sameIdentity calls : forall w r id,
  id <> "p1" -> id <> "p2" -> sameIdentity r id w -> sameIdentity r id (invokeAll calls w).
Proof.
  induction calls as [|[ctx inv] calls IH]; intros w r id H1 H2 Hw; [done|].
  cbn [invokeAll]. apply IH; [done|done|]. by apply invoke_sameIdentity.
Qed.

(** X22: the id, the name and the time of creation of a record never
    change: for an id other than the two that [InitLedger] writes, whatever
    is invoked afterwards, in whatever contexts, a query of the id that
    succeeds returns the id, name and created_at that it returned before. *)
Theorem identity_is_immutable ctx w id r calls ctx' r' w' :
  id <> "p1" -> id <> "p2" ->
  QueryProduct ctx id w = (Ok r, w) ->
  QueryProduct ctx' id (invokeAll calls w) = (Ok r', w') ->
  ID r' = ID r /\ Name r' = Name r /\ CreatedAt r' = CreatedAt r.
Proof.
  intros H1 H2 Hq Hq'.
  assert (Hw : sameIdentity r id w).
  { destruct (QueryProduct_inv _ _ _ _ _ Hq) as (_ & _ & v & Hv & Hr). by exists v, r. }
  destruct (invokeAll_sameIdentity calls w r id H1 H2 Hw) as (v & r0 & Hs & Hr0 & H).
  destruct (QueryProduct_inv _ _ _ _ _ Hq') as (_ & _ & v' & Hv' & Hr').
  rewrite Hs in Hv'. injection Hv' as <-. rewrite Hr0 in Hr'. by injection Hr' as <-.
Qed.

Lemma identity_is_immutable_witness :
  let w := snd (CreateProduct exampleContext "p9" "Tablet" "CompanyC" "d" "c" emptyWorld) in
  let calls := [(laterContext, CallUpdateProduct "p9" "Shipped" "CompanyD" "" "");
                (laterContext, CallInitLedger);
                (laterContext, CallTransferOwnership "p9" "")] in
  let r' := mkProduct "p9" "Tablet" "Shipped" "" "2023-11-14T22:13:20Z"
              "2023-11-14T23:13:20Z" "d" "c" in
  ID r' = "p9" /\ Name r' = "Tablet" /\ CreatedAt r' = "2023-11-14T22:13:20Z".
Proof.
  intros w calls r'.
  apply (identity_is_immutable exampleContext w "p9"
           (mkProduct "p9" "Tablet" "Manufactured" "CompanyC" "2023-11-14T22:13:20Z"
              "2023-11-14T22:13:20Z" "d" "c")
           calls exampleContext r' (invokeAll calls w));
    [discriminate|discriminate|by vm_compute|by vm_compute].
Defined.

(** ** A truncated document does not decode *)

Section truncation.
Import utf8 json.

(** *** More input after the end of what was read changes nothing *)

Lemma slice_from_app_le n s x :
  (n <= String.length s)%nat -> slice_from n (s +:+ x) = slice_from n s +:+ x.
Proof.
  revert s. induction n as [|n IH]; intros s H; [done|].
  destruct s as [|c s]; [cbn in H; lia|]. cbn [String.length] in H.
  rewrite app_String. cbn [slice_from]. apply IH. lia.
Qed.

Lemma byteAt_app s x i : (i < String.length s)%nat -> byteAt (s +:+ x) i = byteAt s i.
Proof.
  revert s. induction i as [|i IH]; intros [|c s] H; cbn [String.length] in H; try lia.
  - reflexivity.
  - rewrite app_String, !byteAt_S. apply IH. lia.
Qed.

Ltac pick_decodeBytes_case n p0 b1 b2 b3 :=
  destruct (decodeBytes_cases n p0 b1 b2 b3 ltac:(lia))
    as [[? E]|[[? E]|[[? E]|[[? E]|[[? E]|[[? E]|[[? E]|[[? E]|[? E]]]]]]]]];
  try lia; exact E.

(** The case of [decodeBytes] is fixed by the first byte. *)
Lemma decodeBytes_multi_cases p0 :
  0x80 <= p0 < 256 ->
  (forall n b1 b2 b3,
     decodeBytes n p0 b1 b2 b3 = if n <? 1 then (RuneError, 0%nat) else (RuneError, 1%nat)) \/
  (exists lo hi, 0x80 <= lo /\ forall n b1 b2 b3,
     decodeBytes n p0 b1 b2 b3 = decode2 n p0 b1 lo hi) \/
  (exists lo hi, 0x80 <= lo /\ forall n b1 b2 b3,
     decodeBytes n p0 b1 b2 b3 = decode3 n p0 b1 b2 lo hi) \/
  (exists lo hi, 0x80 <= lo /\ forall n b1 b2 b3,
     decodeBytes n p0 b1 b2 b3 = decode4 n p0 b1 b2 b3 lo hi).
Proof.
  intros Hp.
  assert (Hc : (0x80 <= p0 < 0xC2 \/ 0xF5 <= p0) \/ 0xC2 <= p0 < 0xE0 \/ p0 = 0xE0 \/
               (0xE1 <= p0 < 0xED \/ 0xEE <= p0 < 0xF0) \/ p0 = 0xED \/ p0 = 0xF0 \/
               0xF1 <= p0 < 0xF4 \/ p0 = 0xF4) by lia.
  destruct Hc as [Hc|[Hc|[Hc|[Hc|[Hc|[Hc|[Hc|Hc]]]]]]].
  - left. intros. pick_decodeBytes_case n p0 b1 b2 b3.
  - right; left. exists 0x80, 0xBF. split; [lia|]. intros. pick_decodeBytes_case n p0 b1 b2 b3.
  - right; right; left. exists 0xA0, 0xBF. split; [lia|]. intros. pick_decodeBytes_case n p0 b1 b2 b3.
  - right; right; left. exists 0x80, 0xBF. split; [lia|]. intros. pick_decodeBytes_case n p0 b1 b2 b3.
  - right; right; left. exists 0x80, 0x9F. split; [lia|]. intros. pick_decodeBytes_case n p0 b1 b2 b3.
  - right; right; right. exists 0x90, 0xBF. split; [lia|]. intros. pick_decodeBytes_case n p0 b1 b2 b3.
  - right; right; right. exists 0x80, 0xBF. split; [lia|]. intros. pick_decodeBytes_case n p0 b1 b2 b3.
  - right; right; right. exists 0x80, 0x8F. split; [lia|]. intros. pick_decodeBytes_case n p0 b1 b2 b3.
Qed.

(** The decoding of a first byte that is not ASCII does not depend on the
    bytes after an ASCII byte, nor on those after the fourth. *)
Lemma decodeBytes_stable n n' p0 b1 b2 b3 b2' b3' :
  0x80 <= p0 < 256 ->
  (2 <= n /\ 2 <= n' /\ b1 < 0x80) \/
  (3 <= n /\ 3 <= n' /\ b2 = b2' /\ b2 < 0x80) \/
  (4 <= n /\ 4 <= n' /\ b2 = b2' /\ b3 = b3') ->
  decodeBytes n p0 b1 b2 b3 = decodeBytes n' p0 b1 b2' b3'.
Proof.
  intros Hp H.
  destruct (decodeBytes_multi_cases p0 Hp)
    as [E|[(lo & hi & Hlo & E)|[(lo & hi & Hlo & E)|(lo & hi & Hlo & E)]]];
    rewrite !E; clear E; unfold decode2, decode3, decode4.
  all: destruct H as [H|[H|H]];
    [ | destruct H as (? & ? & <- & ?) | destruct H as (? & ? & <- & <-) ].
  all: repeat match goal with
       | |- context [?a <? ?b] => destruct (Z.ltb_spec a b)
       end; cbn [orb]; try reflexivity; exfalso; lia.
Qed.

(** A string with an ASCII byte in it decodes at its head as it does with
    more input after it. *)
Lemma DecodeRune_app a c r x :
  ord c < 0x80 ->
  DecodeRune ((a +:+ String c r) +:+ x) = DecodeRune (a +:+ String c r).
Proof.
  intros Hc. destruct a as [|c0 a].
  { rewrite !app_empty_l, app_String. by rewrite !DecodeRune_ascii. }
  rewrite !app_String. destruct (Z.lt_ge_cases (ord c0) 0x80) as [H0|H0].
  { by rewrite !DecodeRune_ascii. }
  rewrite !DecodeRune_String. pose proof (ord_range c0).
  pose proof (len_nonneg r). pose proof (len_nonneg x).
  destruct a as [|c1 [|c2 [|c3 a]]];
    repeat first [ rewrite app_String | rewrite app_empty_l | rewrite len_String
                 | rewrite byteAt_S | rewrite byteAt_0 ].
  - apply decodeBytes_stable; [lia|]. left.
    pose proof (len_nonneg (r +:+ x)). lia.
  - apply decodeBytes_stable; [lia|]. right; left.
    pose proof (len_nonneg (r +:+ x)). lia.
  - apply decodeBytes_stable; [lia|]. right; right.
    pose proof (len_nonneg (r +:+ x)). lia.
  - apply decodeBytes_stable; [lia|]. right; right.
    pose proof (len_nonneg ((a +:+ String c r) +:+ x)).
    pose proof (len_nonneg (a +:+ String c r)). lia.
Qed.

(** What [unquote] reads ends with the closing quote. *)
Lemma unquote_closing n : forall s u r,
  unquote n s = Some (u, r) -> exists a, s = a +:+ String dq r.
Proof.
  induction n as [|n IH]; intros s u r H; [done|].
  destruct s as [|c t]; [done|]. cbn [unquote] in H; cbv zeta in H.
  destruct (DecodeRune (String c t)) as [rr k] eqn:Hd.
  assert (Hsuf : forall pre X u',
            String c t = pre +:+ X -> unquote n X = Some (u', r) ->
            exists a, String c t = a +:+ String dq r).
  { intros pre X u' E HX. apply IH in HX as (a' & ->).
    exists (pre +:+ a'). by rewrite app_assoc_s. }
  destruct (Z.eqb_spec (ord c) 0x22) as [Hq|_].
  { injection H as _ <-. exists "". rewrite app_empty_l. f_equal. by apply ord_inj. }
  repeat match type of H with
         | (if ?b then _ else _) = _ => destruct b
         | match ?t with EmptyString => _ | String _ _ => _ end = _ => destruct t
         end; try discriminate.
  all: match type of H with
       | context [unquote ?f ?X] =>
           destruct (unquote f X) as [[u' r']|] eqn:E; [|done];
           cbn in H; injection H as _ <-
       end.
  all: first
    [ eapply (Hsuf (String c (String _ "")) _ _ eq_refl), E
    | eapply (Hsuf (String c "") _ _ eq_refl), E
    | eapply (Hsuf (slice_to _ _) _ _), E; by rewrite slice_to_from
    | eapply (Hsuf (slice_to 6 _ +:+ slice_to 6 (slice_from 6 _)) _ _), E;
      by rewrite app_assoc_s, !slice_to_from ].
Qed.

Lemma getu4_not_escape c0 t : ord c0 <> 0x5C -> getu4 (String c0 t) = -1.
Proof.
  intros H. destruct t as [|c1 [|h0 [|h1 [|h2 [|h3 t]]]]]; try reflexivity.
  cbn [getu4]. by destruct (Z.eqb_spec (ord c0) 0x5C).
Qed.

Lemma getu4_not_u c0 c1 t : ord c1 <> 0x75 -> getu4 (String c0 (String c1 t)) = -1.
Proof.
  intros H. destruct t as [|h0 [|h1 [|h2 [|h3 t]]]]; try reflexivity.
  cbn [getu4]. destruct (Z.eqb_spec (ord c1) 0x75); [done|]. by rewrite andb_false_r.
Qed.

Lemma getu4_length s : getu4 s <> -1 -> (6 <= String.length s)%nat.
Proof.
  destruct s as [|c0 [|c1 [|h0 [|h1 [|h2 [|h3 t]]]]]]; try done.
  intros _. cbn [String.length]. lia.
Qed.

Lemma getu4_app s x : getu4 s <> -1 -> getu4 (s +:+ x) = getu4 s.
Proof.
  destruct s as [|c0 [|c1 [|h0 [|h1 [|h2 [|h3 t]]]]]]; try done.
Qed.

(** More input changes the four digits read only where the literal is cut
    short, and there [unquote] fails. *)
Lemma getu4_app_or s x : getu4 (s +:+ x) = getu4 s \/ forall f, unquote f s = None.
Proof.
  destruct (Z.eq_dec (getu4 s) (-1)) as [E|E]; [|left; by apply getu4_app].
  destruct s as [|c0 s]; [right; by intros [|f]|].
  destruct (Z.eq_dec (ord c0) 0x5C) as [H0|H0];
    [|left; by rewrite app_String, !getu4_not_escape].
  destruct s as [|c1 s]; [right; intros [|f]; [done|]|].
  { cbn [unquote]. rewrite H0. reflexivity. }
  destruct (Z.eq_dec (ord c1) 0x75) as [H1|H1];
    [|left; by rewrite !app_String, !getu4_not_u].
  right. intros [|f]; [done|]. cbn [unquote]. rewrite H0, H1, E. reflexivity.
Qed.

Lemma unquote_app n : forall s u r x,
  unquote n s = Some (u, r) -> unquote n (s +:+ x) = Some (u, r +:+ x).
Proof.
  induction n as [|n IH]; intros s u r x H; [done|].
  destruct s as [|c t]; [done|]. rewrite app_String.
  assert (Hk : forall X out,
            ('(u0, r0) ← unquote n X; Some (out +:+ u0, r0)) = Some (u, r) ->
            ('(u0, r0) ← unquote n (X +:+ x); Some (out +:+ u0, r0)) = Some (u, r +:+ x)).
  { intros X out HX. destruct (unquote n X) as [[u0 r0]|] eqn:E; [|done].
    cbn in HX. injection HX as <- <-. by rewrite (IH _ _ _ x E). }
  cbn [unquote] in H |- *; cbv zeta in H |- *.
  destruct (Z.eqb_spec (ord c) 0x22); [by injection H as <- <-|].
  destruct (Z.eqb_spec (ord c) 0x5C) as [Hbs|_].
  { destruct t as [|e t']; [done|]. rewrite app_String.
    destruct ((ord e =? 0x22) || (ord e =? 0x5C) || (ord e =? 0x2F)); [by apply Hk|].
    destruct (ord e =? 0x62); [by apply Hk|].
    destruct (ord e =? 0x66); [by apply Hk|].
    destruct (ord e =? 0x6E); [by apply Hk|].
    destruct (ord e =? 0x72); [by apply Hk|].
    destruct (ord e =? 0x74); [by apply Hk|].
    destruct (ord e =? 0x75); [|done].
    set (s := String c (String e t')) in *.
    change (String c (String e (t' +:+ x))) with (s +:+ x).
    destruct (Z.ltb_spec (getu4 s) 0) as [|Hrr]; [done|].
    assert (Hne : getu4 s <> -1) by lia.
    pose proof (getu4_length s Hne) as Hlen.
    rewrite (getu4_app s x Hne). destruct (Z.ltb_spec (getu4 s) 0); [lia|].
    rewrite (slice_from_app_le 6 s x Hlen).
    destruct (utf16.IsSurrogate (getu4 s)); [|by apply Hk].
    destruct (Z.eq_dec (getu4 (slice_from 6 s)) (-1)) as [E6|Hne6].
    - assert (Ed : negb (utf16.DecodeRune (getu4 s) (getu4 (slice_from 6 s))
                         =? utf16.replacementChar) = false).
      { rewrite E6. unfold utf16.DecodeRune.
        change (utf16.surr2 <=? -1) with false. by rewrite andb_false_r. }
      rewrite Ed in H.
      destruct (getu4_app_or (slice_from 6 s) x) as [E|E].
      + rewrite E, Ed. by apply Hk.
      + rewrite E in H. done.
    - rewrite (getu4_app _ x Hne6).
      destruct (negb _); [|by apply Hk].
      rewrite (slice_from_app_le 6 _ x (getu4_length _ Hne6)). by apply Hk. }
  destruct (ord c <? 0x20); [done|].
  destruct (Z.ltb_spec (ord c) RuneSelf) as [|Hc].
  { destruct (unquote n t) as [[u0 r0]|] eqn:E; [|done].
    cbn in H. injection H as <- <-. by rewrite (IH _ _ _ x E). }
  destruct (DecodeRune (String c t)) as [rr k] eqn:Hd.
  destruct (unquote n (slice_from k (String c t))) as [[u0 r0]|] eqn:E; [|done].
  cbn in H. injection H as <- <-.
  destruct (unquote_closing _ _ _ _ E) as (a & Ha).
  assert (Hs : String c t = (slice_to k (String c t) +:+ a) +:+ String dq r0).
  { by rewrite app_assoc_s, <- Ha, slice_to_from. }
  change (String c (t +:+ x)) with (String c t +:+ x).
  assert (Hd' : DecodeRune (String c t +:+ x) = (rr, k)).
  { rewrite Hs, DecodeRune_app by done. by rewrite <- Hs. }
  rewrite Hd'. rewrite slice_from_app_le.
  - by rewrite (IH _ _ _ x E).
  - unfold RuneSelf in Hc. destruct (DecodeRune_nonascii _ _ _ _ Hc Hd) as [[_ ->]|Hk2].
    + cbn [String.length]. lia.
    + by destruct (DecodeRune_multi _ _ _ Hd Hk2) as (_ & _ & _ & _ & ? & _).
Qed.

(** More fuel changes no result. *)
Lemma unquote_fuel_mono n : forall m s res,
  unquote n s = Some res -> (n <= m)%nat -> unquote m s = Some res.
Proof.
  induction n as [|n IH]; intros m s res H Hm; [done|].
  destruct m as [|m]; [lia|]. destruct s as [|c t]; [done|].
  assert (Hk : forall X (g : string * string -> option (string * string)),
            unquote n X ≫= g = Some res -> unquote m X ≫= g = Some res).
  { intros X g HX. destruct (unquote n X) as [p|] eqn:E; [|done].
    by rewrite (IH m _ _ E) by lia. }
  cbn [unquote] in H |- *; cbv zeta in H |- *.
  destruct (DecodeRune (String c t)) as [rr k].
  repeat match goal with
         | |- (if ?b then _ else _) = _ => destruct b
         | |- match ?t with EmptyString => _ | String _ _ => _ end = _ => destruct t
         end; try done; by apply Hk.
Qed.

Lemma scanString_app t u r x :
  scanString t = Some (u, r) -> scanString (t +:+ x) = Some (u, r +:+ x).
Proof.
  unfold scanString. intros H. apply (unquote_app _ _ _ _ x) in H.
  apply (unquote_fuel_mono _ _ _ _ H). rewrite length_app_s. lia.
Qed.

Lemma skipSpace_app s c t x :
  skipSpace s = String c t -> skipSpace (s +:+ x) = String c (t +:+ x).
Proof.
  induction s as [|c0 s IH]; [done|]. rewrite app_String. cbn [skipSpace].
  destruct (isSpace c0); [done|]. by intros [= -> ->].
Qed.

Lemma skipSpace_app_ne s x : skipSpace s <> "" -> skipSpace (s +:+ x) = skipSpace s +:+ x.
Proof.
  intros H. destruct (skipSpace s) as [|c t] eqn:E; [done|].
  by rewrite (skipSpace_app _ _ _ x E).
Qed.

Lemma spanDigits_app s d r x :
  spanDigits s = (d, r) -> r <> "" -> spanDigits (s +:+ x) = (d, r +:+ x).
Proof.
  revert d. induction s as [|c s IH]; intros d H Hr.
  { injection H as _ <-. done. }
  rewrite app_String. cbn [spanDigits] in *. destruct (isDigit c).
  - destruct (spanDigits s) as [d' r'] eqn:E. injection H as <- <-.
    by rewrite (IH d' eq_refl Hr).
  - by injection H as <- <-.
Qed.

Lemma digits1_app s d r x :
  digits1 s = Some (d, r) -> r <> "" -> digits1 (s +:+ x) = Some (d, r +:+ x).
Proof.
  unfold digits1. destruct (spanDigits s) as [d' r'] eqn:E.
  destruct d' as [|c d']; [done|]. intros [= <- <-] Hr.
  by rewrite (spanDigits_app _ _ _ x E Hr).
Qed.

Lemma scanInt_app s d r x :
  scanInt s = Some (d, r) -> r <> "" -> scanInt (s +:+ x) = Some (d, r +:+ x).
Proof.
  destruct s as [|c t]; [done|]. rewrite app_String. cbn [scanInt].
  destruct (ord c =? 0x30); [by intros [= <- <-]|].
  destruct (isDigit c); [|done]. intros [= H] Hr.
  change (spanDigits (String c t) = (d, r)) in H.
  change (String c (t +:+ x)) with (String c t +:+ x).
  by rewrite (spanDigits_app _ _ _ x H Hr).
Qed.

Lemma scanFrac_app s d r x :
  scanFrac s = Some (d, r) -> r <> "" -> scanFrac (s +:+ x) = Some (d, r +:+ x).
Proof.
  destruct s as [|c t]; [by intros [= <- <-]|]. rewrite app_String. cbn [scanFrac].
  destruct (ord c =? 0x2E); [|by intros [= <- <-]].
  destruct (digits1 t) as [[d' r']|] eqn:E; [|done]. cbn. intros [= <- <-] Hr.
  by rewrite (digits1_app _ _ _ x E Hr).
Qed.

Lemma scanExp_app s d r x :
  scanExp s = Some (d, r) -> r <> "" -> scanExp (s +:+ x) = Some (d, r +:+ x).
Proof.
  destruct s as [|c t]; [by intros [= <- <-]|]. rewrite app_String. cbn [scanExp].
  destruct (_ || _); [|by intros [= <- <-]].
  destruct t as [|sg t']; [done|]. rewrite app_String.
  destruct (_ || _).
  - destruct (digits1 t') as [[d' r']|] eqn:E; [|done]. cbn. intros [= <- <-] Hr.
    by rewrite (digits1_app _ _ _ x E Hr).
  - destruct (digits1 (String sg t')) as [[d' r']|] eqn:E; [|done]. cbn.
    intros [= <- <-] Hr. change (String sg (t' +:+ x)) with (String sg t' +:+ x).
    by rewrite (digits1_app _ _ _ x E Hr).
Qed.

Lemma scanNumber_app s n r x :
  scanNumber s = Some (n, r) -> r <> "" -> scanNumber (s +:+ x) = Some (n, r +:+ x).
Proof.
  unfold scanNumber. intros H Hr.
  set (p := match s with String c t => if ord c =? 0x2D then ("-", t) else ("", s)
                    | EmptyString => ("", s) end) in *.
  assert (Hp : match s +:+ x with String c t => if ord c =? 0x2D then ("-", t) else ("", s +:+ x)
                    | EmptyString => ("", s +:+ x) end = (fst p, snd p +:+ x) \/ snd p = "").
  { unfold p. destruct s as [|c t]; [by right|]. rewrite app_String.
    left. by destruct (ord c =? 0x2D). }
  destruct p as [sign s1]. cbn [fst snd] in Hp.
  destruct (scanInt s1) as [[i s2]|] eqn:Ei; [|done]. cbn in H.
  destruct (scanFrac s2) as [[f s3]|] eqn:Ef; [|done]. cbn in H.
  destruct (scanExp s3) as [[e s4]|] eqn:Ee; [|done]. cbn in H.
  injection H as <- <-.
  assert (H3 : s3 <> "") by (intros ->; by injection Ee as _ <-).
  assert (H2 : s2 <> "") by (intros ->; by injection Ef as _ <-).
  destruct Hp as [Hp | Hp]; [rewrite Hp|by rewrite Hp in Ei].
  rewrite (scanInt_app _ _ _ x Ei H2). cbn.
  rewrite (scanFrac_app _ _ _ x Ef H3). cbn.
  by rewrite (scanExp_app _ _ _ x Ee Hr).
Qed.

Lemma stripPrefix_app lit : forall s r x,
  stripPrefix lit s = Some r -> stripPrefix lit (s +:+ x) = Some (r +:+ x).
Proof.
  induction lit as [|a lit IH]; intros s r x H; cbn [stripPrefix] in *.
  { by injection H as <-. }
  destruct s as [|b s]; [done|]. rewrite app_String.
  destruct (Ascii.eqb a b); [by apply IH|done].
Qed.

Lemma scan_fuel_mono n :
  (forall m d s res, scanValue n d s = Some res -> (n <= m)%nat ->
     scanValue m d s = Some res) /\
  (forall m d s res, scanElements n d s = Some res -> (n <= m)%nat ->
     scanElements m d s = Some res) /\
  (forall m d s res, scanMembers n d s = Some res -> (n <= m)%nat ->
     scanMembers m d s = Some res).
Proof.
  induction n as [|n (IHv & IHe & IHm)]; [done|].
  split; [|split]; intros [|m] d s res H Hm; try lia.
  - destruct s as [|c t]; [done|]. cbn [scanValue] in H |- *; cbv zeta in H |- *.
    destruct (skipSpace t) as [|c' t']; [done|].
    repeat match goal with |- (if ?b then _ else _) = _ => destruct b end; try done.
    + destruct (scanMembers n _ _) as [p|] eqn:E; [|done].
      by rewrite (IHm m _ _ _ E) by lia.
    + destruct (scanElements n _ _) as [p|] eqn:E; [|done].
      by rewrite (IHe m _ _ _ E) by lia.
  - cbn [scanElements] in H |- *.
    destruct (scanValue n d s) as [[v r]|] eqn:E; [|done].
    rewrite (IHv m _ _ _ E) by lia. cbn in H |- *.
    destruct (skipSpace r) as [|c t]; [done|].
    destruct (ord c =? 0x2C); [|done].
    destruct (scanElements n d (skipSpace t)) as [p|] eqn:E'; [|done].
    by rewrite (IHe m _ _ _ E') by lia.
  - destruct s as [|q t]; [done|]. cbn [scanMembers] in H |- *.
    destruct (ord q =? 0x22); [|done].
    destruct (scanString t) as [[key r]|]; [|done]. cbn in H |- *.
    destruct (skipSpace r) as [|c t1]; [done|].
    destruct (ord c =? 0x3A); [|done].
    destruct (scanValue n d (skipSpace t1)) as [[v r1]|] eqn:E; [|done].
    rewrite (IHv m _ _ _ E) by lia. cbn in H |- *.
    destruct (skipSpace r1) as [|c2 t2]; [done|].
    destruct (ord c2 =? 0x2C); [|done].
    destruct (scanMembers n d (skipSpace t2)) as [p|] eqn:E'; [|done].
    by rewrite (IHm m _ _ _ E') by lia.
Qed.

Definition isNumber (v : value) : Prop := exists lit, v = JNumber lit.

(** What is read does not depend on the input after it: for a number, when
    something follows it. *)
Lemma scan_app n :
  (forall d s v r x, scanValue n d s = Some (v, r) -> r <> "" \/ ~ isNumber v ->
     scanValue n d (s +:+ x) = Some (v, r +:+ x)) /\
  (forall d s vs r x, scanElements n d s = Some (vs, r) ->
     scanElements n d (s +:+ x) = Some (vs, r +:+ x)) /\
  (forall d s ms r x, scanMembers n d s = Some (ms, r) ->
     scanMembers n d (s +:+ x) = Some (ms, r +:+ x)).
Proof.
  induction n as [|n (IHv & IHe & IHm)]; [done|].
  split; [|split].
  - intros d s v r x H Hr. destruct s as [|c t]; [done|]. rewrite app_String.
    cbn [scanValue] in H |- *; cbv zeta in H |- *.
    destruct (ord c =? 0x7B).
    { destruct (maxNestingDepth <? d + 1); [done|].
      destruct (skipSpace t) as [|c' t'] eqn:Es; [done|].
      rewrite (skipSpace_app _ _ _ x Es).
      destruct (ord c' =? 0x7D); [by injection H as <- <-|].
      destruct (scanMembers n (d + 1) (String c' t')) as [[ms r']|] eqn:E; [|done].
      cbn in H. injection H as <- <-.
      change (String c' (t' +:+ x)) with (String c' t' +:+ x).
      by rewrite (IHm _ _ _ _ x E). }
    destruct (ord c =? 0x5B).
    { destruct (maxNestingDepth <? d + 1); [done|].
      destruct (skipSpace t) as [|c' t'] eqn:Es; [done|].
      rewrite (skipSpace_app _ _ _ x Es).
      destruct (ord c' =? 0x5D); [by injection H as <- <-|].
      destruct (scanElements n (d + 1) (String c' t')) as [[vs r']|] eqn:E; [|done].
      cbn in H. injection H as <- <-.
      change (String c' (t' +:+ x)) with (String c' t' +:+ x).
      by rewrite (IHe _ _ _ _ x E). }
    destruct (ord c =? 0x22).
    { destruct (scanString t) as [[u r']|] eqn:E; [|done]. cbn in H. injection H as <- <-.
      by rewrite (scanString_app _ _ _ x E). }
    destruct ((ord c =? 0x2D) || isDigit c).
    { destruct (scanNumber (String c t)) as [[l r']|] eqn:E; [|done].
      cbn in H. injection H as <- <-.
      change (String c (t +:+ x)) with (String c t +:+ x).
      destruct Hr as [Hr|Hr]; [|exfalso; apply Hr; by eexists].
      by rewrite (scanNumber_app _ _ _ x E Hr). }
    change (String c (t +:+ x)) with (String c t +:+ x).
    repeat match type of H with (if ?b then _ else _) = _ => destruct b end; try done.
    all: match type of H with
         | context [stripPrefix ?lit ?s] =>
             destruct (stripPrefix lit s) as [r'|] eqn:E; [|done];
             cbn in H; injection H as <- <-; by rewrite (stripPrefix_app _ _ _ x E)
         end.
  - intros d s vs r x H. cbn [scanElements] in H |- *.
    destruct (scanValue n d s) as [[v r1]|] eqn:E; [|done]. cbn in H.
    destruct (skipSpace r1) as [|c t] eqn:Es; [done|].
    assert (Hr1 : r1 <> "") by (by intros ->).
    rewrite (IHv _ _ _ _ x E (or_introl Hr1)). cbn.
    rewrite (skipSpace_app _ _ _ x Es).
    destruct (ord c =? 0x2C).
    + destruct (scanElements n d (skipSpace t)) as [[vs' r']|] eqn:E'; [|done].
      cbn in H. injection H as <- <-.
      assert (Ht : skipSpace t <> "").
      { intros Ht. rewrite Ht in E'. destruct n; [done|]. cbn [scanElements] in E'.
        destruct n; done. }
      by rewrite (skipSpace_app_ne _ x Ht), (IHe _ _ _ _ x E').
    + destruct (ord c =? 0x5D); [|done]. by injection H as <- <-.
  - intros d s ms r x H. destruct s as [|q t]; [done|]. rewrite app_String.
    cbn [scanMembers] in H |- *. destruct (ord q =? 0x22); [|done].
    destruct (scanString t) as [[key r0]|] eqn:E0; [|done]. cbn in H.
    rewrite (scanString_app _ _ _ x E0). cbn.
    destruct (skipSpace r0) as [|c t1] eqn:Es0; [done|].
    rewrite (skipSpace_app _ _ _ x Es0).
    destruct (ord c =? 0x3A); [|done].
    destruct (scanValue n d (skipSpace t1)) as [[v r1]|] eqn:E1; [|done]. cbn in H.
    destruct (skipSpace r1) as [|c2 t2] eqn:Es1; [done|].
    assert (Hr1 : r1 <> "") by (by intros ->).
    assert (Ht1 : skipSpace t1 <> "").
    { intros Ht. rewrite Ht in E1. by destruct n. }
    rewrite (skipSpace_app_ne _ x Ht1), (IHv _ _ _ _ x E1 (or_introl Hr1)). cbn.
    rewrite (skipSpace_app _ _ _ x Es1).
    destruct (ord c2 =? 0x2C).
    + destruct (scanMembers n d (skipSpace t2)) as [[ms' r']|] eqn:E'; [|done].
      cbn in H. injection H as <- <-.
      assert (Ht : skipSpace t2 <> "").
      { intros Ht. rewrite Ht in E'. by destruct n. }
      by rewrite (skipSpace_app_ne _ x Ht), (IHm _ _ _ _ x E').
    + destruct (ord c2 =? 0x7D); [|done]. by injection H as <- <-.
Qed.

(** The scan of an encoded record ends at the end of the document. *)
Lemma scanValue_encodeProduct p n :
  exists v, scanValue (10 + n) 0 (encodeProduct p) = Some (v, "").
Proof.
  destruct plainKey_fields as (K1 & K2 & K3 & K4 & K5 & K6 & K7 & K8).
  rewrite encodeProduct_members.
  change (10 + n)%nat with (S (S (S (S (S (S (S (S (S (S n)))))))))).
  rewrite scanValue_object by done.
  rewrite !scanMembers_more, scanMembers_last by done.
  eexists. reflexivity.
Qed.

Lemma scanValue_brace f d t v r : scanValue f d (String "{" t) = Some (v, r) -> ~ isNumber v.
Proof.
  destruct f as [|f]; [done|]. cbn [scanValue]. change (ord "{" =? 123) with true. cbv iota.
  destruct (maxNestingDepth <? d + 1); [done|].
  destruct (skipSpace t) as [|c' t']; [done|].
  destruct (ord c' =? 0x7D); [intros [= <- _] [l Hl]; done|].
  destruct (scanMembers _ _ _) as [[ms r']|]; [|done]. cbn.
  intros [= <- _] [l Hl]. done.
Qed.

#[local] Transparent json.Unmarshal.

(** X21: a record that has been cut short does not decode: [Unmarshal] fails
    with a syntax error on every proper prefix of the bytes that [Marshal]
    gives for a record. *)
Theorem Unmarshal_truncated p n :
  (n < String.length (encodeProduct p))%nat ->
  Unmarshal (slice_to n (encodeProduct p)) = Err SyntaxError.
Proof.
  intros Hn.
  pose proof (slice_to_from n (encodeProduct p)) as Hd.
  pose proof (length_slice_from n (encodeProduct p)) as Hx.
  set (T := slice_to n (encodeProduct p)) in *.
  set (x := slice_from n (encodeProduct p)) in *.
  assert (HT : (String.length T <= String.length (encodeProduct p))%nat).
  { rewrite <- Hd, length_app_s. lia. }
  assert (E : scan T = None); [|unfold Unmarshal; by rewrite E].
  destruct (scan T) as [v|] eqn:E; [exfalso|done].
  unfold scan in E.
  assert (Hb : T = "" \/ exists t, T = String "{" t).
  { unfold T. rewrite encodeProduct_members. destruct n; [by left|right]. eexists.
    reflexivity. }
  destruct Hb as [Hb|(t & Hb)]; rewrite Hb in E; [done|].
  change (skipSpace (String "{" t)) with (String "{" t) in E. rewrite <- Hb in E.
  destruct (scanValue _ 0 T) as [[v' r]|] eqn:Ev; [|done].
  assert (Hnum : ~ isNumber v') by (rewrite Hb in Ev; by apply scanValue_brace in Ev).
  apply (proj1 (scan_app _) _ _ _ _ x) in Ev; [|by right]. rewrite Hd in Ev.
  assert (Hlen : (4 <= String.length (encodeProduct p))%nat).
  { rewrite encodeProduct_members. unfold member. cbn [String.length].
    rewrite length_app_s. cbn [String.length]. lia. }
  apply (proj1 (scan_fuel_mono _) (10 + (2 * String.length (encodeProduct p) - 8))%nat)
    in Ev; [|lia].
  destruct (scanValue_encodeProduct p (2 * String.length (encodeProduct p) - 8))
    as (v0 & E0).
  rewrite E0 in Ev. injection Ev as _ Hr.
  assert (Hx0 : String.length (r +:+ x) = 0%nat) by (by rewrite <- Hr).
  rewrite length_app_s in Hx0. lia.
Qed.

#[local] Opaque json.Unmarshal.

Lemma Unmarshal_truncated_witness :
  Unmarshal (slice_to 50 (encodeProduct laptop)) = Err SyntaxError.
Proof. apply Unmarshal_truncated. apply Nat.ltb_lt. by vm_compute. Defined.

End truncation.

(** The proofs about the text of a timestamp unfold [Format]. *)
#[local] Transparent time.Format_RFC3339.

(** ** The timestamp in UTC *)

Section timestamp_facts.
Import time.

(** A number below 100 in two digits, and one below 10000 in four. *)
Definition digit (x : Z) : ascii := chr (0x30 + x).
Definition digits2 (x : Z) : string :=
  String (digit (x / 10)) (String (digit (x mod 10)) "").
Definition digits4 (x : Z) : string :=
  String (digit (x / 1000)) (String (digit (x / 100 mod 10))
    (String (digit (x / 10 mod 10)) (String (digit (x mod 10)) ""))).

Lemma decimal_loop_S fuel u acc :
  decimal_loop (S fuel) u acc
  = if u / 10 =? 0 then String (digit (u mod 10)) acc
    else decimal_loop fuel (u / 10) (String (digit (u mod 10)) acc).
Proof. reflexivity. Qed.

(** The digits come before what is there already. *)
Lemma decimal_loop_acc n : forall m u acc,
  (n <= m)%nat -> 0 <= u < 10 ^ Z.of_nat (S n) ->
  decimal_loop (S m) u acc = decimal_loop (S n) u "" +:+ acc.
Proof.
  induction n as [|n IH]; intros m u acc Hm Hu; rewrite (decimal_loop_S m).
  - rewrite (decimal_loop_S 0). change (10 ^ Z.of_nat 1) with 10 in Hu.
    replace (u / 10) with 0 by dlia. reflexivity.
  - rewrite (decimal_loop_S (S n)). destruct m as [|m]; [lia|].
    rewrite Nat2Z.inj_succ, Z.pow_succ_r in Hu by lia.
    destruct (Z.eqb_spec (u / 10) 0) as [|Hne]; [reflexivity|].
    assert (Hu' : 0 <= u / 10 < 10 ^ Z.of_nat (S n)).
    { split; [dlia|]. apply Z.div_lt_upper_bound; lia. }
    rewrite (IH m (u / 10) (String (digit (u mod 10)) acc)) by (done || lia).
    rewrite (IH n (u / 10) (String (digit (u mod 10)) "")) by (done || lia).
    by rewrite app_assoc_s.
Qed.

Lemma decimal_1 u : 0 <= u < 10 -> decimal u = String (digit u) "".
Proof.
  intros H. unfold decimal. rewrite decimal_loop_S.
  replace (u / 10) with 0 by dlia. cbn [Z.eqb]. by replace (u mod 10) with u by dlia.
Qed.

Lemma decimal_step u :
  10 <= u < 10 ^ 19 -> decimal u = decimal (u / 10) +:+ String (digit (u mod 10)) "".
Proof.
  intros H. unfold decimal. rewrite decimal_loop_S.
  destruct (Z.eqb_spec (u / 10) 0) as [E|_]; [exfalso; dlia|].
  assert (Hu : 0 <= u / 10 < 10 ^ Z.of_nat 19).
  { split; [dlia|]. apply Z.div_lt_upper_bound; [lia|].
    eapply Z.lt_le_trans; [apply H|]. by vm_compute. }
  rewrite (decimal_loop_acc 18 18 (u / 10)) by (done || lia).
  by rewrite (decimal_loop_acc 18 19 (u / 10) ""), app_empty_r by (done || lia).
Qed.

Lemma appendInt_2 b x : 0 <= x < 100 -> appendInt b x 2 = b +:+ digits2 x.
Proof.
  intros H. unfold appendInt.
  destruct (Z.ltb_spec x 0); [lia|]. f_equal.
  rewrite Z.abs_eq by lia. unfold uint64. rewrite Z.mod_small by lia.
  unfold digits2. destruct (Z.lt_ge_cases x 10) as [Hx|Hx].
  - rewrite decimal_1 by lia. cbn. replace (x / 10) with 0 by dlia.
    replace (x mod 10) with x by dlia. reflexivity.
  - rewrite decimal_step by lia. rewrite decimal_1 by dlia. reflexivity.
Qed.

Lemma appendInt_4 b x : 0 <= x < 10000 -> appendInt b x 4 = b +:+ digits4 x.
Proof.
  intros H. unfold appendInt.
  destruct (Z.ltb_spec x 0); [lia|]. f_equal.
  rewrite Z.abs_eq by lia. unfold uint64. rewrite Z.mod_small by lia.
  unfold digits4.
  assert (D0 : x / 1000 = 0 -> digit (x / 1000) = "0"%char) by (by intros ->).
  destruct (Z.lt_ge_cases x 10) as [H1|H1]; [|destruct (Z.lt_ge_cases x 100) as [H2|H2];
    [|destruct (Z.lt_ge_cases x 1000) as [H3|H3]]].
  - rewrite decimal_1 by lia. cbn.
    replace (x / 1000) with 0 by dlia. replace (x / 100 mod 10) with 0 by dlia.
    replace (x / 10 mod 10) with 0 by dlia. replace (x mod 10) with x by dlia. reflexivity.
  - rewrite decimal_step by lia. rewrite decimal_1 by dlia. cbn.
    replace (x / 1000) with 0 by dlia. replace (x / 100 mod 10) with 0 by dlia.
    replace (x / 10 mod 10) with (x / 10) by dlia. reflexivity.
  - rewrite decimal_step by lia. rewrite decimal_step by dlia. rewrite decimal_1 by dlia.
    cbn. replace (x / 1000) with 0 by dlia.
    replace (x / 10 / 10) with (x / 100 mod 10) by dlia. reflexivity.
  - rewrite decimal_step by lia. rewrite decimal_step by dlia. rewrite decimal_step by dlia.
    rewrite decimal_1 by dlia. cbn.
    replace (x / 10 / 10 / 10) with (x / 1000) by dlia.
    replace (x / 10 / 10 mod 10) with (x / 100 mod 10) by dlia. reflexivity.
Qed.

End timestamp_facts.

Section calendar_facts.
Import time.

(** The two halves of [absDate]: the year (counted from the absolute zero
    year) with the day of the year, and the month with the day of the
    month. *)
Definition yearDay (d : Z) : Z * Z :=
  let n := d / daysPer400Years in
  let y := 400 * n in
  let d := d - daysPer400Years * n in
  let n := d / daysPer100Years in
  let n := n - Z.shiftr n 2 in
  let y := y + 100 * n in
  let d := d - daysPer100Years * n in
  let n := d / daysPer4Years in
  let y := y + 4 * n in
  let d := d - daysPer4Years * n in
  let n := d / 365 in
  let n := n - Z.shiftr n 2 in
  let y := y + n in
  let d := d - 365 * n in
  (y, d).

Definition monthDay (leap : bool) (day : Z) : Z * Z :=
  if leap && (day =? 31 + 29 - 1) then (2, 29)
  else
    let day := if leap && (31 + 29 - 1 <? day) then day - 1 else day in
    let month := day / 31 in
    let e := daysBefore (month + 1) in
    if e <=? day then (month + 2, day - e + 1)
    else (month + 1, day - daysBefore month + 1).

Lemma absDate_yearDay a :
  absDate a
  = let '(y, yd) := yearDay (a / secondsPerDay) in
    let year := int64 (y + absoluteZeroYear) in
    let '(month, day) := monthDay (isLeap year) yd in
    (year, month, day).
Proof.
  unfold absDate, yearDay, monthDay. cbv zeta.
  repeat match goal with |- context [if ?b then _ else _] => destruct b end; reflexivity.
Qed.

(** The days before the year [y]. *)
Definition daysBeforeYear (y : Z) : Z := 365 * y + y / 4 - y / 100 + y / 400.

(** The year after [y] is a leap year. *)
Definition leapAfter (y : Z) : Z :=
  if (y mod 4 =? 3) && (negb (y mod 100 =? 99) || (y mod 400 =? 399)) then 1 else 0.

Lemma yearDay_spec d y yd :
  0 <= d -> yearDay d = (y, yd) ->
  d = daysBeforeYear y + yd /\ 0 <= yd < 365 + leapAfter y /\ 0 <= y.
Proof.
  intros Hd. unfold yearDay, daysBeforeYear, leapAfter.
  unfold daysPer400Years, daysPer100Years, daysPer4Years.
  cbv zeta. rewrite !Z.shiftr_div_pow2 by lia. change (2 ^ 2) with 4.
  intros [= <- <-].
  repeat match goal with |- context [if ?b then _ else _] =>
    let E := fresh "E" in destruct b eqn:E end; b2p; dlia.
Qed.

Lemma daysBeforeYear_next y : daysBeforeYear (y + 1) = daysBeforeYear y + 365 + leapAfter y.
Proof.
  unfold daysBeforeYear, leapAfter.
  repeat match goal with |- context [if ?b then _ else _] =>
    let E := fresh "E" in destruct b eqn:E end; b2p; dlia.
Qed.

Lemma daysBeforeYear_mono y y' : y <= y' -> daysBeforeYear y <= daysBeforeYear y'.
Proof. unfold daysBeforeYear. dlia. Qed.

(** A later day is in a later year, or in the same year on a later day. *)
Lemma yearDay_mono d1 d2 y1 yd1 y2 yd2 :
  0 <= d1 < d2 -> yearDay d1 = (y1, yd1) -> yearDay d2 = (y2, yd2) ->
  y1 < y2 \/ (y1 = y2 /\ yd1 < yd2).
Proof.
  intros Hd H1 H2.
  apply yearDay_spec in H1 as (E1 & B1 & _); [|lia].
  apply yearDay_spec in H2 as (E2 & B2 & _); [|lia].
  destruct (Z.lt_trichotomy y1 y2) as [Hlt|[->|Hgt]]; [by left|right; split; [done|lia]|].
  exfalso. pose proof (daysBeforeYear_mono (y2 + 1) y1 ltac:(lia)) as Hm.
  rewrite daysBeforeYear_next in Hm. lia.
Qed.

(** The month and the day of the month, for each day of the year; [l] is 1
    in a leap year and 0 otherwise. *)
Definition monthDaySpec (l yd m dd : Z) : Prop :=
  (m = 1 /\ 0 <= yd < 31 /\ dd = yd + 1) \/
  (m = 2 /\ 31 <= yd < 59 + l /\ dd = yd - 30) \/
  (m = 3 /\ 59 + l <= yd < 90 + l /\ dd = yd - 58 - l) \/
  (m = 4 /\ 90 + l <= yd < 120 + l /\ dd = yd - 89 - l) \/
  (m = 5 /\ 120 + l <= yd < 151 + l /\ dd = yd - 119 - l) \/
  (m = 6 /\ 151 + l <= yd < 181 + l /\ dd = yd - 150 - l) \/
  (m = 7 /\ 181 + l <= yd < 212 + l /\ dd = yd - 180 - l) \/
  (m = 8 /\ 212 + l <= yd < 243 + l /\ dd = yd - 211 - l) \/
  (m = 9 /\ 243 + l <= yd < 273 + l /\ dd = yd - 242 - l) \/
  (m = 10 /\ 273 + l <= yd < 304 + l /\ dd = yd - 272 - l) \/
  (m = 11 /\ 304 + l <= yd < 334 + l /\ dd = yd - 303 - l) \/
  (m = 12 /\ 334 + l <= yd < 365 + l /\ dd = yd - 333 - l).

Lemma monthDay_spec (leap : bool) yd m dd :
  0 <= yd < 365 + (if leap then 1 else 0) ->
  monthDay leap yd = (m, dd) -> monthDaySpec (if leap then 1 else 0) yd m dd.
Proof.
  intros Hyd. unfold monthDay, monthDaySpec. change (31 + 29 - 1) with 59.
  destruct (leap && (yd =? 59)) eqn:E1.
  { b2p. destruct leap; [|done]. intros [= <- <-]. lia. }
  cbv zeta.
  set (day := if leap && (59 <? yd) then yd - 1 else yd).
  assert (Hday : 0 <= day < 365 /\
            (day = yd /\ (leap = false \/ yd < 59) \/ day = yd - 1 /\ leap = true /\ 59 < yd)).
  { unfold day. destruct leap; cbn [andb] in *.
    - destruct (Z.ltb_spec 59 yd); b2p; lia.
    - lia. }
  clearbody day. destruct Hday as [Hb Hday].
  assert (Hm : 0 <= day / 31 < 12) by dlia.
  assert (Hc : day / 31 = 0 \/ day / 31 = 1 \/ day / 31 = 2 \/ day / 31 = 3 \/
               day / 31 = 4 \/ day / 31 = 5 \/ day / 31 = 6 \/ day / 31 = 7 \/
               day / 31 = 8 \/ day / 31 = 9 \/ day / 31 = 10 \/ day / 31 = 11) by lia.
  assert (Hq : 31 * (day / 31) <= day < 31 * (day / 31) + 31) by dlia.
  destruct leap; cbn [andb] in E1; b2p;
  repeat (destruct Hc as [Hc|Hc]); rewrite Hc in *;
    repeat match goal with |- context [daysBefore ?x] =>
      let v := eval vm_compute in (daysBefore x) in change (daysBefore x) with v end;
    match goal with |- context [?e <=? day] => destruct (Z.leb_spec e day) end;
    intros [= <- <-]; lia.
Qed.

End calendar_facts.

Section utc_facts.
Import time.

(** The seconds of the years 1 to 9999: from 0001-01-01T00:00:00Z up to,
    not including, 10000-01-01T00:00:00Z. *)
Definition minUnix : Z := -62135596800.
Definition maxUnix : Z := 253402300800.

(** Date and clock of a Unix time in UTC. *)
Definition utcAbs (sec : Z) : Z := sec + (unixToInternal + internalToAbsolute).

Lemma abs_utc sec nanos :
  minUnix <= sec < maxUnix -> abs (mkTime sec nanos) 0 = utcAbs sec.
Proof.
  unfold minUnix, maxUnix, abs, utcAbs, uint64, unixToInternal, internalToAbsolute.
  cbn [unixSec]. intros H. rewrite Z.add_0_r. apply Z.mod_small. lia.
Qed.

Lemma isLeap_leapAfter y :
  1 <= y + absoluteZeroYear < 2 ^ 62 ->
  (if isLeap (int64 (y + absoluteZeroYear)) then 1 else 0) = leapAfter y.
Proof.
  unfold absoluteZeroYear, int64, isLeap, leapAfter. intros H.
  replace ((y + -292277022399 + 2 ^ 63) mod 2 ^ 64 - 2 ^ 63) with (y - 292277022399)
    by (rewrite Z.mod_small by lia; lia).
  rewrite !Z.rem_mod_nonneg by lia.
  repeat match goal with |- context [if ?b then _ else _] =>
    let E := fresh "E" in destruct b eqn:E end; b2p; try reflexivity; exfalso; dlia.
Qed.

(** The date of a second of the years 1 to 9999. *)
Lemma absDate_utc sec year month day :
  minUnix <= sec < maxUnix ->
  absDate (utcAbs sec) = (year, month, day) ->
  exists y yd,
    yearDay (utcAbs sec / secondsPerDay) = (y, yd) /\
    year = y + absoluteZeroYear /\ 1 <= year <= 9999 /\
    monthDaySpec (leapAfter y) yd month day.
Proof.
  intros Hsec. rewrite absDate_yearDay.
  destruct (yearDay (utcAbs sec / secondsPerDay)) as [y yd] eqn:Ey. cbv zeta.
  assert (Hd : 106751990353932 <= utcAbs sec / secondsPerDay < 106751990353932 + 3652059).
  { unfold utcAbs, unixToInternal, internalToAbsolute, secondsPerDay, minUnix, maxUnix in *.
    dlia. }
  pose proof Ey as Hy. apply yearDay_spec in Hy as (Ed & Hyd & Hy0); [|lia].
  assert (Hyear : 1 <= y + absoluteZeroYear <= 9999).
  { unfold absoluteZeroYear. unfold daysBeforeYear, leapAfter in *.
    revert Hyd. repeat match goal with |- context [if ?b then _ else _] => destruct b end;
      intros Hyd; dlia. }
  pose proof (isLeap_leapAfter y ltac:(lia)) as Hl.
  assert (Hi : int64 (y + absoluteZeroYear) = y + absoluteZeroYear).
  { unfold int64. rewrite Z.mod_small by lia. lia. }
  destruct (monthDay _ yd) as [m dd] eqn:Em. intros [= <- <- <-].
  exists y, yd. split; [done|]. rewrite Hi. split; [done|]. split; [done|].
  rewrite <- Hl. apply monthDay_spec; [|done]. rewrite Hl. done.
Qed.

Lemma absClock_spec a h mi s :
  absClock a = (h, mi, s) ->
  0 <= h < 24 /\ 0 <= mi < 60 /\ 0 <= s < 60 /\ a mod secondsPerDay = 3600 * h + 60 * mi + s.
Proof. unfold absClock, secondsPerDay. cbv zeta. intros [= <- <- <-]. dlia. Qed.

(** The timestamp of a second of the years 1 to 9999 in UTC: four digits of
    the year, two of each other field. *)
Lemma Format_RFC3339_utc local sec nanos year month day h mi s :
  0 <= nanos < 1000000000 -> minUnix <= sec < maxUnix -> local sec = 0 ->
  absDate (utcAbs sec) = (year, month, day) ->
  absClock (utcAbs sec) = (h, mi, s) ->
  Format_RFC3339 local (Unix sec nanos)
  = digits4 year +:+ "-" +:+ digits2 month +:+ "-" +:+ digits2 day +:+ "T" +:+
    digits2 h +:+ ":" +:+ digits2 mi +:+ ":" +:+ digits2 s +:+ "Z".
Proof.
  intros Hn Hsec Hl Hd Hc.
  destruct (absDate_utc _ _ _ _ Hsec Hd) as (y & yd & _ & _ & Hy & Hm).
  destruct (absClock_spec _ _ _ _ Hc) as (Hh & Hmi & Hs & _).
  assert (Hmd : 1 <= month <= 12 /\ 1 <= day <= 31).
  { unfold monthDaySpec, leapAfter in Hm. destruct (_ && _); lia. }
  unfold Format_RFC3339, Unix.
  destruct (Z.ltb_spec nanos 0); [lia|]. destruct (Z.leb_spec 1000000000 nanos); [lia|].
  cbn [orb unixSec]. rewrite Hl. unfold appendFormatRFC3339.
  rewrite abs_utc, Hd, Hc by done. cbn [Z.eqb].
  rewrite appendInt_4 by lia. rewrite !appendInt_2 by lia.
  by rewrite !app_assoc_s.
Qed.

(** *** Timestamps compare as their seconds do *)

Lemma compare_digit i j s t :
  0 <= i < 10 -> 0 <= j < 10 ->
  String.compare (String (digit i) s) (String (digit j) t)
  = match i ?= j with Eq => String.compare s t | c => c end.
Proof.
  intros Hi Hj. cbn [String.compare]. unfold Ascii.compare.
  assert (E : forall x, 0 <= x < 10 -> N_of_ascii (digit x) = Z.to_N (48 + x)).
  { intros x Hx. pose proof (ord_chr (48 + x) ltac:(lia)) as H. unfold ord in H.
    unfold digit. lia. }
  rewrite !E by done. rewrite Z2N.inj_compare by lia.
  rewrite Z.add_compare_mono_l. by destruct (i ?= j).
Qed.

(** One more leading digit in a comparison of two numbers. *)
Ltac compare_digit_step x y :=
  match goal with
  | |- match ?a ?= ?b with Eq => _ | Lt => Lt | Gt => Gt end = _ =>
      destruct (Z.compare_spec a b);
      [ | rewrite (proj2 (Z.compare_lt_iff x y)) by dlia; reflexivity
        | rewrite (proj2 (Z.compare_gt_iff x y)) by dlia; reflexivity ]
  end.

Lemma compare_digits2 x y s t :
  0 <= x < 100 -> 0 <= y < 100 ->
  String.compare (digits2 x +:+ s) (digits2 y +:+ t)
  = match x ?= y with Eq => String.compare s t | c => c end.
Proof.
  intros Hx Hy. unfold digits2. rewrite !app_String, !app_empty_l.
  rewrite !compare_digit by dlia.
  compare_digit_step x y. compare_digit_step x y.
  by rewrite (proj2 (Z.compare_eq_iff x y)) by dlia.
Qed.

Lemma compare_digits4 x y s t :
  0 <= x < 10000 -> 0 <= y < 10000 ->
  String.compare (digits4 x +:+ s) (digits4 y +:+ t)
  = match x ?= y with Eq => String.compare s t | c => c end.
Proof.
  intros Hx Hy. unfold digits4. rewrite !app_String, !app_empty_l.
  rewrite !compare_digit by dlia.
  compare_digit_step x y. compare_digit_step x y.
  compare_digit_step x y. compare_digit_step x y.
  by rewrite (proj2 (Z.compare_eq_iff x y)) by dlia.
Qed.

Lemma compare_same c s t : String.compare (String c s) (String c t) = String.compare s t.
Proof. cbn [String.compare]. unfold Ascii.compare. by rewrite N.compare_refl. Qed.

End utc_facts.

Section order_facts.
Import time.

(** A later second has a later date, or the same date and a later clock. *)
Lemma utc_fields_lt sec1 sec2 year1 month1 day1 h1 mi1 s1 year2 month2 day2 h2 mi2 s2 :
  minUnix <= sec1 -> sec1 < sec2 -> sec2 < maxUnix ->
  absDate (utcAbs sec1) = (year1, month1, day1) -> absClock (utcAbs sec1) = (h1, mi1, s1) ->
  absDate (utcAbs sec2) = (year2, month2, day2) -> absClock (utcAbs sec2) = (h2, mi2, s2) ->
  year1 < year2 \/ year1 = year2 /\
  (month1 < month2 \/ month1 = month2 /\
   (day1 < day2 \/ day1 = day2 /\
    (h1 < h2 \/ h1 = h2 /\ (mi1 < mi2 \/ mi1 = mi2 /\ s1 < s2)))).
Proof.
  intros Hlo Hlt Hhi Hd1 Hc1 Hd2 Hc2.
  destruct (absClock_spec _ _ _ _ Hc1) as (Hh1 & Hm1 & Hs1 & E1).
  destruct (absClock_spec _ _ _ _ Hc2) as (Hh2 & Hm2 & Hs2 & E2).
  assert (Ha : 0 <= utcAbs sec1 < utcAbs sec2).
  { unfold utcAbs, unixToInternal, internalToAbsolute, minUnix in *. lia. }
  assert (Hcase : utcAbs sec1 / secondsPerDay < utcAbs sec2 / secondsPerDay \/
                  utcAbs sec1 / secondsPerDay = utcAbs sec2 / secondsPerDay /\
                  utcAbs sec1 mod secondsPerDay < utcAbs sec2 mod secondsPerDay).
  { unfold secondsPerDay. dlia. }
  destruct Hcase as [Hday|[Hday Hsod]].
  - destruct (absDate_utc sec1 _ _ _ ltac:(lia) Hd1) as (y1 & yd1 & Ey1 & -> & _ & M1).
    destruct (absDate_utc sec2 _ _ _ ltac:(lia) Hd2) as (y2 & yd2 & Ey2 & -> & _ & M2).
    assert (Hd0 : 0 <= utcAbs sec1 / secondsPerDay) by (unfold secondsPerDay; dlia).
    destruct (yearDay_mono _ _ _ _ _ _ (conj Hd0 Hday) Ey1 Ey2) as [Hy|[-> Hyd]]; [lia|].
    right. split; [done|]. unfold monthDaySpec in M1, M2.
    unfold leapAfter in M1, M2. destruct (_ && _); lia.
  - rewrite !absDate_yearDay, Hday in *. rewrite Hd1 in Hd2. injection Hd2 as <- <- <-.
    lia.
Qed.

Lemma compare_utc year1 month1 day1 h1 mi1 s1 year2 month2 day2 h2 mi2 s2 :
  0 <= year1 < 10000 -> 0 <= month1 < 100 -> 0 <= day1 < 100 ->
  0 <= h1 < 100 -> 0 <= mi1 < 100 -> 0 <= s1 < 100 ->
  0 <= year2 < 10000 -> 0 <= month2 < 100 -> 0 <= day2 < 100 ->
  0 <= h2 < 100 -> 0 <= mi2 < 100 -> 0 <= s2 < 100 ->
  year1 < year2 \/ year1 = year2 /\
  (month1 < month2 \/ month1 = month2 /\
   (day1 < day2 \/ day1 = day2 /\
    (h1 < h2 \/ h1 = h2 /\ (mi1 < mi2 \/ mi1 = mi2 /\ s1 < s2)))) ->
  String.compare
    (digits4 year1 +:+ "-" +:+ digits2 month1 +:+ "-" +:+ digits2 day1 +:+ "T" +:+
     digits2 h1 +:+ ":" +:+ digits2 mi1 +:+ ":" +:+ digits2 s1 +:+ "Z")
    (digits4 year2 +:+ "-" +:+ digits2 month2 +:+ "-" +:+ digits2 day2 +:+ "T" +:+
     digits2 h2 +:+ ":" +:+ digits2 mi2 +:+ ":" +:+ digits2 s2 +:+ "Z")
  = Lt.
Proof.
  intros ? ? ? ? ? ? ? ? ? ? ? ? Hlt.
  repeat first
    [ rewrite compare_digits4 by done
    | rewrite compare_digits2 by done
    | rewrite ?app_String, compare_same, ?app_empty_l ].
  repeat match goal with
  | |- match ?a ?= ?b with _ => _ end = _ => destruct (Z.compare_spec a b)
  end; try reflexivity; exfalso; lia.
Qed.

Lemma compare_refl_s s : String.compare s s = Eq.
Proof. induction s as [|c s IH]; [done|]. by rewrite compare_same. Qed.

(** The timestamps of two seconds of the years 1 to 9999 in UTC compare,
    byte by byte, as the seconds do. *)
Lemma Format_RFC3339_utc_compare local1 local2 sec1 nanos1 sec2 nanos2 :
  0 <= nanos1 < 1000000000 -> 0 <= nanos2 < 1000000000 ->
  minUnix <= sec1 < maxUnix -> minUnix <= sec2 < maxUnix ->
  local1 sec1 = 0 -> local2 sec2 = 0 ->
  String.compare (Format_RFC3339 local1 (Unix sec1 nanos1))
                 (Format_RFC3339 local2 (Unix sec2 nanos2))
  = (sec1 ?= sec2).
Proof.
  intros Hn1 Hn2 Hs1 Hs2 Hl1 Hl2.
  assert (Hlt : forall l1 l2 a n1 b n2,
            0 <= n1 < 1000000000 -> 0 <= n2 < 1000000000 ->
            minUnix <= a -> a < b -> b < maxUnix -> l1 a = 0 -> l2 b = 0 ->
            String.compare (Format_RFC3339 l1 (Unix a n1)) (Format_RFC3339 l2 (Unix b n2))
            = Lt).
  { clear. intros l1 l2 a n1 b n2 Hn1 Hn2 Hlo Hlt Hhi Hl1 Hl2.
    destruct (absDate (utcAbs a)) as [[year1 month1] day1] eqn:Hd1.
    destruct (absClock (utcAbs a)) as [[h1 mi1] s1] eqn:Hc1.
    destruct (absDate (utcAbs b)) as [[year2 month2] day2] eqn:Hd2.
    destruct (absClock (utcAbs b)) as [[h2 mi2] s2] eqn:Hc2.
    rewrite (Format_RFC3339_utc l1 a n1 _ _ _ _ _ _ Hn1 ltac:(lia) Hl1 Hd1 Hc1).
    rewrite (Format_RFC3339_utc l2 b n2 _ _ _ _ _ _ Hn2 ltac:(lia) Hl2 Hd2 Hc2).
    destruct (absDate_utc a _ _ _ ltac:(lia) Hd1) as (y1 & yd1 & _ & _ & Hy1 & M1).
    destruct (absDate_utc b _ _ _ ltac:(lia) Hd2) as (y2 & yd2 & _ & _ & Hy2 & M2).
    destruct (absClock_spec _ _ _ _ Hc1) as (? & ? & ? & _).
    destruct (absClock_spec _ _ _ _ Hc2) as (? & ? & ? & _).
    assert (1 <= month1 <= 12 /\ 1 <= day1 <= 31)
      by (unfold monthDaySpec, leapAfter in M1; destruct (_ && _); lia).
    assert (1 <= month2 <= 12 /\ 1 <= day2 <= 31)
      by (unfold monthDaySpec, leapAfter in M2; destruct (_ && _); lia).
    apply compare_utc; try lia.
    by apply (utc_fields_lt a b). }
  destruct (Z.compare_spec sec1 sec2) as [->|H|H].
  - unfold Format_RFC3339, Unix.
    destruct (Z.ltb_spec nanos1 0); [lia|]. destruct (Z.leb_spec 1000000000 nanos1); [lia|].
    destruct (Z.ltb_spec nanos2 0); [lia|]. destruct (Z.leb_spec 1000000000 nanos2); [lia|].
    cbn [orb unixSec]. rewrite Hl1, Hl2. unfold appendFormatRFC3339, abs.
    cbn [unixSec]. apply compare_refl_s.
  - apply Hlt; lia.
  - rewrite String.compare_antisym. rewrite Hlt by lia. reflexivity.
Qed.

End order_facts.

#[local] Opaque time.Format_RFC3339.

(** X19: for a transaction time in the years 1 to 9999, with nanoseconds
    below one second, and the process in UTC, [getTimestamp] returns twenty
    bytes: the year in four digits and month, day, hour, minute and second in
    two digits each, with their separators and a final Z.  The nanoseconds do
    not appear.  Hour, minute and second are those of the second of the
    day. *)
Theorem getTimestamp_utc ctx w sec nanos :
  txTimestamp ctx = Ok (sec, nanos) ->
  0 <= nanos < 1000000000 ->
  minUnix <= sec < maxUnix ->
  localOffset ctx sec = 0 ->
  exists year month day h mi s,
    1 <= year <= 9999 /\ 1 <= month <= 12 /\ 1 <= day <= 31 /\
    0 <= h < 24 /\ 0 <= mi < 60 /\ 0 <= s < 60 /\
    sec mod 86400 = 3600 * h + 60 * mi + s /\
    getTimestamp ctx w
    = (Ok (digits4 year +:+ "-" +:+ digits2 month +:+ "-" +:+ digits2 day +:+ "T" +:+
           digits2 h +:+ ":" +:+ digits2 mi +:+ ":" +:+ digits2 s +:+ "Z"), w) /\
    String.length (digits4 year +:+ "-" +:+ digits2 month +:+ "-" +:+ digits2 day +:+ "T" +:+
                   digits2 h +:+ ":" +:+ digits2 mi +:+ ":" +:+ digits2 s +:+ "Z") = 20%nat.
Proof.
  intros Hts Hn Hsec Hl.
  destruct (time.absDate (utcAbs sec)) as [[year month] day] eqn:Hd.
  destruct (time.absClock (utcAbs sec)) as [[h mi] s] eqn:Hc.
  destruct (absDate_utc _ _ _ _ Hsec Hd) as (y & yd & _ & _ & Hy & Hm).
  destruct (absClock_spec _ _ _ _ Hc) as (Hh & Hmi & Hs & Hsod).
  exists year, month, day, h, mi, s.
  assert (Hmd : 1 <= month <= 12 /\ 1 <= day <= 31).
  { unfold monthDaySpec, leapAfter in Hm. destruct (_ && _); lia. }
  repeat (split; [lia|]). split; [|split; [|reflexivity]].
  - rewrite <- Hsod. unfold utcAbs, time.unixToInternal, time.internalToAbsolute,
      time.secondsPerDay. dlia.
  - rewrite (getTimestamp_ok _ _ _ _ Hts). unfold curTimeOf.
    by rewrite (Format_RFC3339_utc _ _ _ _ _ _ _ _ _ Hn Hsec Hl Hd Hc).
Qed.

Lemma getTimestamp_utc_witness :
  exists year month day h mi s,
    1 <= year <= 9999 /\ 1 <= month <= 12 /\ 1 <= day <= 31 /\
    0 <= h < 24 /\ 0 <= mi < 60 /\ 0 <= s < 60 /\
    1700000000 mod 86400 = 3600 * h + 60 * mi + s /\
    getTimestamp exampleContext emptyWorld
    = (Ok (digits4 year +:+ "-" +:+ digits2 month +:+ "-" +:+ digits2 day +:+ "T" +:+
           digits2 h +:+ ":" +:+ digits2 mi +:+ ":" +:+ digits2 s +:+ "Z"), emptyWorld) /\
    String.length (digits4 year +:+ "-" +:+ digits2 month +:+ "-" +:+ digits2 day +:+ "T" +:+
                   digits2 h +:+ ":" +:+ digits2 mi +:+ ":" +:+ digits2 s +:+ "Z") = 20%nat.
Proof.
  apply (getTimestamp_utc exampleContext emptyWorld 1700000000 0);
    [reflexivity|lia|unfold minUnix, maxUnix; lia|reflexivity].
Defined.

(** X20: in UTC and for the years 1 to 9999, the timestamps that
    [getTimestamp] returns compare, byte by byte as Go compares strings, as
    the seconds of their transactions do: a later second gives a greater
    timestamp, and two timestamps are equal exactly for the same second,
    whatever the nanoseconds. *)
Theorem getTimestamp_order ctx1 ctx2 w1 w2 sec1 nanos1 sec2 nanos2 :
  txTimestamp ctx1 = Ok (sec1, nanos1) -> txTimestamp ctx2 = Ok (sec2, nanos2) ->
  0 <= nanos1 < 1000000000 -> 0 <= nanos2 < 1000000000 ->
  minUnix <= sec1 < maxUnix -> minUnix <= sec2 < maxUnix ->
  localOffset ctx1 sec1 = 0 -> localOffset ctx2 sec2 = 0 ->
  exists t1 t2,
    getTimestamp ctx1 w1 = (Ok t1, w1) /\ getTimestamp ctx2 w2 = (Ok t2, w2) /\
    String.compare t1 t2 = (sec1 ?= sec2) /\
    (t1 = t2 <-> sec1 = sec2).
Proof.
  intros Hts1 Hts2 Hn1 Hn2 Hs1 Hs2 Hl1 Hl2.
  exists (curTimeOf ctx1 sec1 nanos1), (curTimeOf ctx2 sec2 nanos2).
  split; [by apply getTimestamp_ok|]. split; [by apply getTimestamp_ok|].
  pose proof (Format_RFC3339_utc_compare _ _ _ _ _ _ Hn1 Hn2 Hs1 Hs2 Hl1 Hl2) as Hc.
  fold (curTimeOf ctx1 sec1 nanos1) in Hc. fold (curTimeOf ctx2 sec2 nanos2) in Hc.
  split; [exact Hc|]. split.
  - intros E. rewrite E, compare_refl_s in Hc. symmetry in Hc. by apply Z.compare_eq in Hc.
  - intros E. apply String.compare_eq_iff. rewrite Hc. by apply Z.compare_eq_iff.
Qed.

Lemma getTimestamp_order_witness :
  exists t1 t2,
    getTimestamp exampleContext emptyWorld = (Ok t1, emptyWorld) /\
    getTimestamp laterContext seededWorld = (Ok t2, seededWorld) /\
    String.compare t1 t2 = (1700000000 ?= 1700003600) /\
    (t1 = t2 <-> 1700000000 = 1700003600).
Proof.
  apply (getTimestamp_order exampleContext laterContext emptyWorld seededWorld
           1700000000 0 1700003600 0);
    try reflexivity; unfold minUnix, maxUnix; lia.
Defined.
